(** * Shallow embedding of the epidata pipeline (memilio)

    The development follows the Python sources:
    - [getPopulationData.py]: [get_new_counties], the assembly of the
      census array and the rescaling step of [get_age_population_data],
      [get_one_data_set], [get_population_data];
    - [getDataIntoPandasDataFrame.py]: [download_file], [loadGeojson],
      [loadCsv], [loadExcel], [cli], [append_filename], [check_dir],
      [write_dataframe];
    - [cleanData.py]: [clean_data], [cli], [main].

    Python exceptions are values of [exn]; a function that may raise
    returns a [result].  State (the file system, the default-argument
    dictionaries of the loaders) is passed explicitly.  The module [gd]
    that [getPopulationData.py] imports is not among the sources: where
    its functions are called they are parameters of the model. *)

From Stdlib Require Import ZArith QArith Qround Lia Ascii String.
From stdpp Require Import base list sorting strings pretty gmap.

Set Default Proof Using "Type".

(** ** Exceptions and results *)

Inductive exn :=
| HTTPError (msg : string)
| ConnectionError
| ChunkedEncodingError
| URLError
| FileNotFoundError (msg : string)
| FileExistsError
| NoSuchDirectory
| IsADirectoryError
| NotADirectoryError
| DirectoryNotEmpty
| TypeError
| ValueError (msg : string)
| IndexError
| AttributeError (msg : string)
| ZeroDivisionError
| LookupError
| ParserError
| SystemExit (code : Z).

(** [requests.exceptions.RequestException] and its subclasses. *)
Definition is_RequestException (e : exn) : bool :=
  match e with
  | HTTPError _ | ConnectionError | ChunkedEncodingError => true
  | _ => false
  end.

(** [OSError] and its subclasses; [RequestException] derives from
    [IOError], which is [OSError]. *)
Definition is_OSError (e : exn) : bool :=
  match e with
  | HTTPError _ | ConnectionError | ChunkedEncodingError | URLError
  | FileNotFoundError _ | FileExistsError | NoSuchDirectory
  | IsADirectoryError
  | NotADirectoryError | DirectoryNotEmpty => true
  | _ => false
  end.

Inductive result (A : Type) :=
| Ok (a : A)
| Raise (e : exn).
Arguments Ok {A} a.
Arguments Raise {A} e.

Definition rbind {A B} (r : result A) (k : A → result B) : result B :=
  match r with
  | Ok a => k a
  | Raise e => Raise e
  end.

Notation "'do' x <- r ; k" := (rbind r (λ x, k))
  (at level 10, x name, r at level 100, k at level 200,
   format "'[v' 'do'  x  <-  r ;  '/' k ']'").

(** A [for] loop that collects one result per element and stops at the
    first exception. *)
Fixpoint for_each {A B} (f : A → result B) (l : list A) : result (list B) :=
  match l with
  | [] => Ok []
  | x :: l' => do y <- f x; do ys <- for_each f l'; Ok (y :: ys)
  end.

(** ** [get_new_counties] *)

Module Counties.

(** A two-dimensional array: [ncols] is [shape[1]], every row has that
    length.  The entries are the integer values that the caller stored
    with [astype(int)]; on such values the array's additions are exact. *)
Abbreviation row := (list Z).

Record ndarray := NdArray { ncols : nat; rows : list row }.

Definition wf_ndarray (m : ndarray) : Prop :=
  Forall (λ r : row, length r = ncols m) (rows m).

(** [data_temp[i,0]] *)
Definition row_key (r : row) : Z := default 0%Z (r !! 0).

Definition keys (d : list row) : list Z := row_key <$> d.

(** The seven new region keys, in the order of the appended rows. *)
Definition successor_keys : list Z :=
  [3159; 13071; 13072; 13073; 13074; 13075; 13076]%Z.

(** The table of the loop body: the entry [(k, preds)] stands for
    [if data_temp[i,0] in preds: data_temp[-k, 1:] += data_temp[i,1:];
     to_delete.append(i)]. *)
Definition fusions : list (nat * list Z) :=
  [ (7, [3152; 3156]%Z);
    (6, [13056; 13002; 13055; 13052]%Z);
    (5, [13051; 13053]%Z);
    (4, [13061; 13005; 13057]%Z);
    (3, [13006; 13058]%Z);
    (2, [13059; 13062; 13001]%Z);
    (1, [13054; 13060]%Z) ].

Definition predecessor_keys : list Z := concat (snd <$> fusions).

(** [np.append(data_temp, np.zeros((7, data_temp.shape[1])), axis=0)] *)
Definition append_zeros (m : ndarray) : list row :=
  rows m ++ replicate 7 (replicate (ncols m) 0%Z).

(** [data_temp[-k, 0] = v] *)
Definition set_key (k : nat) (v : Z) (d : list row) : list row :=
  alter (λ r : row, <[0 := v]> r) (length d - k) d.

(** [dst[1:] += src[1:]] *)
Definition add_brackets (src dst : row) : row :=
  match dst with
  | [] => []
  | k :: t => k :: zip_with Z.add t (tail src)
  end.

Definition fuse_step (i : nat) (st : list row * list nat)
    (f : nat * list Z) : list row * list nat :=
  match st.1 !! i with
  | Some ri =>
      if bool_decide (row_key ri ∈ f.2)
      then (alter (add_brackets ri) (length st.1 - f.1) st.1, st.2 ++ [i])
      else st
  | None => st
  end.

(** One iteration of [for i in range(len(data_temp[:,0]))]. *)
Definition loop_body (st : list row * list nat) (i : nat)
    : list row * list nat :=
  fold_left (fuse_step i) fusions st.

(** [np.delete(data_temp, to_delete, 0)]; every index in [to_delete] is a
    row index of the array here, so the call does not raise. *)
Fixpoint delete_from (i : nat) (idx : list nat) (d : list row) : list row :=
  match d with
  | [] => []
  | r :: d' =>
      if bool_decide (i ∈ idx) then delete_from (S i) idx d'
      else r :: delete_from (S i) idx d'
  end.

Definition np_delete (d : list row) (idx : list nat) : list row :=
  delete_from 0 idx d.

Definition key_le (p q : Z * nat) : Prop := (p.1 ≤ q.1)%Z.

Global Instance key_le_dec p q : Decision (key_le p q) :=
  Z_le_dec p.1 q.1.

(** [np.argsort(data_temp[:,0])]: the row indices ordered by key. *)
Definition argsort (ks : list Z) : list nat :=
  (merge_sort key_le (zip ks (seq 0 (length ks)))).*2.

(** [data_temp[sorted_inds, :]] *)
Definition take_rows (inds : list nat) (d : list row) : list row :=
  (λ i, default [] (d !! i)) <$> inds.

Definition get_new_counties (data_temp : ndarray) : result (list row) :=
  let d := append_zeros data_temp in
  if bool_decide (ncols data_temp = 0) then Raise IndexError
  else
    let d := set_key 7 3159 d in
    let d := set_key 6 13071 d in
    let d := set_key 5 13072 d in
    let d := set_key 4 13073 d in
    let d := set_key 3 13074 d in
    let d := set_key 2 13075 d in
    let d := set_key 1 13076 d in
    let '(d, to_delete) := fold_left loop_body (seq 0 (length d)) (d, []) in
    let d := np_delete d to_delete in
    let sorted_inds := argsort (keys d) in
    Ok (take_rows sorted_inds d).

End Counties.

(** ** The rescaling step of [get_age_population_data] (lines 180-198) *)

Module Rescale.
Import Counties.

(** The array arithmetic of the step is binary floating point.  Its
    operations are kept abstract: [of_int v] is the array entry holding the
    integer [v], [div] and [mul] are the array's division and product,
    [round] is [np.round] and [to_int] is [astype(int)]. *)
Record float_ops := FloatOps {
  F : Type;
  of_int : Z → F;
  one : F;
  div : F → F → F;
  mul : F → F → F;
  round : F → F;
  to_int : F → Z
}.

(** A row of the reference table [counties]: [key_number] is [None] where
    [counties['Schlüssel-nummer'].isnull()] holds and otherwise the value
    of [int(counties['Schlüssel-nummer'].values[j])]; [population] is
    [counties['Bevölkerung2)'].values[j]]. *)
Record county_row (fl : float_ops) := CountyRow {
  key_number : option Z;
  population : F fl
}.
Arguments CountyRow {fl} _ _.
Arguments key_number {fl} _.
Arguments population {fl} _.

Definition columns : list string :=
  ["Key"; "Total"; "<3 years"; "3-5 years"; "6-14 years"; "15-17 years";
   "18-24 years"; "25-29 years"; "30-39 years"; "40-49 years";
   "50-64 years"; "65-74 years"; ">74 years"].

(** [data[i,j]] *)
Definition get (r : row) (j : nat) : result Z :=
  match r !! j with
  | Some v => Ok v
  | None => Raise IndexError
  end.

Section step.
Context (fl : float_ops).

(** The body of [for j in range(len(counties)-11)] for the row [r]. *)
Definition ratio_step (r : row) (acc : result (F fl))
    (c : county_row fl) : result (F fl) :=
  do a <- acc;
  match key_number c with
  | None => Ok a
  | Some k =>
      do k0 <- get r 0;
      if bool_decide (k0 = k)
      then do t <- get r 1; Ok (div fl (population c) (of_int fl t))
      else Ok a
  end.

(** [ratio[i]] for the row [r = data[i,:]]. *)
Definition ratio_of (counties : list (county_row fl)) (r : row)
    : result (F fl) :=
  fold_left (ratio_step r) (take (length counties - 11) counties)
    (Ok (one fl)).

(** The row of [data_current]: the key is copied, every other column is
    multiplied by the ratio of the row. *)
Definition current_row (r : row) (ratio : F fl) : result (list (F fl)) :=
  do k <- get r 0;
  Ok (of_int fl k :: ((λ v, mul fl (of_int fl v) ratio) <$> tail r)).

(** [pandas.DataFrame(values, columns=columns)] *)
Definition DataFrame (values : list (list Z)) : result (list (list Z)) :=
  if bool_decide (Forall (λ r : list Z, length r = length columns) values)
  then Ok values
  else Raise (ValueError "Shape of passed values does not match columns").

(** Lines 180-198: the pair [(df, df_current)]. *)
Definition rescale (counties : list (county_row fl)) (data : list row)
    : result (list (list Z) * list (list Z)) :=
  do ratio <- for_each (ratio_of counties) data;
  do _ <- (if bool_decide (data = []) then Raise IndexError else Ok ());
  do data_current <- for_each (λ p, current_row p.1 p.2) (zip data ratio);
  do df <- DataFrame data;
  do df_current <- DataFrame ((λ r : list (F fl),
                                   (λ x, to_int fl (round fl x)) <$> r)
                                <$> data_current);
  Ok (df, df_current).
End step.

(** An instance on exact rationals: [np.round] rounds half to even,
    [astype(int)] truncates toward zero. *)
Definition Qround_half_even (q : Q) : Z :=
  let f := Qfloor q in
  match (q - inject_Z f ?= 1 # 2)%Q with
  | Lt => f
  | Gt => (f + 1)%Z
  | Eq => if Z.even f then f else (f + 1)%Z
  end.

Definition Qtrunc (q : Q) : Z := (Qnum q ÷ Zpos (Qden q))%Z.

Definition Q_ops : float_ops :=
  {| F := Q; of_int := inject_Z; one := 1%Q; div := Qdiv; mul := Qmult;
     round := λ q, inject_Z (Qround_half_even q); to_int := Qtrunc |}.

End Rescale.

(** ** Python values, dictionaries and tables *)

Inductive pyval :=
| PyNone
| PyBool (b : bool)
| PyInt (n : Z)
| PyStr (s : string)
| PyNaN.

Global Instance pyval_eq_dec : EqDecision pyval.
Proof. solve_decision. Defined.

(** [bool(v)] *)
Definition truthy (v : pyval) : bool :=
  match v with
  | PyNone => false
  | PyBool b => b
  | PyInt n => negb (n =? 0)%Z
  | PyStr s => negb (String.eqb s "")
  | PyNaN => true
  end.

(** [isinstance(v, type("string"))] *)
Definition is_str (v : pyval) : bool :=
  match v with
  | PyStr _ => true
  | _ => false
  end.

(** A [dict] with string keys; also the keyword arguments of a call. *)
Abbreviation dict := (gmap string pyval).

(** A [pandas.Timestamp]; only the calendar date is kept.  Years of a
    Timestamp have four digits. *)
Record datetime := Datetime { year : nat; month : nat; day : nat }.

Global Instance datetime_eq_dec : EqDecision datetime.
Proof. solve_decision. Defined.

(** A column of a table: [Datetime64] is a datetime-typed column whose
    missing entries ([NaT]) are [None]; [Object] holds Python objects;
    [Int64] is a numeric column. *)
Inductive series :=
| Datetime64 (vals : list (option datetime))
| Object (vals : list pyval)
| Int64 (vals : list Z).

Global Instance series_eq_dec : EqDecision series.
Proof. solve_decision. Defined.

(** A table: named columns, in insertion order. *)
Definition dataframe := list (string * series).

(** [name in df.columns] and [df.name] *)
Fixpoint column (name : string) (df : dataframe) : option series :=
  match df with
  | [] => None
  | (n, s) :: df' => if String.eqb n name then Some s else column name df'
  end.

(** [df.name = s] for an existing column *)
Fixpoint set_column (name : string) (s : series) (df : dataframe)
    : dataframe :=
  match df with
  | [] => []
  | (n, s0) :: df' =>
      if String.eqb n name then (n, s) :: df'
      else (n, s0) :: set_column name s df'
  end.

(** ** Fetcher and Format Loaders *)

Module Fetch.

Definition bytes := list Byte.byte.

(** The outcome of [int(req.headers.get('content-length'))]: the header
    may be absent ([int(None)]), may fail to parse, or gives a number. *)
Inductive header :=
| Missing
| Malformed
| Length (n : Z).

Definition int_of_header (h : header) : result Z :=
  match h with
  | Missing => Raise TypeError
  | Malformed => Raise (ValueError "invalid literal for int()")
  | Length n => Ok n
  end.

(** What iterating [req.iter_content(chunk_size=...)] delivers: the chunks
    and, possibly, an exception of the transport after the last of them. *)
Record stream := Stream {
  chunks : list bytes;
  stream_error : option exn
}.

Record response := Response {
  status_code : Z;
  content_length : header;
  body : option Z → stream
}.

Inductive buffer :=
| BytesIO (b : bytes)
| StringIO (s : string).

(** The collaborators outside the repository: the HTTP layer, the codecs
    and the pandas readers. *)
Record world := World {
  requests_get : string → pyval → result response;
  decode : string → bytes → result string;
  read_csv_buffer : buffer → dict → result dataframe;
  read_csv_url : string → dict → result dataframe;
  urlopen_read : string → result bytes;
  zip_first_member : bytes → result string;
  zip_open : bytes → string → result bytes;
  read_excel_buffer : bytes → dict → result dataframe;
  read_excel_url : string → dict → result dataframe
}.

(** What a call does to the outside, in order. *)
Inductive event :=
| EvGet (url : string)
| EvProgress (fraction : Q)
| EvReadCsvBuffer (kwargs : dict)
| EvReadCsvUrl (url : string) (kwargs : dict)
| EvUrlopen (url : string)
| EvReadExcelBuffer (kwargs : dict)
| EvReadExcelUrl (url : string) (kwargs : dict).

(** [str(n)] for a status code *)
Definition str_of_Z (n : Z) : string := pretty n.

(** [req.iter_content(chunk_size=chunk_size)]: the call itself rejects a
    chunk size that is neither [None] nor an integer. *)
Definition iter_content (req : response) (chunk_size : pyval)
    : result stream :=
  match chunk_size with
  | PyNone => Ok (body req None)
  | PyInt n => Ok (body req (Some n))
  | PyBool b => Ok (body req (Some (if b then 1 else 0)%Z))
  | _ => Raise TypeError
  end.

(** [progress + chunk_size] *)
Definition int_add (a : Z) (v : pyval) : result Z :=
  match v with
  | PyInt n => Ok (a + n)%Z
  | PyBool b => Ok (a + (if b then 1 else 0))%Z
  | _ => Raise TypeError
  end.

(** [progress/file_size]: the exact quotient. *)
Definition true_div (a b : Z) : result Q :=
  if (b =? 0)%Z then Raise ZeroDivisionError
  else Ok (inject_Z a / inject_Z b)%Q.

(** The loop [for chunk in req.iter_content(chunk_size=chunk_size)] of the
    progress branch: state is [(file, progress)], the fractions passed to
    [progress_function] are collected in order. *)
Fixpoint progress_loop (chunk_size : pyval) (file_size : Z)
    (cs : list bytes) (file : bytes) (progress : Z) (calls : list Q)
    : list Q * result bytes :=
  match cs with
  | [] => (calls, Ok file)
  | chunk :: cs' =>
      let file := file ++ chunk in
      match int_add progress chunk_size with
      | Raise e => (calls, Raise e)
      | Ok p =>
          let progress := Z.min p file_size in
          match true_div progress file_size with
          | Raise e => (calls, Raise e)
          | Ok q =>
              progress_loop chunk_size file_size cs' file progress
                (calls ++ [q])
          end
      end
  end.

(** After the chunks, the iterator raises the transport error, if any. *)
Definition end_of_stream (s : stream) (file : result bytes) : result bytes :=
  do f <- file;
  match stream_error s with
  | Some e => Raise e
  | None => Ok f
  end.

Definition download_file (w : world) (url : string)
    (encoding chunk_size timeout : pyval) (progress_function : bool)
    : list event * result buffer :=
  match requests_get w url timeout with
  | Raise e => ([EvGet url], Raise e)
  | Ok req =>
      if negb (status_code req =? 200)%Z
      then ([EvGet url],
            Raise (HTTPError ("HTTPError: " +:+ str_of_Z (status_code req))))
      else
        match int_of_header (content_length req) with
        | Raise e => ([EvGet url], Raise e)
        | Ok file_size =>
            let '(calls, file) :=
              if progress_function then
                match iter_content req chunk_size with
                | Raise e => ([], Raise e)
                | Ok s =>
                    let '(calls, file) :=
                      progress_loop chunk_size file_size (chunks s) [] 0 [] in
                    (calls, end_of_stream s file)
                end
              else
                let s := body req None in
                ([], end_of_stream s (Ok (concat (chunks s)))) in
            (EvGet url :: (EvProgress <$> calls),
             do file <- file;
             if truthy encoding then
               match encoding with
               | PyStr enc => do s <- decode w enc file; Ok (StringIO s)
               | _ => Raise TypeError
               end
             else Ok (BytesIO file))
        end
  end.

(** The default-argument dictionaries: each [def] creates its [{}] once,
    and every call that omits [param_dict] receives that same object. *)
Record defaults := Defaults {
  loadCsv_param_dict : dict;
  loadExcel_param_dict : dict
}.

(** The state of a process in which no loader has been called yet. *)
Definition fresh : defaults := Defaults ∅ ∅.

(** [for k in param_dict_default: if k not in param_dict:
      param_dict[k] = param_dict_default[k]] *)
Definition fill_defaults (param_dict_default : list (string * pyval))
    (param_dict : dict) : dict :=
  foldl (λ d kv, match d !! kv.1 with
                 | None => <[kv.1 := kv.2]> d
                 | Some _ => d
                 end) param_dict param_dict_default.

(** [param_dict["encoding"]] *)
Definition getitem (d : dict) (k : string) : pyval := default PyNone (d !! k).

(** What a loader call leaves behind and returns: the default-argument
    objects, the caller's dictionary (when one was passed), the events and
    the result. *)
Record outcome := Outcome {
  out_defaults : defaults;
  out_param_dict : option dict;
  out_events : list event;
  out_result : result dataframe
}.

(** [except OSError as err: raise FileNotFoundError(...) from err] *)
Definition not_found (url : string) (r : result dataframe)
    : result dataframe :=
  match r with
  | Raise e =>
      if is_OSError e
      then Raise (FileNotFoundError
                    ("ERROR: URL " +:+ url +:+ " could not be opened."))
      else Raise e
  | Ok df => Ok df
  end.

(** The body of [loadCsv] once [param_dict] is bound to a dictionary.
    [progress_indicator.Percentage] displays the fractions it is given;
    its [set_progress] is the progress function of the download.  The
    call passes its arguments by position: [1024] arrives as [encoding],
    [param_dict["encoding"]] as [chunk_size], [None] as [timeout]. *)
Definition loadCsv_body (w : world) (url : string) (param_dict : dict)
    : list event * result dataframe :=
  let '(ev, file) :=
    download_file w url (PyInt 1024) (getitem param_dict "encoding")
      PyNone true in
  let '(ev, inner) :=
    match file with
    | Ok f => (ev ++ [EvReadCsvBuffer param_dict],
               read_csv_buffer w f param_dict)
    | Raise e => (ev, Raise e)
    end in
  let '(ev, df) :=
    match inner with
    | Raise e =>
        if is_RequestException e
        then (ev ++ [EvReadCsvUrl url param_dict],
              read_csv_url w url param_dict)
        else (ev, Raise e)
    | Ok df => (ev, Ok df)
    end in
  (ev, not_found url df).

(** [loadCsv(targetFileName, apiUrl, extension, param_dict, encoding)];
    [param_dict = None] stands for a call that omits the argument. *)
Definition loadCsv (w : world) (targetFileName apiUrl extension : string)
    (param_dict : option dict) (encoding : pyval) (st : defaults)
    : outcome :=
  let url := apiUrl +:+ targetFileName +:+ extension in
  let param_dict_default :=
    [("sep", PyStr ","); ("header", PyInt 0); ("encoding", encoding);
     ("dtype", PyNone)] in
  let d := fill_defaults param_dict_default
             (default (loadCsv_param_dict st) param_dict) in
  let '(ev, r) := loadCsv_body w url d in
  match param_dict with
  | None => Outcome (Defaults d (loadExcel_param_dict st)) None ev r
  | Some _ => Outcome st (Some d) ev r
  end.

(** The [try] block of [loadExcel]. *)
Definition loadExcel_body (w : world) (url extension : string)
    (param_dict : dict) : list event * result dataframe :=
  if String.eqb extension ".zip" then
    match urlopen_read w url with
    | Raise e => ([EvUrlopen url], Raise e)
    | Ok z1 =>
        match zip_first_member w z1 with
        | Raise e => ([EvUrlopen url], Raise e)
        | Ok file_compressed =>
            match urlopen_read w url with
            | Raise e => ([EvUrlopen url; EvUrlopen url], Raise e)
            | Ok z2 =>
                match zip_open w z2 file_compressed with
                | Raise e => ([EvUrlopen url; EvUrlopen url], Raise e)
                | Ok f =>
                    ([EvUrlopen url; EvUrlopen url;
                      EvReadExcelBuffer param_dict],
                     read_excel_buffer w f param_dict)
                end
            end
        end
    end
  else ([EvReadExcelUrl url param_dict], read_excel_url w url param_dict).

Definition loadExcel (w : world) (targetFileName apiUrl extension : string)
    (param_dict : option dict) (st : defaults) : outcome :=
  let url := apiUrl +:+ targetFileName +:+ extension in
  let param_dict_default :=
    [("sheet_name", PyInt 0); ("header", PyInt 0);
     ("engine", PyStr "openpyxl")] in
  let d := fill_defaults param_dict_default
             (default (loadExcel_param_dict st) param_dict) in
  let '(ev, r) := loadExcel_body w url extension d in
  let r := not_found url r in
  match param_dict with
  | None => Outcome (Defaults (loadCsv_param_dict st) d) None ev r
  | Some _ => Outcome st (Some d) ev r
  end.

End Fetch.

(** ** The file system *)

Module FS.

(** A path is the list of its components below the working directory;
    [os.path.join(directory, name)] with a plain file or directory name
    appends one component. *)
Abbreviation path := (list string).

(** What a written file holds: the writer, its keyword arguments and the
    table. *)
Inductive content :=
| Json (kwargs : dict) (df : dataframe)
| Hdf (kwargs : dict) (df : dataframe)
| Csv (kwargs : dict) (df : dataframe).

Inductive node :=
| Dir
| File (c : content).

Abbreviation filesystem := (gmap path node).

(** [os.path.exists(p)] *)
Definition path_exists (fs : filesystem) (p : path) : bool :=
  match p with
  | [] => true
  | _ => bool_decide (is_Some (fs !! p))
  end.

(** [os.path.isdir(p)] *)
Definition is_dir (fs : filesystem) (p : path) : bool :=
  match p with
  | [] => true
  | _ => match fs !! p with Some Dir => true | _ => false end
  end.

(** [os.makedirs]: walks from the top, creates what is missing, fails on a
    component that is a regular file. *)
Fixpoint makedirs_from (pre rest : path) (fs : filesystem)
    : result filesystem :=
  match rest with
  | [] => Ok fs
  | c :: rest' =>
      let p := pre ++ [c] in
      match fs !! p with
      | Some Dir => makedirs_from p rest' fs
      | Some (File _) => Raise NotADirectoryError
      | None => makedirs_from p rest' (<[p := Dir]> fs)
      end
  end.

Definition makedirs (p : path) (fs : filesystem) : result filesystem :=
  if path_exists fs p then Raise FileExistsError
  else makedirs_from [] p fs.

(** Opening [directory/name] for writing and storing [c]. *)
Definition write_file (directory : path) (name : string) (c : content)
    (fs : filesystem) : result filesystem :=
  if negb (is_dir fs directory) then Raise NoSuchDirectory
  else
    match fs !! (directory ++ [name]) with
    | Some Dir => Raise IsADirectoryError
    | _ => Ok (<[directory ++ [name] := File c]> fs)
    end.

Definition child_name (d p : path) : option string :=
  match reverse p with
  | n :: rd => if bool_decide (reverse rd = d) then Some n else None
  | [] => None
  end.

Definition children (fs : filesystem) (d : path) : list string :=
  omap (child_name d) (map_to_list fs).*1.

(** [os.listdir(d)] *)
Definition listdir (fs : filesystem) (d : path) : result (list string) :=
  if is_dir fs d then Ok (children fs d)
  else if path_exists fs d then Raise NotADirectoryError
  else Raise (FileNotFoundError "No such file or directory").

(** [os.remove(p)] *)
Definition remove (p : path) (fs : filesystem) : result filesystem :=
  match fs !! p with
  | Some (File _) => Ok (delete p fs)
  | Some Dir => Raise IsADirectoryError
  | None => Raise (FileNotFoundError "No such file or directory")
  end.

(** [os.rmdir(p)] *)
Definition rmdir (p : path) (fs : filesystem) : result filesystem :=
  match fs !! p with
  | Some Dir =>
      match children fs p with
      | [] => Ok (delete p fs)
      | _ => Raise DirectoryNotEmpty
      end
  | Some (File _) => Raise NotADirectoryError
  | None => Raise (FileNotFoundError "No such file or directory")
  end.

(** The components of a path given as a string. *)
Fixpoint split_path (cur : string) (s : string) : path :=
  match s with
  | EmptyString => if String.eqb cur "" then [] else [cur]
  | String c s' =>
      if Ascii.eqb c "/"%char
      then (if String.eqb cur "" then [] else [cur]) ++ split_path "" s'
      else split_path (cur +:+ String c "") s'
  end.

Definition path_of_string (s : string) : path := split_path "" s.

(** [name.endswith('/')] *)
Fixpoint ends_in_sep (s : string) : bool :=
  match s with
  | EmptyString => false
  | String c EmptyString => Ascii.eqb c "/"%char
  | String _ s' => ends_in_sep s'
  end.

End FS.

(** ** Writer *)

Module Writer.
Import FS.

(** Modelled from the spec: [dd.EngEng['date']], the column name held by
    the dictionary [EngEng] of [defaultDict.py]; the module is not among
    the sources, the spec names the column [Date]. *)
Definition EngEng_date : string := "Date".

(** [check_dir(directory)] for a directory given by its components, that
    is, for a name that is not empty and is written without a separator
    at its end; [check_dir_str] below takes the name as a string. *)
Definition check_dir (directory : path) (fs : filesystem)
    : result filesystem :=
  if negb (path_exists fs directory) then makedirs directory fs
  else Ok fs.

(** [os.path.exists(name)] for a name given as a string: the empty string
    names nothing, and a name that ends in a separator names a directory
    or nothing. *)
Definition path_exists_str (fs : filesystem) (name : string) : bool :=
  if String.eqb name "" then false
  else if ends_in_sep name then is_dir fs (path_of_string name)
  else path_exists fs (path_of_string name).

(** [os.makedirs(name)] for a name given as a string. *)
Definition makedirs_str (name : string) (fs : filesystem)
    : result filesystem :=
  if String.eqb name ""
  then Raise (FileNotFoundError "No such file or directory")
  else makedirs (path_of_string name) fs.

(** [check_dir(directory)] on the string that the caller passes. *)
Definition check_dir_str (directory : string) (fs : filesystem)
    : result filesystem :=
  if negb (path_exists_str fs directory) then makedirs_str directory fs
  else Ok fs.

Definition digit (n : nat) : ascii := ascii_of_nat (48 + n mod 10).

Definition pad2 (n : nat) : string :=
  String (digit (n / 10)) (String (digit n) "").

Definition pad4 (n : nat) : string :=
  String (digit (n / 1000)) (String (digit (n / 100)) (pad2 n)).

(** [strftime('%Y-%m-%d')] on one Timestamp *)
Definition strftime_Ymd (d : datetime) : string :=
  pad4 (year d) +:+ "-" +:+ pad2 (month d) +:+ "-" +:+ pad2 (day d).

(** [isinstance(df.Date.values[0], type("string"))]; an empty column has
    no element 0. *)
Definition first_is_str (s : series) : result bool :=
  match s with
  | Object (v :: _) => Ok (is_str v)
  | Datetime64 (_ :: _) | Int64 (_ :: _) => Ok false
  | _ => Raise IndexError
  end.

(** [df.Date.dt.strftime('%Y-%m-%d')]: the accessor [.dt] exists on
    datetime-typed columns only; a missing Timestamp formats to NaN. *)
Definition dt_strftime (s : series) : result series :=
  match s with
  | Datetime64 vals =>
      Ok (Object ((λ o, match o with
                        | Some d => PyStr (strftime_Ymd d)
                        | None => PyNaN
                        end) <$> vals))
  | _ => Raise (AttributeError
                  "Can only use .dt accessor with datetimelike values")
  end.

(** The date coercion on the column itself. *)
Definition coerce_dates (s : series) : result series :=
  do b <- first_is_str s;
  if b then Ok s else dt_strftime s.

(** Lines 396-398 of [write_dataframe]:
    [if dd.EngEng['date'] in df.columns:
       if not isinstance(df.Date.values[0], type("string")):
         df.Date = df.Date.dt.strftime('%Y-%m-%d')] *)
Definition coerce_date_column (df : dataframe) : result dataframe :=
  match column EngEng_date df with
  | None => Ok df
  | Some _ =>
      match column "Date" df with
      | None => Raise (AttributeError "'DataFrame' object has no attribute 'Date'")
      | Some s =>
          do s' <- coerce_dates s;
          Ok (set_column "Date" s' df)
      end
  end.

(** The table [outForm]: file ending and writer options per format. *)
Definition outForm (param_dict : dict) : list (string * (string * dict)) :=
  [("json", (".json", {["orient" := PyStr "records"]}));
   ("json_timeasstring", (".json", {["orient" := PyStr "records"]}));
   ("hdf5", (".h5", {["key" := PyStr "data"]}));
   ("txt", (".txt", param_dict))].

Fixpoint assoc {A} (k : string) (l : list (string * A)) : option A :=
  match l with
  | [] => None
  | (k', v) :: l' => if String.eqb k' k then Some v else assoc k l'
  end.

Definition unsupported_format (file_type : string) : exn :=
  ValueError ("Error: The file format: " +:+ file_type +:+
              " does not exist. Use json, json_timeasstring, hdf5 or txt.").

(** What a call of [write_dataframe] leaves: the file system, the table
    object of the caller (the coercion assigns to its column) and the
    result. *)
Record written := Written {
  w_fs : filesystem;
  w_df : dataframe;
  w_result : result ()
}.

Definition finish (fs : filesystem) (df : dataframe)
    (r : result filesystem) : written :=
  match r with
  | Ok fs' => Written fs' df (Ok ())
  | Raise e => Written fs df (Raise e)
  end.

Definition write_dataframe (df : dataframe) (directory : path)
    (file_prefix file_type : string) (param_dict : dict)
    (fs : filesystem) : written :=
  match assoc file_type (outForm param_dict) with
  | None => Written fs df (Raise (unsupported_format file_type))
  | Some (outFormEnd, outFormSpec) =>
      let name := file_prefix +:+ outFormEnd in
      if String.eqb file_type "json" then
        finish fs df (write_file directory name (Json outFormSpec df) fs)
      else if String.eqb file_type "json_timeasstring" then
        match coerce_date_column df with
        | Raise e => Written fs df (Raise e)
        | Ok df' =>
            finish fs df'
              (write_file directory name (Json outFormSpec df') fs)
        end
      else if String.eqb file_type "hdf5" then
        finish fs df (write_file directory name (Hdf outFormSpec df) fs)
      else if String.eqb file_type "txt" then
        finish fs df (write_file directory name (Csv outFormSpec df) fs)
      else Written fs df (Ok ())
  end.

End Writer.

(** ** Cleanup *)

Module Cleanup.
Import FS.

(** [sub in s] *)
Fixpoint contains (sub s : string) : bool :=
  String.prefix sub s ||
  match s with
  | EmptyString => false
  | String _ s' => contains sub s'
  end.

(** [s.endswith(suf)] *)
Definition endswith (s suf : string) : bool :=
  let n := String.length s in
  let m := String.length suf in
  (m <=? n) && String.eqb (substring (n - m) m s) suf.

(** A step on the file system that may raise. *)
Definition step := filesystem → filesystem * result ().

(** Sequencing: the first exception stops the run. *)
Fixpoint run (steps : list step) (fs : filesystem)
    : filesystem * result () :=
  match steps with
  | [] => (fs, Ok ())
  | s :: steps' =>
      match s fs with
      | (fs', Ok _) => run steps' fs'
      | (fs', Raise e) => (fs', Raise e)
      end
  end.

(** [for item in files: if selected(item): os.remove(join(directory, item))] *)
Fixpoint remove_selected (selected : string → bool) (directory : path)
    (files : list string) : step := λ fs,
  match files with
  | [] => (fs, Ok ())
  | item :: files' =>
      if selected item then
        match remove (directory ++ [item]) fs with
        | Ok fs' => remove_selected selected directory files' fs'
        | Raise e => (fs, Raise e)
        end
      else remove_selected selected directory files' fs
  end.

Definition is_FileNotFoundError (e : exn) : bool :=
  match e with
  | FileNotFoundError _ => true
  | _ => false
  end.

(** [try: files = os.listdir(directory) except FileNotFoundError: ...],
    with no files when the directory is missing. *)
Definition list_or_nothing (directory : path) (fs : filesystem)
    : result (list string) :=
  match listdir fs directory with
  | Raise e => if is_FileNotFoundError e then Ok [] else Raise e
  | Ok files => Ok files
  end.

(** [try: os.rmdir(directory) except OSError: pass] *)
Definition rmdir_if_empty (directory : path) : step := λ fs,
  match rmdir directory fs with
  | Ok fs' => (fs', Ok ())
  | Raise e => (fs, if is_OSError e then Ok () else Raise e)
  end.

(** Delete the selected files of a directory. *)
Definition clean_files (selected : string → bool) (directory : path)
    : step := λ fs,
  match list_or_nothing directory fs with
  | Raise e => (fs, Raise e)
  | Ok files => remove_selected selected directory files fs
  end.

(** Delete the selected files of a country directory, then the directory
    if it is empty.  On a missing directory the loops over [directories]
    [continue] and the single-directory branches run [os.rmdir] into the
    caught [OSError]: neither changes the file system. *)
Definition clean_directory (selected : string → bool) (directory : path)
    : step := λ fs,
  run [clean_files selected directory; rmdir_if_empty directory] fs.

Definition directories : list string :=
  ["Germany"; "Spain"; "France"; "Italy"; "US"; "SouthKorea"; "China"].

Definition clean_data (all_data rki john_hopkins spain population hdf5 : pyval)
    (out_path : path) : step :=
  let ending := if truthy hdf5 then "h5" else "json" in
  if truthy all_data then
    run (((λ cdir,
            clean_directory
              (λ item, endswith item ".json" || endswith item ".h5")
              (out_path ++ [cdir])) <$> directories)
         ++ [clean_files
               (λ item, endswith item ".json" || endswith item ".h5")
               out_path])
  else if truthy rki || truthy john_hopkins || truthy spain
          || truthy population then
    run [ (if truthy rki then
             clean_directory
               (λ item, endswith item ending &&
                        (contains "_rki" item || contains "RKI" item))
               (out_path ++ ["Germany"])
           else λ fs, (fs, Ok ()));
          (if truthy population then
             clean_directory
               (λ item, endswith item ending &&
                        (contains "Popul" item || contains "FullDataB" item
                         || contains "FullDataL" item))
               (out_path ++ ["Germany"])
           else λ fs, (fs, Ok ()));
          (if truthy spain then
             clean_directory
               (λ item, endswith item ending && contains "spain" item)
               (out_path ++ ["Spain"])
           else λ fs, (fs, Ok ()));
          (if truthy john_hopkins then
             run (((λ cdir,
                     clean_directory
                       (λ item, endswith item ending && contains "_jh" item)
                       (out_path ++ [cdir])) <$> directories)
                  ++ [clean_files
                        (λ item, endswith item ending &&
                                 (contains "_jh" item
                                  || contains "JohnHopkins" item))
                        out_path])
           else λ fs, (fs, Ok ())) ]
  else λ fs, (fs, Ok ()).

(** *** The command line *)

Inductive action :=
| StoreTrue
| Store (default : pyval).

(** One call of [parser.add_argument] with its option strings. *)
Record argument := Argument {
  option_strings : list string;
  act : action
}.

(** [s.lstrip('-')] *)
Fixpoint lstrip_dash (s : string) : string :=
  match s with
  | String c s' => if Ascii.eqb c "-"%char then lstrip_dash s' else s
  | EmptyString => EmptyString
  end.

(** [s.replace('-', '_')] *)
Fixpoint dash_to_underscore (s : string) : string :=
  match s with
  | String c s' =>
      String (if Ascii.eqb c "-"%char then "_"%char else c)
             (dash_to_underscore s')
  | EmptyString => EmptyString
  end.

(** The attribute name argparse derives for an optional argument: the
    first long option string, else the first option string, without the
    leading dashes and with [-] replaced by [_]. *)
Definition dest (a : argument) : string :=
  let long := filter (λ s, String.prefix "--" s = true) (option_strings a) in
  let chosen := match long with
                | l :: _ => l
                | [] => hd "" (option_strings a)
                end in
  dash_to_underscore (lstrip_dash chosen).

Definition default_of (a : argument) : pyval :=
  match act a with
  | StoreTrue => PyBool false
  | Store d => d
  end.

(** The namespace before any token is read: one attribute per argument,
    set to its default. *)
Definition initial_namespace (args : list argument) : dict :=
  foldl (λ ns a, match ns !! dest a with
                 | None => <[dest a := default_of a]> ns
                 | Some _ => ns
                 end) ∅ args.

(** How argparse matches the tokens of the command line against the
    option strings (abbreviations, joined short flags, [--opt=value]) is
    the library's business: [matcher] returns the arguments that fire, by
    position, with the value each stores, or the exit of the parser. *)
Definition matcher := list argument → list string → result (list (nat * pyval)).

(** [parser.parse_args()]: every value is stored under the [dest] of the
    argument that fired. *)
Definition parse_args (m : matcher) (args : list argument)
    (argv : list string) : result dict :=
  do fired <- m args argv;
  Ok (foldl (λ ns f, match args !! f.1 with
                     | Some a => <[dest a := f.2]> ns
                     | None => ns
                     end) (initial_namespace args) fired).

(** A matcher for command lines that spell every option string in full,
    one token per flag and the value of [-o] in the next token. *)
Fixpoint find_option (tok : string) (i : nat) (args : list argument)
    : option (nat * argument) :=
  match args with
  | [] => None
  | a :: args' =>
      if bool_decide (tok ∈ option_strings a) then Some (i, a)
      else find_option tok (S i) args'
  end.

Fixpoint exact_matcher_aux (fuel : nat) (args : list argument)
    (argv : list string) : result (list (nat * pyval)) :=
  match fuel, argv with
  | _, [] => Ok []
  | 0, _ => Ok []
  | S fuel', tok :: argv' =>
      if bool_decide (tok ∈ ["-h"; "--help"]) then Raise (SystemExit 0)
      else
        match find_option tok 0 args with
        | None => Raise (SystemExit 2)
        | Some (i, a) =>
            match act a, argv' with
            | StoreTrue, _ =>
                do rest <- exact_matcher_aux fuel' args argv';
                Ok ((i, PyBool true) :: rest)
            | Store _, v :: argv'' =>
                do rest <- exact_matcher_aux fuel' args argv'';
                Ok ((i, PyStr v) :: rest)
            | Store _, [] => Raise (SystemExit 2)
            end
        end
  end.

Definition exact_matcher : matcher :=
  λ args argv, exact_matcher_aux (length argv) args argv.

(** [args.name] *)
Definition getattr (ns : dict) (name : string) : result pyval :=
  match ns !! name with
  | Some v => Ok v
  | None => Raise (AttributeError
                     ("'Namespace' object has no attribute '" +:+ name +:+ "'"))
  end.

(** The arguments that [cli] adds to its parser; [out_path_default] is
    [dd.defaultDict['out_folder']]. *)
Definition cli_arguments (out_path_default : string) : list argument :=
  [ Argument ["-a"; "--all"] StoreTrue;
    Argument ["-r"; "--rki"] StoreTrue;
    Argument ["-j"; "--john-hopkins"] StoreTrue;
    Argument ["-s"; "--spain"] StoreTrue;
    Argument ["-p"; "--population"] StoreTrue;
    Argument ["-h5"; "--hdf5"] StoreTrue;
    Argument ["-o"; "--out_path"] (Store (PyStr out_path_default)) ].

Definition cli (m : matcher) (out_path_default : string)
    (argv : list string) : result (list pyval) :=
  do args <- parse_args m (cli_arguments out_path_default) argv;
  do all_data <- getattr args "all_data";
  do rki <- getattr args "rki";
  do john_hopkins <- getattr args "john_hopkins";
  do spain <- getattr args "spain";
  do population <- getattr args "population";
  do hdf5 <- getattr args "hdf5";
  do out_path <- getattr args "out_path";
  Ok [all_data; rki; john_hopkins; spain; population; hdf5; out_path].

Definition main (m : matcher) (out_path_default : string)
    (argv : list string) : step := λ fs,
  match cli m out_path_default argv with
  | Raise e => (fs, Raise e)
  | Ok [all_data; rki; john_hopkins; spain; population; hdf5; PyStr out_path] =>
      clean_data all_data rki john_hopkins spain population hdf5
        (path_of_string out_path) fs
  | Ok _ => (fs, Raise TypeError)
  end.

End Cleanup.

(** ** File names *)

Module Names.

(** [append_filename(filename, impute_dates, moving_average)] *)
Definition append_filename (filename : string) (impute_dates : pyval)
    (moving_average : Z) : string :=
  if (0 <? moving_average)%Z
  then (filename +:+ "_ma") +:+ Fetch.str_of_Z moving_average
  else if truthy impute_dates then filename +:+ "_all_dates"
  else filename.

End Names.

(** ** The command line of the download packages *)

Module Cli.
Import FS Writer Cleanup.

(** The entries of [dd.defaultDict] that [cli] reads. *)
Record default_dict := DefaultDict {
  out_folder : string;
  file_format : pyval;
  no_raw : pyval;
  start_date : pyval;
  end_date : pyval
}.

(** [cli_dict]: per package its message and the names of its special
    arguments. *)
Definition cli_dict : list (string * list string) :=
  [("divi", ["Downloads data from DIVI"; "start_date"; "end_date";
             "impute_dates"; "moving_average"; "make_plot"]);
   ("cases", ["Download case data from RKI"; "start_date"; "end_date";
              "impute_dates"; "moving_average"; "make_plot"; "split_berlin";
              "rep_date"]);
   ("cases_est",
    ["Download case data from RKI and JHU and estimate recovered and deaths";
     "start_date"; "end_date"; "impute_dates"; "moving_average"; "make_plot";
     "split_berlin"; "rep_date"]);
   ("population", ["Download population data from official sources"]);
   ("commuter_official", ["Download commuter data from official sources";
                          "make_plot"]);
   ("vaccination", ["Download vaccination data"; "start_date"; "end_date";
                    "impute_dates"; "moving_average"; "make_plot";
                    "sanitize_data"]);
   ("testing", ["Download testing data"; "start_date"; "end_date";
                "impute_dates"; "moving_average"; "make_plot"]);
   ("jh", ["Downloads data from Johns Hopkins University"; "start_date";
           "end_date"; "impute_dates"; "moving_average"; "make_plot"]);
   ("hospitalization", ["Download hospitalization data"; "start_date";
                        "end_date"; "impute_dates"; "moving_average";
                        "make_plot"]);
   ("sim", ["Download all data needed for simulations"; "start_date";
            "end_date"; "impute_dates"; "moving_average"; "make_plot";
            "split_berlin"; "rep_date"; "sanitize_data"])].

(** [if name in what_list: parser.add_argument(...)] *)
Definition optional (name : string) (what_list : list string)
    (a : argument) : list argument :=
  if bool_decide (name ∈ what_list) then [a] else [].

(** The arguments added to the parser, in order.  The [action] of an
    argument gives the default of its attribute: [--no-raw] is a
    [store_true] flag with the default [dd.defaultDict['no_raw']], which
    [Store] carries here.  The converters of [type=] and the [choices]
    act when a token is matched, which is the business of the matcher. *)
Definition cli_arguments (dd : default_dict) (what_list : list string)
    : list argument :=
  [ Argument ["-r"; "--read-data"] StoreTrue;
    Argument ["-f"; "--file-format"] (Store (file_format dd));
    Argument ["-o"; "--out-folder"] (Store (PyStr (out_folder dd)));
    Argument ["-n"; "--no-raw"] (Store (no_raw dd)) ]
  ++ optional "start_date" what_list
       (Argument ["-s"; "--start-date"] (Store (start_date dd)))
  ++ optional "end_date" what_list
       (Argument ["-e"; "--end-date"] (Store (end_date dd)))
  ++ optional "impute_dates" what_list
       (Argument ["-i"; "--impute-dates"] StoreTrue)
  ++ optional "moving_average" what_list
       (Argument ["-m"; "--moving-average"] (Store (PyInt 0)))
  ++ optional "make_plot" what_list
       (Argument ["-p"; "--make-plot"] StoreTrue)
  ++ optional "split_berlin" what_list
       (Argument ["-b"; "--split-berlin"] StoreTrue)
  ++ optional "rep_date" what_list
       (Argument ["--rep-date"] StoreTrue)
  ++ optional "sanitize_data" what_list
       (Argument ["-sd"; "--sanitize_data"] (Store (PyInt 1))).

(** [cli(what)]: the dictionary [vars(args)], and the file system after
    [check_dir(out_path_default)]. *)
Definition cli (m : matcher) (dd : default_dict) (what : string)
    (argv : list string) (fs : filesystem) : filesystem * result dict :=
  match assoc what cli_dict with
  | None => (fs, Raise (ValueError "Wrong key or cli_dict."))
  | Some what_list =>
      match check_dir_str (out_folder dd) fs with
      | Raise e => (fs, Raise e)
      | Ok fs' => (fs', parse_args m (cli_arguments dd what_list) argv)
      end
  end.

End Cli.

(** ** Assembling the census array (lines 151-176 of
    [get_age_population_data]) *)

Module Census.
Import Counties.

(** A row of [reg_key]: [reg_name] is [reg_key['NAME'].values.astype(str)[j]],
    [reg_ewz] is [round(reg_key['Zensus_EWZ'].values[j]*1000)] and
    [reg_ags] is [reg_key['AGS'].values[j]]; the two figures are taken to
    be numbers in every row. *)
Record reg_row := RegRow {
  reg_name : string;
  reg_ewz : Z;
  reg_ags : Z
}.

(** A row of [zensus]: name, [EWZ], and the eleven male and the eleven
    female age columns in the order of the lists [male] and [female]. *)
Record zensus_row := ZensusRow {
  z_name : string;
  z_ewz : Z;
  z_male : list Z;
  z_female : list Z
}.

(** [key[i]] after the loop over [reg_key]: the [AGS] of the last row with
    the name and the population of the census row, zero without one. *)
Definition key_of (reg_key : list reg_row) (z : zensus_row) : Z :=
  fold_left (λ k r, if String.eqb (z_name z) (reg_name r)
                       && (z_ewz z =? reg_ewz r)%Z
                    then reg_ags r else k) reg_key 0%Z.

(** The index of the first occurrence of [k]. *)
Definition first_index (k : Z) (key : list Z) : nat :=
  default 0 (fst <$> list_find (λ x, x = k) key).

(** [np.unique(key, return_index=True)]: the distinct values in ascending
    order, each with the index of its first occurrence. *)
Definition np_unique (key : list Z) : list Z * list nat :=
  let unique := merge_sort Z.le (remove_dups key) in
  (unique, (λ k, first_index k key) <$> unique).

(** The row of [data] taken from the census row of index [i]. *)
Definition data_row (key : list Z) (zensus : list zensus_row) (i : nat)
    : row :=
  match key !! i, zensus !! i with
  | Some k, Some z => k :: z_ewz z :: zip_with Z.add (z_male z) (z_female z)
  | _, _ => []
  end.

(** The array [data] before [get_new_counties]. *)
Definition assemble (reg_key : list reg_row) (zensus : list zensus_row)
    : ndarray :=
  let key := key_of reg_key <$> zensus in
  let inds := (np_unique key).2 in
  NdArray 13 (data_row key zensus <$> inds).

End Census.

(** ** GeoJSON loader *)

Module Geo.
Import Fetch.

(** [s[n:]] *)
Fixpoint string_drop (n : nat) (s : string) : string :=
  match n, s with
  | 0, _ => s
  | S n', String _ s' => string_drop n' s'
  | S _, EmptyString => EmptyString
  end.

(** [df.drop(columns=labels)]: every label has to be a column; the
    [KeyError] of pandas is a [LookupError]. *)
Definition drop_columns (labels : list string) (df : dataframe)
    : result dataframe :=
  if bool_decide (Forall (λ l, l ∈ df.*1) labels)
  then Ok (filter (λ c, c.1 ∉ labels) df)
  else Raise LookupError.

(** [df.rename(columns=f)] *)
Definition rename_columns (f : string → string) (df : dataframe)
    : dataframe :=
  (λ c, (f c.1, c.2)) <$> df.

Section loadGeojson.

(** Parsed JSON, [json.loads] and [pd.json_normalize(data, 'features')]. *)
Context {J : Type}.
Variable json_loads : string → result J.
Variable json_normalize_features : J → result dataframe.

(** [loadGeojson(targetFileName, apiUrl, extension)] *)
Definition loadGeojson (w : world) (targetFileName apiUrl extension : string)
    : result dataframe :=
  let url := apiUrl +:+ targetFileName +:+ "." +:+ extension in
  let data := do b <- urlopen_read w url;
              do s <- decode w "utf-8" b;
              json_loads s in
  match data with
  | Raise e =>
      if is_OSError e
      then Raise (FileNotFoundError
                    ("ERROR: URL " +:+ url +:+ " could not be opened."))
      else Raise e
  | Ok data =>
      do df <- json_normalize_features data;
      do df <- drop_columns ["type"; "geometry"] df;
      Ok (rename_columns (string_drop 11) df)
  end.

End loadGeojson.

End Geo.

(** ** Population data of the states ([get_population_data],
    [get_one_data_set]) *)

Module Population.
Import FS Writer.

(** [os.path.join(a, b)] *)
Definition path_join (a b : string) : string :=
  if String.prefix "/" b then b
  else if String.eqb a "" || ends_in_sep a then a +:+ b
  else a +:+ "/" +:+ b.

Record Data := MkData {
  filename : string;
  item : string;
  columns_wanted : list string;
  filename_out : string
}.

(** What a call of [gd.write_dataframe] leaves: the state, the table
    object of the caller and the result. *)
Record wrote (S : Type) := Wrote {
  wr_state : S;
  wr_df : dataframe;
  wr_result : result ()
}.
Arguments Wrote {S} _ _ _.
Arguments wr_state {S} _.
Arguments wr_df {S} _.
Arguments wr_result {S} _.

(** The module [gd] is imported from
    [epidemiology.epidata.getDataIntoPandasDataFrame], which is not among
    the sources.  Its functions are therefore left open: each acts on the
    state [S] of everything outside the program (file system, network,
    the objects of the module) and returns or raises.  They take the
    arguments that the calls below pass; the others keep their
    defaults. *)
Record gd_module (S : Type) := Gd {
  gd_loadCsv : string → S → S * result dataframe;
  gd_check_dir : string → S → S * result ();
  gd_write_dataframe : dataframe → string → string → string → S → wrote S
}.
Arguments gd_loadCsv {S} _ _ _.
Arguments gd_check_dir {S} _ _ _.
Arguments gd_write_dataframe {S} _ _ _ _ _ _.

(** What else comes from outside: [pandas.read_json] on a file name and
    the dictionary [dd.GerEng]. *)
Record env (S : Type) := Env {
  gd : gd_module S;
  read_json : string → S → result dataframe;
  GerEng : list (string * string)
}.
Arguments gd {S} _.
Arguments read_json {S} _ _ _.
Arguments GerEng {S} _.

(** [df[columns]]: a missing label raises [KeyError], a [LookupError]. *)
Definition select (columns : list string) (df : dataframe)
    : result dataframe :=
  for_each (λ c, match column c df with
                 | Some s => Ok (c, s)
                 | None => Raise LookupError
                 end) columns.

(** [df.rename(columns=mapping)] *)
Definition rename (mapping : list (string * string)) (df : dataframe)
    : dataframe :=
  (λ c, (default c.1 (assoc c.1 mapping), c.2)) <$> df.

Section run.
Context {S : Type} (E : env S).

(** [get_one_data_set(read_data, out_form, directory, d)].  [sys.exit]
    with a message exits with status 1. *)
Definition get_one_data_set (read_data : pyval) (out_form : string)
    (directory : string) (d : Data) (s : S) : S * result () :=
  let '(s1, df) :=
    if truthy read_data then
      let file := path_join directory (filename d +:+ ".json") in
      match read_json E file s with
      | Ok df => (s, Ok df)
      | Raise (ValueError _) => (s, Raise (SystemExit 1))
      | Raise e => (s, Raise e)
      end
    else
      match gd_loadCsv (gd E) (item d) s with
      | (s', Raise e) => (s', Raise e)
      | (s', Ok df) =>
          let w := gd_write_dataframe (gd E) df directory (filename d)
                     "json" s' in
          (wr_state w,
           match wr_result w with
           | Ok _ => Ok (wr_df w)
           | Raise e => Raise e
           end)
      end in
  match df with
  | Raise e => (s1, Raise e)
  | Ok df =>
      match select (columns_wanted d) df with
      | Raise e => (s1, Raise e)
      | Ok dfo =>
          let w := gd_write_dataframe (gd E) (rename (GerEng E) dfo)
                     directory (filename_out d) out_form s1 in
          (wr_state w, wr_result w)
      end
  end.

(** [for i in range(len(d)): get_one_data_set(..., d[i])] *)
Fixpoint data_sets (read_data : pyval) (out_form : string)
    (directory : string) (d : list Data) (s : S) : S * result () :=
  match d with
  | [] => (s, Ok ())
  | di :: d' =>
      match get_one_data_set read_data out_form directory di s with
      | (s', Raise e) => (s', Raise e)
      | (s', Ok _) => data_sets read_data out_form directory d' s'
      end
  end.

End run.

Definition d1 : Data :=
  MkData "FullDataB" "5dc2fc92850241c3be3d704aa0945d9c_2"
         ["LAN_ew_RS"; "LAN_ew_GEN"; "LAN_ew_EWZ"] "PopulStates".

Definition d2 : Data :=
  MkData "FullDataL" "b2e6d8854d9744ca88144d30bef06a76_1"
         ["RS"; "GEN"; "EWZ"] "PopulCounties".

(** [get_population_data(read_data, out_form, out_folder)] *)
Definition get_population_data {S} (E : env S) (read_data : pyval)
    (out_form : string) (out_folder : string) (s : S) : S * result () :=
  let d := [d1] in
  let directory := path_join out_folder "Germany/" in
  match gd_check_dir (gd E) directory s with
  | (s1, Raise e) => (s1, Raise e)
  | (s1, Ok _) => data_sets E read_data out_form directory d s1
  end.

End Population.

(** * Properties *)

(** ** [get_new_counties] *)

Module CountiesFacts.
Import Counties.

Definition is_pred (r : row) : Prop := row_key r ∈ predecessor_keys.

(** The rows appended for the new regions, before the loop. *)
Definition successor_rows (n : nat) : list row :=
  (λ k, k :: replicate (n - 1) 0%Z) <$> successor_keys.

(** What one row [r] of the input adds to the seven appended rows. *)
Definition acc_rows (T : list row) (r : row) : list row :=
  fold_left (λ T f, if bool_decide (row_key r ∈ f.2)
                    then alter (add_brackets r) (7 - f.1) T else T)
            fusions T.

(** What the row [r] at index [i] appends to [to_delete]. *)
Definition acc_del (i : nat) (r : row) : list nat :=
  flat_map (λ f : nat * list Z,
              if bool_decide (row_key r ∈ f.2) then [i] else []) fusions.

Fixpoint dels (i : nat) (d : list row) : list nat :=
  match d with
  | [] => []
  | r :: d' => acc_del i r ++ dels (S i) d'
  end.

Lemma alter_from_end {A} (f : A → A) (k : nat) (l T : list A) :
  length T = 7 → k ≤ 7 →
  alter f (length (l ++ T) - k) (l ++ T) = l ++ alter f (7 - k) T.
Proof.
  intros HS Hk. rewrite length_app, HS.
  replace (length l + 7 - k) with (length l + (7 - k)) by lia.
  apply alter_app_r.
Qed.

Lemma set_keys_append (m : ndarray) :
  ncols m ≠ 0 →
  set_key 1 13076 (set_key 2 13075 (set_key 3 13074 (set_key 4 13073
    (set_key 5 13072 (set_key 6 13071 (set_key 7 3159 (append_zeros m)))))))
  = rows m ++ successor_rows (ncols m).
Proof.
  intros Hn. unfold append_zeros, set_key.
  destruct (ncols m) as [|n]; [done|].
  repeat (rewrite alter_from_end by (simpl; lia); simpl).
  unfold successor_rows. simpl. by rewrite Nat.sub_0_r.
Qed.

Lemma row_key_add_brackets (src dst : row) :
  row_key (add_brackets src dst) = row_key dst.
Proof. by destruct dst. Qed.

Lemma length_add_brackets (src dst : row) :
  length src = length dst → length (add_brackets src dst) = length dst.
Proof.
  destruct dst as [|k t], src as [|k' t']; simpl; try done.
  intros [= H]. by rewrite length_zip_with, H, Nat.min_id.
Qed.

Lemma keys_alter_add (r : row) (j : nat) (T : list row) :
  keys (alter (add_brackets r) j T) = keys T.
Proof.
  unfold keys. revert j. induction T as [|x T IH]; intros [|j]; simpl; try done.
  - by rewrite row_key_add_brackets.
  - f_equal. apply IH.
Qed.

Lemma acc_rows_inv (T : list row) (r : row) :
  length (acc_rows T r) = length T ∧ keys (acc_rows T r) = keys T.
Proof.
  unfold acc_rows. generalize fusions. intros fs. revert T.
  induction fs as [|f fs IH]; intros T; simpl; [done|].
  destruct (IH (if bool_decide (row_key r ∈ f.2)
                then alter (add_brackets r) (7 - f.1) T else T)) as [-> ->].
  case_bool_decide; [|done].
  by rewrite length_alter, keys_alter_add.
Qed.

Lemma fold_acc_rows_inv (d T : list row) :
  length (fold_left acc_rows d T) = length T
  ∧ keys (fold_left acc_rows d T) = keys T.
Proof.
  revert T. induction d as [|r d IH]; intros T; simpl; [done|].
  destruct (IH (acc_rows T r)) as [-> ->]. apply acc_rows_inv.
Qed.

Lemma loop_body_row (l T : list row) (del : list nat) (i : nat) (r : row) :
  length T = 7 → l !! i = Some r →
  loop_body (l ++ T, del) i = (l ++ acc_rows T r, del ++ acc_del i r).
Proof.
  unfold loop_body, acc_rows, acc_del.
  assert (Hf : Forall (λ f : nat * list Z, f.1 ≤ 7) fusions).
  { repeat constructor; simpl; lia. }
  revert Hf. generalize fusions. intros fs Hf HS Hi. revert T del HS.
  induction Hf as [|f fs Hf1 Hf IH]; intros T del HS; simpl.
  { by rewrite app_nil_r. }
  unfold fuse_step at 2. simpl.
  rewrite (lookup_app_l_Some _ _ _ _ Hi).
  case_bool_decide.
  - rewrite alter_from_end by done.
    rewrite IH by (by rewrite length_alter). by rewrite <- app_assoc.
  - by rewrite IH.
Qed.

Lemma loop_prefix (suf pre T : list row) (del : list nat) :
  length T = 7 →
  fold_left loop_body (seq (length pre) (length suf)) (pre ++ suf ++ T, del)
  = (pre ++ suf ++ fold_left acc_rows suf T, del ++ dels (length pre) suf).
Proof.
  revert pre T del. induction suf as [|r suf IH]; intros pre T del HS; simpl.
  { by rewrite app_nil_r. }
  replace (pre ++ r :: suf ++ T) with ((pre ++ r :: suf) ++ T)
    by (by rewrite <- app_assoc).
  rewrite (loop_body_row _ _ _ _ r HS) by (by apply list_lookup_middle).
  replace ((pre ++ r :: suf) ++ acc_rows T r)
    with ((pre ++ [r]) ++ suf ++ acc_rows T r)
    by (by rewrite <- !app_assoc).
  replace (S (length pre)) with (length (pre ++ [r]))
    by (rewrite length_app; simpl; lia).
  rewrite IH by (by destruct (acc_rows_inv T r) as [-> _]).
  by rewrite <- !app_assoc.
Qed.


Lemma successors_not_predecessors :
  Forall (λ k, k ∉ predecessor_keys) successor_keys.
Proof. by apply (bool_decide_unpack _). Qed.

Lemma pred_in_fusion (k : Z) :
  k ∈ predecessor_keys ↔ Exists (λ f : nat * list Z, k ∈ f.2) fusions.
Proof.
  unfold predecessor_keys. generalize fusions. intros fs.
  induction fs as [|f fs IH]; simpl.
  - by rewrite Exists_nil, elem_of_nil.
  - rewrite Exists_cons, elem_of_app, IH. done.
Qed.

Lemma loop_body_other (d : list row) (del : list nat) (i : nat) (r : row) :
  d !! i = Some r → ¬ is_pred r → loop_body (d, del) i = (d, del).
Proof.
  unfold loop_body, is_pred. rewrite pred_in_fusion.
  generalize fusions. intros fs Hi.
  induction fs as [|f fs IH]; intros Hr; simpl; [done|].
  rewrite Exists_cons in Hr.
  unfold fuse_step at 2. simpl. rewrite Hi.
  rewrite bool_decide_eq_false_2 by tauto. apply IH. tauto.
Qed.

Lemma loop_others (d : list row) (del : list nat) (idxs : list nat) :
  Forall (λ i, ∃ r, d !! i = Some r ∧ ¬ is_pred r) idxs →
  fold_left loop_body idxs (d, del) = (d, del).
Proof.
  induction 1 as [|i idxs (r & Hi & Hr) _ IH]; simpl; [done|].
  by rewrite (loop_body_other _ _ _ r).
Qed.

Lemma keys_not_pred (T : list row) :
  keys T = successor_keys → Forall (λ r, ¬ is_pred r) T.
Proof.
  intros HT. pose proof successors_not_predecessors as H.
  rewrite <- HT in H. unfold keys in H. by rewrite Forall_fmap in H.
Qed.

(** The loop of [get_new_counties] on [rows ++ T], [T] the appended rows. *)
Lemma loop_spec (d T : list row) :
  length T = 7 → keys T = successor_keys →
  fold_left loop_body (seq 0 (length (d ++ T))) (d ++ T, [])
  = (d ++ fold_left acc_rows d T, dels 0 d).
Proof.
  intros HT HK. rewrite length_app, seq_app, fold_left_app. simpl.
  pose proof (loop_prefix d [] T [] HT) as Hp. simpl in Hp. rewrite Hp.
  destruct (fold_acc_rows_inv d T) as [HT' HK'].
  apply loop_others. apply Forall_forall. intros i Hi.
  apply elem_of_seq in Hi.
  destruct (lookup_lt_is_Some_2 (fold_left acc_rows d T) (i - length d))
    as [r Hr]; [lia|].
  exists r. split.
  - rewrite lookup_app_r by lia. done.
  - assert (Hnp : Forall (λ r, ¬ is_pred r) (fold_left acc_rows d T)).
    { apply keys_not_pred. by rewrite HK'. }
    eapply (proj1 (Forall_forall _ _) Hnp), list_elem_of_lookup_2, Hr.
Qed.

Lemma elem_of_acc_del (j i : nat) (r : row) :
  j ∈ acc_del i r ↔ j = i ∧ is_pred r.
Proof.
  unfold acc_del, is_pred. rewrite pred_in_fusion.
  generalize fusions. intros fs.
  induction fs as [|f fs IH]; simpl.
  - rewrite Exists_nil, elem_of_nil. tauto.
  - rewrite elem_of_app, IH, Exists_cons.
    case_bool_decide; rewrite ?list_elem_of_singleton, ?elem_of_nil; tauto.
Qed.

Lemma elem_of_dels (j i : nat) (d : list row) :
  j ∈ dels i d ↔ ∃ r, i ≤ j ∧ d !! (j - i) = Some r ∧ is_pred r.
Proof.
  revert i. induction d as [|r d IH]; intros i; simpl.
  - rewrite elem_of_nil. split; [done|]. by intros (r & _ & ? & _).
  - rewrite elem_of_app, elem_of_acc_del, IH. split.
    + intros [[-> Hr]|(r' & Hle & Hl & Hr)].
      * exists r. by rewrite Nat.sub_diag.
      * exists r'. split; [lia|]. split; [|done].
        replace (j - i) with (S (j - S i)) by lia. done.
    + intros (r' & Hle & Hl & Hr).
      destruct (decide (j = i)) as [->|Hne].
      * rewrite Nat.sub_diag in Hl. simpl in Hl. left.
        injection Hl as ->. done.
      * right. exists r'. split; [lia|]. split; [|done].
        replace (j - i) with (S (j - S i)) in Hl by lia. done.
Qed.

Lemma delete_from_filter (idx : list nat) (d : list row) (i : nat) :
  (∀ j r, d !! j = Some r → (i + j ∈ idx ↔ is_pred r)) →
  delete_from i idx d = filter (λ r, ¬ is_pred r) d.
Proof.
  revert i. induction d as [|r d IH]; intros i H; simpl; [done|].
  pose proof (H 0 r eq_refl) as H0. rewrite Nat.add_0_r in H0.
  rewrite filter_cons.
  assert (IH' : delete_from (S i) idx d = filter (λ r, ¬ is_pred r) d).
  { apply IH. intros j r' Hj. rewrite <- (H (S j) r' Hj). by rewrite Nat.add_succ_r. }
  case_bool_decide; case_decide; try tauto.
  by rewrite IH'.
Qed.

Lemma filter_all {A} (P : A → Prop) `{∀ x, Decision (P x)} (l : list A) :
  Forall P l → filter P l = l.
Proof.
  induction 1 as [|x l Hx _ IH]; [done|].
  by rewrite filter_cons_True, IH.
Qed.

Lemma np_delete_spec (d T : list row) :
  keys T = successor_keys →
  np_delete (d ++ T) (dels 0 d) = filter (λ r, ¬ is_pred r) d ++ T.
Proof.
  intros HK. unfold np_delete. rewrite delete_from_filter.
  - rewrite filter_app. f_equal. apply filter_all. by apply keys_not_pred.
  - intros j r Hj. simpl. rewrite elem_of_dels, Nat.sub_0_r.
    destruct (decide (j < length d)) as [Hlt|Hge].
    + rewrite lookup_app_l in Hj by done. split; [|intros; exists r; split; [lia|done]].
      intros (r' & _ & Hr' & Hp). congruence.
    + rewrite lookup_app_r in Hj by lia. split.
      * intros (r' & _ & Hr' & _). apply lookup_lt_Some in Hr'. lia.
      * intros Hp. exfalso.
        eapply (proj1 (Forall_forall _ _) (keys_not_pred _ HK)); [|exact Hp].
        by eapply list_elem_of_lookup_2.
Qed.


(** *** Sorting by key *)

Global Instance key_le_total : Total key_le.
Proof. intros p q. unfold key_le. lia. Qed.

Global Instance key_le_trans : Transitive key_le.
Proof. intros p q r. unfold key_le. lia. Qed.

Definition sorted_pairs (ks : list Z) : list (Z * nat) :=
  merge_sort key_le (zip ks (seq 0 (length ks))).

Lemma zip_seq_lookup (d : list row) (i0 : nat) (p : Z * nat) :
  p ∈ zip (keys d) (seq i0 (length d)) →
  ∃ r, i0 ≤ p.2 ∧ d !! (p.2 - i0) = Some r ∧ row_key r = p.1.
Proof.
  revert i0. induction d as [|r d IH]; intros i0; simpl.
  - by intros ?%elem_of_nil.
  - intros [->|Hp]%elem_of_cons.
    + exists r. simpl. by rewrite Nat.sub_diag.
    + destruct (IH _ Hp) as (r' & Hle & Hl & Hk).
      exists r'. split; [lia|]. split; [|done].
      by replace (p.2 - i0) with (S (p.2 - S i0)) by lia.
Qed.

Lemma keys_take_rows (d : list row) (ps : list (Z * nat)) :
  Forall (λ p, ∃ r, d !! p.2 = Some r ∧ row_key r = p.1) ps →
  keys (take_rows ps.*2 d) = ps.*1.
Proof.
  induction 1 as [|[k i] ps (r & Hr & Hk) _ IH]; [done|].
  unfold keys, take_rows in *. simpl in *. rewrite Hr. simpl.
  rewrite Hk. f_equal. exact IH.
Qed.

Lemma take_rows_seq (d pre : list row) :
  take_rows (seq (length pre) (length d)) (pre ++ d) = d.
Proof.
  revert pre. induction d as [|r d IH]; intros pre; simpl; [done|].
  rewrite list_lookup_middle by done. simpl. f_equal.
  specialize (IH (pre ++ [r])). rewrite length_app, <- app_assoc in IH.
  simpl in IH. by rewrite Nat.add_1_r in IH.
Qed.

Lemma sorted_pairs_lookup (d : list row) :
  Forall (λ p, ∃ r, d !! p.2 = Some r ∧ row_key r = p.1)
         (sorted_pairs (keys d)).
Proof.
  apply Forall_forall. intros p Hp. unfold sorted_pairs in Hp.
  rewrite merge_sort_Permutation in Hp.
  unfold keys in Hp at 2. rewrite length_fmap in Hp.
  destruct (zip_seq_lookup _ _ _ Hp) as (r & _ & Hl & Hk).
  rewrite Nat.sub_0_r in Hl. eauto.
Qed.

Lemma argsort_permutation (d : list row) :
  take_rows (argsort (keys d)) d ≡ₚ d.
Proof.
  unfold argsort.
  assert (H : (merge_sort key_le (zip (keys d) (seq 0 (length (keys d))))).*2
              ≡ₚ seq 0 (length d)).
  { rewrite merge_sort_Permutation. unfold keys. rewrite length_fmap.
    rewrite snd_zip; [done|]. by rewrite length_fmap, length_seq. }
  unfold take_rows. rewrite H. apply (reflexive_eq (R := (≡ₚ))).
  apply (take_rows_seq d []).
Qed.

Lemma Sorted_fst (ps : list (Z * nat)) :
  Sorted key_le ps → Sorted Z.le ps.*1.
Proof.
  induction 1 as [|p ps _ IH Hhd]; simpl; constructor; [done|].
  destruct Hhd; simpl; by constructor.
Qed.

Lemma argsort_sorted (d : list row) :
  Sorted Z.le (keys (take_rows (argsort (keys d)) d)).
Proof.
  unfold argsort. rewrite keys_take_rows by apply sorted_pairs_lookup.
  apply Sorted_fst, Sorted_merge_sort, _.
Qed.

(** *** The function as a whole *)

(** [get_new_counties] returns, in ascending key order, the rows whose key
    is no predecessor key followed by the seven accumulated rows. *)
Lemma get_new_counties_spec (m : ndarray) :
  ncols m ≠ 0 →
  ∃ out, get_new_counties m = Ok out
    ∧ out ≡ₚ filter (λ r, ¬ is_pred r) (rows m)
             ++ fold_left acc_rows (rows m) (successor_rows (ncols m))
    ∧ Sorted Z.le (keys out).
Proof.
  intros Hn. unfold get_new_counties.
  rewrite bool_decide_eq_false_2 by done.
  rewrite set_keys_append by done.
  rewrite loop_spec by done.
  destruct (fold_acc_rows_inv (rows m) (successor_rows (ncols m))) as [HL HK].
  rewrite np_delete_spec by (by rewrite HK).
  eexists. split; [done|]. split.
  - apply argsort_permutation.
  - apply argsort_sorted.
Qed.


(** The output keeps the width of the input and is not empty. *)
Lemma acc_rows_widths (n : nat) (T : list row) (r : row) :
  length r = n → Forall (λ t : row, length t = n) T →
  Forall (λ t : row, length t = n) (acc_rows T r).
Proof.
  intros Hr. unfold acc_rows. generalize fusions. intros fs. revert T.
  induction fs as [|f fs IH]; intros T HT; simpl; [done|].
  apply IH. case_bool_decide; [|done].
  apply Forall_alter; [done|]. intros t _ Ht.
  rewrite length_add_brackets; congruence.
Qed.

Lemma fold_acc_rows_widths (n : nat) (d T : list row) :
  Forall (λ r : row, length r = n) d → Forall (λ t : row, length t = n) T →
  Forall (λ t : row, length t = n) (fold_left acc_rows d T).
Proof.
  intros Hd. revert T. induction Hd as [|r d Hr _ IH]; intros T HT; [done|].
  simpl. by apply IH, acc_rows_widths.
Qed.

Lemma get_new_counties_shape (m : ndarray) :
  wf_ndarray m → ncols m ≠ 0 →
  ∃ out, get_new_counties m = Ok out
    ∧ out ≠ [] ∧ Forall (λ r : row, length r = ncols m) out.
Proof.
  intros Hwf Hn.
  destruct (get_new_counties_spec m Hn) as (out & Hout & Hperm & _).
  destruct (fold_acc_rows_inv (rows m) (successor_rows (ncols m))) as [HL _].
  exists out. split; [done|]. split.
  - intros ->. apply Permutation_length in Hperm.
    rewrite length_app, HL in Hperm. simpl in Hperm. lia.
  - rewrite Hperm. apply Forall_app. split.
    + apply Forall_forall. intros r [_ Hr]%list_elem_of_filter.
      by apply (proj1 (Forall_forall _ _) Hwf).
    + apply fold_acc_rows_widths; [done|].
      unfold successor_rows. apply Forall_fmap, Forall_forall. intros k _.
      simpl. rewrite length_replicate. lia.
Qed.

Example get_new_counties_sample :
  get_new_counties
    (NdArray 3 [[3156; 5; 8]; [1001; 1; 2]; [3152; 10; 20]]%Z)
  = Ok [[1001; 1; 2]; [3159; 15; 28]; [13071; 0; 0]; [13072; 0; 0];
        [13073; 0; 0]; [13074; 0; 0]; [13075; 0; 0]; [13076; 0; 0]]%Z.
Proof. vm_compute. reflexivity. Qed.

(** The number of input rows whose key is a predecessor key. *)
Definition predecessor_count (d : list row) : nat :=
  length (filter is_pred d).

Lemma keys_filter (d : list row) :
  keys (filter (λ r, ¬ is_pred r) d)
  = filter (λ k, k ∉ predecessor_keys) (keys d).
Proof.
  unfold keys. induction d as [|r d IH]; [done|].
  rewrite filter_cons. destruct (decide (¬ is_pred r)) as [Hr|Hr].
  - rewrite !fmap_cons, filter_cons_True by done. f_equal. exact IH.
  - rewrite fmap_cons, filter_cons_False by done. exact IH.
Qed.

Lemma length_kept (d : list row) :
  length (filter (λ r, ¬ is_pred r) d) = length d - predecessor_count d.
Proof.
  unfold predecessor_count.
  pose proof (Permutation_length (filter_app_complement is_pred d)) as H.
  rewrite length_app in H. lia.
Qed.

(** C1: on an input whose keys are pairwise distinct and none of which is
    a successor key, [get_new_counties] returns a matrix with (number of
    input rows) - (number of predecessor rows) + 7 rows, whose key column
    is ascending and free of duplicates. *)
Theorem get_new_counties_cardinality (m : ndarray) :
  wf_ndarray m → ncols m ≠ 0 →
  NoDup (keys (rows m)) →
  (∀ k, k ∈ keys (rows m) → k ∉ successor_keys) →
  ∃ out, get_new_counties m = Ok out
    ∧ length out = length (rows m) - predecessor_count (rows m) + 7
    ∧ Sorted Z.le (keys out)
    ∧ NoDup (keys out).
Proof.
  intros _ Hn Hnd Hs.
  destruct (get_new_counties_spec m Hn) as (out & Hout & Hperm & Hsorted).
  destruct (fold_acc_rows_inv (rows m) (successor_rows (ncols m))) as [HL HK].
  exists out. split; [done|]. split; [|split; [done|]].
  - rewrite (Permutation_length Hperm), length_app, HL, length_kept. done.
  - unfold keys at 1. rewrite Hperm. fold (keys (filter (λ r, ¬ is_pred r) (rows m)
      ++ fold_left acc_rows (rows m) (successor_rows (ncols m)))).
    unfold keys at 1. rewrite fmap_app.
    fold (keys (filter (λ r, ¬ is_pred r) (rows m))).
    fold (keys (fold_left acc_rows (rows m) (successor_rows (ncols m)))).
    rewrite HK, keys_filter. apply NoDup_app. split; [|split].
    + by apply NoDup_filter.
    + intros k [_ Hk]%list_elem_of_filter. by apply Hs.
    + by apply (bool_decide_unpack _).
Qed.

Lemma get_new_counties_cardinality_witness :
  ∃ out,
    get_new_counties
      (NdArray 3 [[3156; 5; 8]; [1001; 1; 2]; [3152; 10; 20]]%Z) = Ok out
    ∧ length out = 3 - 2 + 7
    ∧ Sorted Z.le (keys out)
    ∧ NoDup (keys out).
Proof.
  apply (get_new_counties_cardinality
           (NdArray 3 [[3156; 5; 8]; [1001; 1; 2]; [3152; 10; 20]]%Z)).
  - repeat constructor.
  - simpl. lia.
  - by apply (bool_decide_unpack _).
  - intros k Hk. revert k Hk. apply Forall_forall.
    by apply (bool_decide_unpack _).
Defined.

(** *** The Göttingen fusion *)

Definition col_sum (j : nat) (d : list row) : Z :=
  foldr (λ r acc, default 0 (r !! j) + acc)%Z 0%Z d.

Definition is_goettingen_pred (r : row) : Prop :=
  row_key r ∈ [3152; 3156]%Z.

Lemma acc_rows_head (t r : row) (T : list row) :
  length T = 6 →
  ∃ T', length T' = 6 ∧
    acc_rows (t :: T) r
    = (if bool_decide (is_goettingen_pred r) then add_brackets r t else t) :: T'.
Proof.
  intros HT.
  destruct T as [|t1 [|t2 [|t3 [|t4 [|t5 [|t6 [|]]]]]]]; try done.
  unfold acc_rows, fusions, is_goettingen_pred. simpl.
  repeat case_bool_decide; eexists; (split; [|reflexivity]); done.
Qed.

Lemma fold_acc_rows_head (d : list row) (t : row) (T : list row) :
  length T = 6 →
  ∃ T', length T' = 6 ∧
    fold_left acc_rows d (t :: T)
    = fold_left (λ t r, if bool_decide (is_goettingen_pred r)
                        then add_brackets r t else t) d t :: T'.
Proof.
  revert t T. induction d as [|r d IH]; intros t T HT; simpl; [eauto|].
  destruct (acc_rows_head t r T HT) as (T' & HT' & ->). by apply IH.
Qed.

Lemma fold_add_brackets (d : list row) (k x y : Z) :
  Forall (λ r : row, length r = 3) d →
  fold_left (λ t r, if bool_decide (is_goettingen_pred r)
                    then add_brackets r t else t) d [k; x; y]
  = [k; x + col_sum 1 (filter is_goettingen_pred d);
        y + col_sum 2 (filter is_goettingen_pred d)]%Z.
Proof.
  intros Hd. revert x y. induction Hd as [|r d Hr _ IH]; intros x y; simpl.
  { by rewrite !Z.add_0_r. }
  rewrite filter_cons.
  destruct r as [|k' [|a [|b [|]]]]; try done.
  case_bool_decide; case_decide; try tauto; simpl; rewrite IH; [|done].
  f_equal. f_equal; [lia|]. f_equal. lia.
Qed.

Lemma col_sum_goettingen (j : nat) (d : list row) :
  col_sum j (filter is_goettingen_pred d)
  = (col_sum j (filter (λ r, row_key r = 3152%Z) d)
     + col_sum j (filter (λ r, row_key r = 3156%Z) d))%Z.
Proof.
  induction d as [|r d IH]; [done|].
  rewrite !filter_cons. unfold is_goettingen_pred at 1.
  repeat case_decide; simpl; rewrite ?IH; try lia;
    exfalso; set_unfold; lia.
Qed.

Lemma filter_none {A} (P : A → Prop) `{∀ x, Decision (P x)} (l : list A) :
  Forall (λ x, ¬ P x) l → filter P l = [].
Proof.
  induction 1 as [|x l Hx _ IH]; [done|].
  by rewrite filter_cons_False.
Qed.

Lemma keys_successor_rows (n : nat) : keys (successor_rows n) = successor_keys.
Proof. reflexivity. Qed.

(** C2: with one row [3152, 10, 20], one row [3156, 5, 8] and no row of
    key 3159 in the input, the output holds exactly one row of key 3159,
    it is [3159, 15, 28], and no row of key 3152 or 3156. *)
Theorem get_new_counties_goettingen (m : ndarray) :
  wf_ndarray m → ncols m = 3 →
  filter (λ r, row_key r = 3152%Z) (rows m) = [[3152; 10; 20]%Z] →
  filter (λ r, row_key r = 3156%Z) (rows m) = [[3156; 5; 8]%Z] →
  filter (λ r, row_key r = 3159%Z) (rows m) = [] →
  ∃ out, get_new_counties m = Ok out
    ∧ filter (λ r, row_key r = 3159%Z) out = [[3159; 15; 28]%Z]
    ∧ filter (λ r, row_key r = 3152%Z) out = []
    ∧ filter (λ r, row_key r = 3156%Z) out = [].
Proof.
  intros Hwf Hn H52 H56 H59.
  destruct (get_new_counties_spec m) as (out & Hout & Hperm & _); [lia|].
  destruct (fold_acc_rows_inv (rows m) (successor_rows (ncols m))) as [_ HK].
  rewrite keys_successor_rows in HK.
  exists out. split; [done|].
  assert (Hall : Forall (λ r, ¬ is_pred r) out).
  { rewrite Hperm. apply Forall_app. split.
    - apply Forall_forall. by intros r [? _]%list_elem_of_filter.
    - by apply keys_not_pred. }
  assert (Hnone : ∀ k, k ∈ predecessor_keys →
            filter (λ r, row_key r = k) out = []).
  { intros k Hk. apply filter_none. eapply Forall_impl; [exact Hall|].
    intros r Hr Hrk. apply Hr. unfold is_pred. by rewrite Hrk. }
  split; [|split; apply Hnone; by apply (bool_decide_unpack _)].
  apply Permutation_singleton_r. rewrite Hperm, filter_app.
  rewrite (filter_none _ (filter _ (rows m))); last first.
  { apply Forall_forall. intros r [_ Hr]%list_elem_of_filter Hrk.
    exact (filter_nil_not_elem_of (λ r, row_key r = 3159%Z) _ r H59 Hrk Hr). }
  simpl. revert HK. rewrite Hn. unfold successor_rows. simpl.
  edestruct (fold_acc_rows_head (rows m)) as (T' & HT' & ->); [|].
  { reflexivity. }
  rewrite fold_add_brackets, !col_sum_goettingen, H52, H56
    by (by rewrite <- Hn).
  simpl. intros [= HK]. rewrite filter_cons_True by done.
  rewrite (filter_none _ T'); [done|].
  apply Forall_forall. intros r Hr Hk.
  apply (list_elem_of_fmap_2 row_key) in Hr.
  unfold keys in HK. rewrite HK, Hk in Hr.
  revert Hr. by apply (bool_decide_unpack _).
Qed.

Lemma get_new_counties_goettingen_witness :
  ∃ out,
    get_new_counties
      (NdArray 3 [[3156; 5; 8]; [1001; 1; 2]; [3152; 10; 20]]%Z) = Ok out
    ∧ filter (λ r, row_key r = 3159%Z) out = [[3159; 15; 28]%Z]
    ∧ filter (λ r, row_key r = 3152%Z) out = []
    ∧ filter (λ r, row_key r = 3156%Z) out = [].
Proof.
  apply (get_new_counties_goettingen
           (NdArray 3 [[3156; 5; 8]; [1001; 1; 2]; [3152; 10; 20]]%Z)).
  - repeat constructor.
  - reflexivity.
  - reflexivity.
  - reflexivity.
  - reflexivity.
Defined.

End CountiesFacts.

(** ** The rescaling step *)

Module RescaleFacts.
Import Counties Rescale.

Lemma for_each_ok {A B} (f : A → result B) (g : A → B) (l : list A) :
  Forall (λ x, f x = Ok (g x)) l → for_each f l = Ok (g <$> l).
Proof.
  induction 1 as [|x l Hx _ IH]; [done|].
  simpl. by rewrite Hx, IH.
Qed.

Lemma fmap_zip_self {A B C} (g : A → B) (h : A → B → C) (l : list A) :
  (λ p, h p.1 p.2) <$> zip l (g <$> l) = (λ x, h x (g x)) <$> l.
Proof. induction l as [|x l IH]; [done|]. simpl. f_equal. exact IH. Qed.

(** An integer that a binary64 array entry holds exactly. *)
Definition exact (v : Z) : Prop := (Z.abs v ≤ 2 ^ 53)%Z.

(** No row of the reference table carries the key of [r]. *)
Definition unmatched {fl} (counties : list (county_row fl)) (r : row) : Prop :=
  Forall (λ c, key_number c ≠ Some (row_key r)) counties.

Section facts.
Context (fl : float_ops).

(** The ratio of a row whose columns 0 and 1 are [k0] and [t]. *)
Definition ratio_value (k0 t : Z) (cs : list (county_row fl)) : F fl :=
  fold_left (λ a c, match key_number c with
                    | Some k => if bool_decide (k0 = k)
                                then div fl (population c) (of_int fl t)
                                else a
                    | None => a
                    end) cs (one fl).

Definition ratio_row (counties : list (county_row fl)) (r : row) : F fl :=
  ratio_value (row_key r) (default 0%Z (r !! 1))
    (take (length counties - 11) counties).

Lemma ratio_of_ok (counties : list (county_row fl)) (r : row) :
  2 ≤ length r → ratio_of fl counties r = Ok (ratio_row counties r).
Proof.
  intros Hr. destruct r as [|k0 [|t r]]; simpl in Hr; try lia.
  unfold ratio_of, ratio_row, ratio_value, row_key. simpl.
  generalize (take (length counties - 11) counties), (one fl).
  intros cs. induction cs as [|c cs IH]; intros a; simpl; [done|].
  rewrite <- IH. f_equal. unfold ratio_step. simpl.
  destruct (key_number c); [|done]. by case_bool_decide.
Qed.

Lemma ratio_unmatched (counties : list (county_row fl)) (r : row) :
  unmatched counties r → ratio_row counties r = one fl.
Proof.
  unfold unmatched, ratio_row, ratio_value. intros H.
  assert (H' : Forall (λ c, key_number c ≠ Some (row_key r))
                 (take (length counties - 11) counties)).
  { apply Forall_take, H. }
  revert H'. generalize (take (length counties - 11) counties), (one fl).
  intros cs a. induction 1 as [|c cs Hc _ IH]; simpl; [done|].
  destruct (key_number c) as [k|]; [|done].
  rewrite bool_decide_eq_false_2; [done|]. congruence.
Qed.

Lemma ratio_fold_unmatched (k0 t : Z) (cs : list (county_row fl))
    (a : F fl) :
  Forall (λ c, key_number c ≠ Some k0) cs →
  fold_left (λ a c, match key_number c with
                    | Some k => if bool_decide (k0 = k)
                                then div fl (population c) (of_int fl t)
                                else a
                    | None => a
                    end) cs a = a.
Proof.
  intros H. revert a. induction H as [|c cs Hc _ IH]; intros a; simpl; [done|].
  destruct (key_number c) as [k|]; [|done].
  rewrite bool_decide_eq_false_2; [done|]. congruence.
Qed.

(** The ratio of a row with a match among the rows read: the last match
    gives it. *)
Lemma ratio_matched (counties : list (county_row fl)) (r : row) (t : Z)
    (pre post : list (county_row fl)) (c : county_row fl) :
  take (length counties - 11) counties = pre ++ c :: post →
  key_number c = Some (row_key r) →
  Forall (λ c', key_number c' ≠ Some (row_key r)) post →
  r !! 1 = Some t →
  ratio_row counties r = div fl (population c) (of_int fl t).
Proof.
  intros Htake Hc Hpost Ht.
  unfold ratio_row, ratio_value. rewrite Htake, Ht, fold_left_app. simpl.
  rewrite Hc, bool_decide_eq_true_2 by done.
  by apply ratio_fold_unmatched.
Qed.

(** The row of [df_current] for the row [r] of [data]. *)
Definition scaled_row (counties : list (county_row fl)) (r : row) : list Z :=
  (λ x, to_int fl (round fl x)) <$>
    (of_int fl (row_key r)
     :: ((λ v, mul fl (of_int fl v) (ratio_row counties r)) <$> tail r)).

Lemma rescale_ok (counties : list (county_row fl)) (data : list row) :
  data ≠ [] → Forall (λ r : row, length r = length columns) data →
  rescale fl counties data = Ok (data, scaled_row counties <$> data).
Proof.
  intros Hne Hd. unfold rescale.
  rewrite (for_each_ok _ (ratio_row counties)); last first.
  { eapply Forall_impl; [exact Hd|]. intros r Hr. apply ratio_of_ok.
    rewrite Hr. simpl. lia. }
  simpl. rewrite bool_decide_eq_false_2 by done. simpl.
  rewrite (for_each_ok _ (λ p, of_int fl (row_key p.1)
             :: ((λ v, mul fl (of_int fl v) p.2) <$> tail p.1))); last first.
  { apply Forall_forall. intros [r ρ] Hp. apply elem_of_zip_l in Hp.
    pose proof (proj1 (Forall_forall _ _) Hd r Hp) as Hr.
    destruct r; [done|]. reflexivity. }
  cbn [rbind]. unfold DataFrame.
  rewrite bool_decide_eq_true_2 by done. cbn [rbind].
  rewrite (fmap_zip_self (ratio_row counties)
             (λ r ρ, of_int fl (row_key r)
                     :: ((λ v, mul fl (of_int fl v) ρ) <$> tail r))).
  rewrite <- list_fmap_compose.
  rewrite bool_decide_eq_true_2; [done|].
  apply Forall_fmap. eapply Forall_impl; [exact Hd|].
  intros r Hr. destruct r; [done|]. simpl in *. by rewrite !length_fmap.
Qed.

(** C3: the step returns; the rescaled table holds, in every column but
    the key column, [round(v * r)] for the raw value [v] and the ratio
    [r] of the row.  The ratio of a row with a match in the reference
    table (among the rows read, the last one counts) is the population of
    that reference row divided by the census total of the row (column 1);
    a row without a match has ratio 1.0 and keeps its raw values. *)
Theorem rescale_values (counties : list (county_row fl)) (data : list row) :
  (∀ v, exact v → mul fl (of_int fl v) (one fl) = of_int fl v) →
  (∀ v, exact v → to_int fl (round fl (of_int fl v)) = v) →
  data ≠ [] → Forall (λ r : row, length r = length columns) data →
  ∃ df_current,
    rescale fl counties data = Ok (data, df_current)
    ∧ length df_current = length data
    ∧ ∀ i r, data !! i = Some r →
        ∃ cur ratio, df_current !! i = Some cur
          ∧ ratio_of fl counties r = Ok ratio
          ∧ (∀ j v, 1 ≤ j → r !! j = Some v →
               cur !! j = Some (to_int fl (round fl
                                  (mul fl (of_int fl v) ratio))))
          ∧ (∀ pre c post t,
               take (length counties - 11) counties = pre ++ c :: post →
               key_number c = Some (row_key r) →
               Forall (λ c', key_number c' ≠ Some (row_key r)) post →
               r !! 1 = Some t →
               ratio = div fl (population c) (of_int fl t))
          ∧ (unmatched counties r →
               ratio = one fl ∧ (Forall exact r → cur = r)).
Proof.
  intros Hmul Hround Hne Hd. eexists. split; [by apply rescale_ok|].
  split; [by rewrite length_fmap|].
  intros i r Hi. exists (scaled_row counties r), (ratio_row counties r).
  split; [by rewrite list_lookup_fmap, Hi|].
  pose proof (proj1 (Forall_forall _ _) Hd r
                (list_elem_of_lookup_2 _ _ _ Hi)) as Hr.
  split; [apply ratio_of_ok; rewrite Hr; simpl; lia|].
  split; [|split].
  - intros [|j] v Hj Hv; [lia|].
    destruct r as [|k r]; [done|]. unfold scaled_row. simpl in *.
    by rewrite <- list_fmap_compose, list_lookup_fmap, Hv.
  - intros pre c post t. apply ratio_matched.
  - intros Hu. split; [by apply ratio_unmatched|].
    intros He. unfold scaled_row. rewrite ratio_unmatched by done.
    destruct r as [|k r]; [done|]. apply Forall_cons in He as [Hk He].
    simpl. unfold row_key. simpl. rewrite Hround by done. f_equal.
    clear -He Hmul Hround.
    induction He as [|v r Hv _ IH]; [done|].
    simpl. rewrite Hmul, Hround by done. f_equal. exact IH.
Qed.
End facts.

(** Lines 178-198 return on every census array of thirteen columns. *)
Lemma rescale_after_get_new_counties (fl : float_ops)
    (counties : list (county_row fl)) (m : ndarray) :
  wf_ndarray m → ncols m = length columns →
  ∃ data, get_new_counties m = Ok data
    ∧ rescale fl counties data
      = Ok (data, scaled_row fl counties <$> data).
Proof.
  intros Hwf Hn.
  destruct (CountiesFacts.get_new_counties_shape m Hwf) as (data & Hd & Hne & Hw).
  { rewrite Hn. done. }
  exists data. split; [done|]. apply rescale_ok; [done|]. by rewrite <- Hn.
Qed.

(** The laws assumed of the arithmetic hold on the rationals. *)
Lemma Q_mul_one (v : Z) : mul Q_ops (of_int Q_ops v) (one Q_ops) = of_int Q_ops v.
Proof.
  simpl. unfold Qmult, inject_Z. simpl. by rewrite Z.mul_1_r.
Qed.

Lemma Q_round_int (v : Z) : to_int Q_ops (round Q_ops (of_int Q_ops v)) = v.
Proof.
  simpl. unfold Qround_half_even. rewrite Qfloor_Z.
  assert (H : (inject_Z v - inject_Z v ?= 1 # 2)%Q = Lt).
  { apply (proj1 (Qlt_alt _ _)). unfold Qlt, Qminus, Qplus, Qopp, inject_Z.
    cbn [Qnum Qden]. lia. }
  rewrite H. unfold Qtrunc. simpl. apply Z.quot_1_r.
Qed.

Definition sample_counties : list (county_row Q_ops) :=
  [@CountyRow Q_ops (Some 1001%Z) (90 # 1)%Q;
   @CountyRow Q_ops None (0 # 1)%Q]
  ++ replicate 11 (@CountyRow Q_ops None (0 # 1)%Q).

Definition sample_data : list row :=
  [[1001; 60; 1; 2; 3; 4; 5; 6; 7; 8; 9; 10; 5];
   [1002; 60; 1; 2; 3; 4; 5; 6; 7; 8; 9; 10; 5]]%Z.

Example rescale_sample :
  rescale Q_ops sample_counties sample_data
  = Ok (sample_data,
        [[1001; 90; 2; 3; 4; 6; 8; 9; 10; 12; 14; 15; 8];
         [1002; 60; 1; 2; 3; 4; 5; 6; 7; 8; 9; 10; 5]]%Z).
Proof. vm_compute. reflexivity. Qed.

Lemma rescale_values_witness :
  ∃ df_current,
    rescale Q_ops sample_counties sample_data = Ok (sample_data, df_current)
    ∧ length df_current = length sample_data
    ∧ ∀ i r, sample_data !! i = Some r →
        ∃ cur ratio, df_current !! i = Some cur
          ∧ ratio_of Q_ops sample_counties r = Ok ratio
          ∧ (∀ j v, 1 ≤ j → r !! j = Some v →
               cur !! j = Some (to_int Q_ops (round Q_ops
                                  (mul Q_ops (of_int Q_ops v) ratio))))
          ∧ (∀ pre c post t,
               take (length sample_counties - 11) sample_counties
               = pre ++ c :: post →
               key_number c = Some (row_key r) →
               Forall (λ c', key_number c' ≠ Some (row_key r)) post →
               r !! 1 = Some t →
               ratio = div Q_ops (population c) (of_int Q_ops t))
          ∧ (unmatched sample_counties r →
               ratio = one Q_ops ∧ (Forall exact r → cur = r)).
Proof.
  apply (rescale_values Q_ops sample_counties sample_data).
  - intros v _. apply Q_mul_one.
  - intros v _. apply Q_round_int.
  - discriminate.
  - repeat constructor.
Defined.

End RescaleFacts.

(** ** [download_file] *)

Module FetchFacts.
Import Fetch.

(** The fractions that a call passed to [progress_function], in order. *)
Definition progress_calls (ev : list event) : list Q :=
  omap (λ e, match e with EvProgress q => Some q | _ => None end) ev.

Definition frac (a b : Z) : Q := (inject_Z a / inject_Z b)%Q.

(** The fractions after chunks 1, 2, ..., [len] when every chunk counts
    for [n] bytes. *)
Definition chunk_size_fractions (n file_size : Z) (k0 : Z) (len : nat)
    : list Q :=
  (λ k : nat, frac (Z.min ((k0 + Z.of_nat k) * n) file_size) file_size)
    <$> seq 1 len.

(** The fractions after chunks 1, 2, ... when the bytes read so far are
    counted: [min(bytes_read, content_length)/content_length]. *)
Fixpoint bytes_read_fractions (file_size : Z) (read : Z) (cs : list bytes)
    : list Q :=
  match cs with
  | [] => []
  | c :: cs' =>
      let read := (read + Z.of_nat (length c))%Z in
      frac (Z.min read file_size) file_size
      :: bytes_read_fractions file_size read cs'
  end.

Lemma progress_calls_events (url : string) (calls : list Q) :
  progress_calls (EvGet url :: (EvProgress <$> calls)) = calls.
Proof.
  unfold progress_calls. simpl.
  induction calls as [|q calls IH]; [done|]. simpl. f_equal. exact IH.
Qed.

Lemma frac_le (a a' b : Z) :
  (0 < b)%Z → (a ≤ a')%Z → (frac a b <= frac a' b)%Q.
Proof.
  intros Hb Ha. unfold frac, Qdiv. apply Qmult_le_compat_r.
  - by rewrite <- Zle_Qle.
  - apply Qinv_le_0_compat. change 0%Q with (inject_Z 0).
    rewrite <- Zle_Qle. lia.
Qed.

Lemma frac_0 (b : Z) : (frac 0 b == 0)%Q.
Proof. unfold frac, Qdiv. apply Qmult_0_l. Qed.

Lemma frac_1 (b : Z) : (0 < b)%Z → (frac b b == 1)%Q.
Proof.
  intros Hb. unfold frac, Qdiv. apply Qmult_inv_r.
  intros H. unfold Qeq in H. simpl in H. lia.
Qed.

Lemma frac_unit (a b : Z) :
  (0 < b)%Z → (0 ≤ a ≤ b)%Z → (0 <= frac a b)%Q ∧ (frac a b <= 1)%Q.
Proof.
  intros Hb [H0 H1]. split.
  - rewrite <- (frac_0 b). by apply frac_le.
  - rewrite <- (frac_1 b) by done. by apply frac_le.
Qed.

Lemma chunk_size_fractions_S (n file_size k0 : Z) (len : nat) :
  chunk_size_fractions n file_size k0 (S len)
  = frac (Z.min ((k0 + 1) * n) file_size) file_size
    :: chunk_size_fractions n file_size (k0 + 1) len.
Proof.
  unfold chunk_size_fractions. simpl. f_equal.
  rewrite <- (fmap_S_seq 1), <- list_fmap_compose.
  apply list_fmap_ext. intros _ k _. simpl.
  by replace (k0 + Z.of_nat (S k))%Z with (k0 + 1 + Z.of_nat k)%Z by lia.
Qed.

Lemma progress_loop_spec (n file_size k0 : Z) (cs : list bytes)
    (file : bytes) (calls : list Q) :
  file_size ≠ 0%Z → (0 ≤ n)%Z →
  progress_loop (PyInt n) file_size cs file (Z.min (k0 * n) file_size) calls
  = (calls ++ chunk_size_fractions n file_size k0 (length cs),
     Ok (file ++ concat cs)).
Proof.
  intros Hfs Hn. revert file k0 calls.
  induction cs as [|c cs IH]; intros file k0 calls.
  { simpl. by rewrite !app_nil_r. }
  cbn [progress_loop int_add length concat].
  unfold true_div. rewrite (proj2 (Z.eqb_neq _ _) Hfs).
  replace (Z.min (Z.min (k0 * n) file_size + n) file_size)
    with (Z.min ((k0 + 1) * n) file_size) by lia.
  rewrite IH, chunk_size_fractions_S, <- !app_assoc. done.
Qed.

(** The calls of [progress_function] made by a download with an integer
    chunk size and a usable response. *)
Lemma download_progress (w : world) (url : string) (encoding timeout : pyval)
    (n file_size : Z) (req : response) :
  requests_get w url timeout = Ok req →
  status_code req = 200%Z →
  content_length req = Length file_size →
  (0 < file_size)%Z → (0 ≤ n)%Z →
  progress_calls (download_file w url encoding (PyInt n) timeout true).1
  = chunk_size_fractions n file_size 0
      (length (chunks (body req (Some n)))).
Proof.
  intros Hget Hst Hcl Hfs Hn. unfold download_file.
  rewrite Hget, Hst, Hcl. simpl.
  pose proof (progress_loop_spec n file_size 0 (chunks (body req (Some n)))
                [] [] ltac:(lia) Hn) as H.
  rewrite Z.mul_0_l, Z.min_l in H by lia. rewrite H. simpl.
  exact (progress_calls_events url _).
Qed.

Lemma chunk_size_fractions_unit (n file_size k0 : Z) (len : nat) :
  (0 < file_size)%Z → (0 ≤ n)%Z → (0 ≤ k0)%Z →
  Forall (λ q, (0 <= q)%Q ∧ (q <= 1)%Q)
    (chunk_size_fractions n file_size k0 len).
Proof.
  intros Hfs Hn Hk. unfold chunk_size_fractions.
  apply Forall_fmap, Forall_forall. intros k _. simpl.
  apply frac_unit; [done|]. nia.
Qed.

Lemma chunk_size_fractions_sorted (n file_size k0 : Z) (len : nat) :
  (0 < file_size)%Z → (0 ≤ n)%Z →
  Sorted Qle (chunk_size_fractions n file_size k0 len).
Proof.
  intros Hfs Hn. unfold chunk_size_fractions. generalize 1.
  induction len as [|len IH]; intros s; simpl; constructor; [apply IH|].
  destruct len; simpl; constructor.
  apply frac_le; [done|]. nia.
Qed.


(** C5, as the code has it: with a progress function, an integer chunk
    size that is not negative and a response of status 200 with a positive
    content-length, the value passed after the k-th chunk is
    [min(k * chunk_size, content_length) / content_length]; every value
    lies in [0,1] and the sequence does not decrease. *)
Theorem download_progress_fractions (w : world) (url : string)
    (encoding timeout : pyval) (n file_size : Z) (req : response) :
  requests_get w url timeout = Ok req →
  status_code req = 200%Z →
  content_length req = Length file_size →
  (0 < file_size)%Z → (0 ≤ n)%Z →
  let calls :=
    progress_calls (download_file w url encoding (PyInt n) timeout true).1 in
  calls = chunk_size_fractions n file_size 0
            (length (chunks (body req (Some n))))
  ∧ Forall (λ q, (0 <= q)%Q ∧ (q <= 1)%Q) calls
  ∧ Sorted Qle calls.
Proof.
  intros Hget Hst Hcl Hfs Hn calls. unfold calls.
  rewrite (download_progress _ _ _ _ n file_size req) by done.
  split; [done|]. split.
  - by apply chunk_size_fractions_unit.
  - by apply chunk_size_fractions_sorted.
Qed.

(** A server that answers with a compressed body: 40 bytes on the wire,
    read in two chunks that decode to 100 bytes each. *)
Definition x_bytes (n : nat) : bytes := replicate n Byte.x78.

Definition gzip_response : response :=
  Response 200 (Length 40) (λ _, Stream [x_bytes 100; x_bytes 100] None).

Definition no_table : result dataframe := Raise ParserError.

Definition gzip_world : world :=
  {| requests_get := λ _ _, Ok gzip_response;
     decode := λ _ _, Raise LookupError;
     read_csv_buffer := λ _ _, no_table;
     read_csv_url := λ _ _, no_table;
     urlopen_read := λ _, Raise URLError;
     zip_first_member := λ _, Raise IndexError;
     zip_open := λ _ _, Raise URLError;
     read_excel_buffer := λ _ _, no_table;
     read_excel_url := λ _ _, no_table |}.

Lemma download_progress_fractions_witness :
  let calls :=
    progress_calls
      (download_file gzip_world "u" PyNone (PyInt 20) PyNone true).1 in
  calls = chunk_size_fractions 20 40 0
            (length (chunks (body gzip_response (Some 20%Z))))
  ∧ Forall (λ q, (0 <= q)%Q ∧ (q <= 1)%Q) calls
  ∧ Sorted Qle calls.
Proof.
  apply (download_progress_fractions gzip_world "u" PyNone PyNone 20 40
           gzip_response).
  - reflexivity.
  - reflexivity.
  - reflexivity.
  - lia.
  - lia.
Defined.

(** C5 as stated fails: on the compressed body the first call passes
    20/40, not min(100, 40)/40. *)
Lemma progress_counts_chunk_size_not_bytes :
  ¬ Forall2 Qeq
      (progress_calls
         (download_file gzip_world "u" PyNone (PyInt 20) PyNone true).1)
      (bytes_read_fractions 40 0 (chunks (body gzip_response (Some 20%Z)))).
Proof.
  intros H. vm_compute in H.
  inversion H as [|? ? ? ? Hq _]; subst. vm_compute in Hq. discriminate.
Qed.

(** *** [loadCsv] *)

(** [loadCsv] passes 1024 in the position of [encoding]: whatever the
    server answers, [download_file] does not return. *)
Lemma download_file_int_encoding (w : world) (url : string) (n : Z)
    (chunk_size timeout : pyval) (progress_function : bool) (b : buffer) :
  n ≠ 0%Z →
  (download_file w url (PyInt n) chunk_size timeout progress_function).2
  ≠ Ok b.
Proof.
  intros Hn. unfold download_file.
  destruct (requests_get w url timeout) as [req|e]; [|done].
  destruct (negb _); [done|].
  destruct (int_of_header _) as [fs|e]; [|done].
  match goal with
  | |- context [let '(_, _) := ?x in _] => destruct x as [calls [file|e]]
  end; simpl; [|done].
  by rewrite (proj2 (Z.eqb_neq _ _) Hn).
Qed.

(** No call of [loadCsv] parses a downloaded payload. *)
Lemma loadCsv_never_reads_download (w : world)
    (targetFileName apiUrl extension : string) (param_dict : option dict)
    (encoding : pyval) (st : defaults) (kwargs : dict) :
  EvReadCsvBuffer kwargs
  ∉ out_events (loadCsv w targetFileName apiUrl extension param_dict
                  encoding st).
Proof.
  unfold loadCsv, loadCsv_body.
  set (url := apiUrl +:+ targetFileName +:+ extension).
  set (d := fill_defaults _ _).
  pose proof (download_file_int_encoding w url 1024 (getitem d "encoding")
                PyNone true) as Hd.
  assert (Hev : ∀ kw, EvReadCsvBuffer kw
            ∉ (download_file w url (PyInt 1024) (getitem d "encoding")
                 PyNone true).1).
  { intros kw. unfold download_file.
    destruct (requests_get w url PyNone) as [req|e];
      [|by intros ?%list_elem_of_singleton].
    destruct (negb _); [by intros ?%list_elem_of_singleton|].
    destruct (int_of_header _) as [fs|e];
      [|by intros ?%list_elem_of_singleton].
    match goal with
    | |- context [let '(_, _) := ?x in _] => destruct x as [calls file]
    end. simpl. intros [?|(q & ? & _)%list_elem_of_fmap]%elem_of_cons; done. }
  destruct (download_file w url (PyInt 1024) _ PyNone true) as [ev [f|e]].
  { by destruct (Hd f). }
  simpl in Hev.
  assert (Hgoal : ∀ ev' r,
            (let '(ev0, df) :=
               (if is_RequestException e
                then (ev ++ [EvReadCsvUrl url d], read_csv_url w url d)
                else (ev, Raise e)) in (ev0, not_found url df)) = (ev', r) →
            EvReadCsvBuffer kwargs ∉ ev').
  { intros ev' r. destruct (is_RequestException e); intros [= <- _];
      [|apply Hev].
    intros [?|?%list_elem_of_singleton]%elem_of_app; [by eapply Hev|done]. }
  destruct (let '(ev0, df) := _ in (ev0, not_found url df)) as [ev' r] eqn:E.
  destruct param_dict; simpl; by eapply Hgoal.
Qed.

Definition table_ab : dataframe := [("a", Int64 [1%Z]); ("b", Int64 [2%Z])].

(** A server that delivers three bytes with their length, and readers
    that parse them. *)
Definition ok_world : world :=
  {| requests_get := λ _ _,
       Ok (Response 200 (Length 3) (λ _, Stream [x_bytes 3] None));
     decode := λ _ _, Raise LookupError;
     read_csv_buffer := λ _ _, Ok table_ab;
     read_csv_url := λ _ _, Ok table_ab;
     urlopen_read := λ _, Raise URLError;
     zip_first_member := λ _, Raise IndexError;
     zip_open := λ _ _, Raise URLError;
     read_excel_buffer := λ _ _, no_table;
     read_excel_url := λ _ _, no_table |}.

(** C4: where the download succeeds, [loadCsv] does not return the parse
    of the payload: it raises [TypeError] out of [download_file] (the
    chunk size it receives is [None]) and makes no fallback request. *)
Theorem loadCsv_successful_download_raises :
  let o := loadCsv ok_world "item" "https://opendata.arcgis.com/datasets/"
             ".csv" None PyNone fresh in
  out_result o = Raise TypeError
  ∧ out_events o
    = [EvGet "https://opendata.arcgis.com/datasets/item.csv"].
Proof. vm_compute. done. Qed.

(** The dictionary that a call without [param_dict] reads its options
    from: the default-argument object, completed in place. *)
Definition csv_kwargs (encoding : pyval) (st : defaults) : dict :=
  fill_defaults [("sep", PyStr ","); ("header", PyInt 0);
                 ("encoding", encoding); ("dtype", PyNone)]
    (loadCsv_param_dict st).

Lemma loadCsv_leaves_kwargs (w : world)
    (targetFileName apiUrl extension : string) (encoding : pyval)
    (st : defaults) :
  out_defaults (loadCsv w targetFileName apiUrl extension None encoding st)
  = Defaults (csv_kwargs encoding st) (loadExcel_param_dict st).
Proof. unfold loadCsv. by destruct (loadCsv_body _ _ _). Qed.

(** The fallback: a request error out of the download (no connection, a
    status other than 200, a broken stream) leads to exactly one direct
    read of the URL, whose result is returned, an [OSError] from it
    becoming the not-found error that names the URL. *)
Lemma loadCsv_fallback (w : world) (targetFileName apiUrl extension : string)
    (encoding : pyval) (st : defaults) (ev : list event) (e : exn) :
  let url := apiUrl +:+ targetFileName +:+ extension in
  let o := loadCsv w targetFileName apiUrl extension None encoding st in
  let d := csv_kwargs encoding st in
  download_file w url (PyInt 1024) (getitem d "encoding") PyNone true
  = (ev, Raise e) →
  is_RequestException e = true →
  out_events o = ev ++ [EvReadCsvUrl url d]
  ∧ out_result o = not_found url (read_csv_url w url d).
Proof.
  intros url o d Hdl He. unfold o, loadCsv. fold url.
  change (fill_defaults _ _) with d. unfold loadCsv_body.
  rewrite Hdl. cbv beta iota zeta. rewrite He. done.
Qed.

(** Any other exception out of the download leaves [loadCsv] without a
    second request. *)
Lemma loadCsv_no_fallback (w : world)
    (targetFileName apiUrl extension : string)
    (encoding : pyval) (st : defaults) (ev : list event) (e : exn) :
  let url := apiUrl +:+ targetFileName +:+ extension in
  let o := loadCsv w targetFileName apiUrl extension None encoding st in
  let d := csv_kwargs encoding st in
  download_file w url (PyInt 1024) (getitem d "encoding") PyNone true
  = (ev, Raise e) →
  is_RequestException e = false →
  out_events o = ev ∧ out_result o = not_found url (Raise e).
Proof.
  intros url o d Hdl He. unfold o, loadCsv. fold url.
  change (fill_defaults _ _) with d. unfold loadCsv_body.
  rewrite Hdl. cbv beta iota zeta. rewrite He. done.
Qed.

Lemma download_file_status (w : world) (url : string)
    (encoding chunk_size timeout : pyval) (progress_function : bool)
    (req : response) :
  requests_get w url timeout = Ok req → status_code req ≠ 200%Z →
  download_file w url encoding chunk_size timeout progress_function
  = ([EvGet url],
     Raise (HTTPError ("HTTPError: " +:+ str_of_Z (status_code req)))).
Proof.
  intros Hget Hst. unfold download_file. rewrite Hget.
  by rewrite (proj2 (Z.eqb_neq _ _) Hst).
Qed.

(** A server that answers 404 to every request. *)
Definition missing_world : world :=
  {| requests_get := λ _ _,
       Ok (Response 404 Missing (λ _, Stream [] None));
     decode := λ _ _, Raise LookupError;
     read_csv_buffer := λ _ _, no_table;
     read_csv_url := λ _ _, Raise URLError;
     urlopen_read := λ _, Raise URLError;
     zip_first_member := λ _, Raise IndexError;
     zip_open := λ _ _, Raise URLError;
     read_excel_buffer := λ _ _, no_table;
     read_excel_url := λ _ _, Raise URLError |}.

Example loadCsv_not_found :
  let o := loadCsv missing_world "item" "https://opendata.arcgis.com/datasets/"
             ".csv" None PyNone fresh in
  out_result o
  = Raise (FileNotFoundError
             "ERROR: URL https://opendata.arcgis.com/datasets/item.csv could not be opened.")
  ∧ omap (λ e, match e with
               | EvReadCsvUrl u _ => Some u
               | _ => None
               end) (out_events o)
    = ["https://opendata.arcgis.com/datasets/item.csv"].
Proof. vm_compute. done. Qed.

Lemma not_found_names_url (url : string) (e : exn) :
  is_OSError e = true →
  not_found url (Raise e)
  = Raise (FileNotFoundError ("ERROR: URL " +:+ url +:+ " could not be opened.")).
Proof. intros He. unfold not_found. by rewrite He. Qed.


(** *** The default-argument dictionary of [loadCsv] *)

Lemma fill_defaults_keeps (l : list (string * pyval)) (d : dict)
    (k : string) (v : pyval) :
  d !! k = Some v → fill_defaults l d !! k = Some v.
Proof.
  unfold fill_defaults. revert d.
  induction l as [|[k' v'] l IH]; intros d Hd; simpl; [done|].
  apply IH. destruct (d !! k') eqn:E; [done|].
  rewrite lookup_insert_ne; [done|]. intros ->. congruence.
Qed.

Lemma csv_kwargs_encoding_fresh (encoding : pyval) (st : defaults) :
  loadCsv_param_dict st !! "encoding" = None →
  csv_kwargs encoding st !! "encoding" = Some encoding.
Proof.
  intros H. unfold csv_kwargs, fill_defaults. simpl.
  apply (fill_defaults_keeps [("dtype", PyNone)]).
  repeat match goal with
         | |- context [match ?d !! ?k with _ => _ end] =>
             destruct (d !! k) eqn:?
         end; simplify_map_eq; done.
Qed.

(** The encoding of one call without [param_dict] is the encoding that
    every later such call reads with, whatever encoding it is given. *)
Lemma loadCsv_encoding_sticks (w : world) (t1 api1 ext1 : string)
    (enc1 enc2 : pyval) (st : defaults) :
  loadCsv_param_dict st !! "encoding" = None →
  let st1 := out_defaults (loadCsv w t1 api1 ext1 None enc1 st) in
  csv_kwargs enc2 st1 !! "encoding" = Some enc1.
Proof.
  intros H st1. unfold st1. rewrite loadCsv_leaves_kwargs.
  unfold csv_kwargs at 1. apply fill_defaults_keeps. simpl.
  by apply csv_kwargs_encoding_fresh.
Qed.

Definition table_utf8 : dataframe := [("name", Object [PyStr "Göttingen"])].
Definition table_latin : dataframe := [("name", Object [PyStr "GÃ¶ttingen"])].

(** A resource that only the direct read reaches and whose text depends on
    the encoding it is read with. *)
Definition codec_world : world :=
  {| requests_get := λ _ _, Raise ConnectionError;
     decode := λ _ _, Raise LookupError;
     read_csv_buffer := λ _ _, no_table;
     read_csv_url := λ _ kwargs,
       if bool_decide (getitem kwargs "encoding" = PyStr "latin-1")
       then Ok table_latin else Ok table_utf8;
     urlopen_read := λ _, Raise URLError;
     zip_first_member := λ _, Raise IndexError;
     zip_open := λ _ _, Raise URLError;
     read_excel_buffer := λ _ _, no_table;
     read_excel_url := λ _ _, Ok table_ab |}.

(** C9: a call of [loadCsv] with default arguments does not behave as in
    a fresh process when an earlier call was given an encoding: it reads
    with that encoding instead of none. *)
Theorem loadCsv_second_call_depends_on_first :
  let api := "https://opendata.arcgis.com/datasets/" in
  let first :=
    loadCsv codec_world "a" api ".csv" None (PyStr "latin-1") fresh in
  let second := loadCsv codec_world "b" api ".csv" None PyNone
                  (out_defaults first) in
  let alone := loadCsv codec_world "b" api ".csv" None PyNone fresh in
  out_result second = Ok table_latin
  ∧ out_result alone = Ok table_utf8
  ∧ csv_kwargs PyNone (out_defaults first) !! "encoding"
    = Some (PyStr "latin-1")
  ∧ csv_kwargs PyNone fresh !! "encoding" = Some PyNone.
Proof. vm_compute. done. Qed.

(** [loadExcel] completes its default-argument dictionary with constants
    only: a call after a call behaves as in a fresh process. *)
Lemma loadExcel_second_call_independent (w : world)
    (t1 api1 ext1 t2 api2 ext2 : string) :
  let st1 := out_defaults (loadExcel w t1 api1 ext1 None fresh) in
  out_events (loadExcel w t2 api2 ext2 None st1)
  = out_events (loadExcel w t2 api2 ext2 None fresh)
  ∧ out_result (loadExcel w t2 api2 ext2 None st1)
    = out_result (loadExcel w t2 api2 ext2 None fresh).
Proof.
  intros st1.
  assert (H : fill_defaults
                [("sheet_name", PyInt 0); ("header", PyInt 0);
                 ("engine", PyStr "openpyxl")] (loadExcel_param_dict st1)
              = fill_defaults
                [("sheet_name", PyInt 0); ("header", PyInt 0);
                 ("engine", PyStr "openpyxl")] (loadExcel_param_dict fresh)).
  { unfold st1, loadExcel. destruct (loadExcel_body _ _ _ _). simpl.
    by vm_compute. }
  unfold loadExcel. simpl. simpl in H. rewrite H.
  by destruct (loadExcel_body _ _ _ _).
Qed.

End FetchFacts.

(** ** Writer *)

Module WriterFacts.
Import FS Writer.

Local Arguments write_file : simpl never.
Local Arguments coerce_date_column : simpl never.

Definition supported : list string :=
  ["json"; "json_timeasstring"; "hdf5"; "txt"].

(** C6: a format outside json, json_timeasstring, hdf5 and txt makes
    [write_dataframe] raise the error that names the format and the
    allowed ones, and the file system and the table stay as they were. *)
Theorem write_dataframe_unsupported (df : dataframe) (directory : path)
    (file_prefix file_type : string) (param_dict : dict) (fs : filesystem) :
  file_type ∉ supported →
  write_dataframe df directory file_prefix file_type param_dict fs
  = Written fs df
      (Raise (ValueError
                ("Error: The file format: " +:+ file_type +:+
                 " does not exist. Use json, json_timeasstring, hdf5 or txt."))).
Proof.
  intros H. unfold supported in H.
  rewrite !not_elem_of_cons in H. destruct H as (H1 & H2 & H3 & H4 & _).
  unfold write_dataframe, outForm, assoc.
  by rewrite !(proj2 (String.eqb_neq _ _)) by done.
Qed.

Lemma write_dataframe_unsupported_witness :
  write_dataframe [] ["data"; "Germany"] "cases" "xml" ∅ ∅
  = Written ∅ []
      (Raise (ValueError
                ("Error: The file format: " +:+ "xml" +:+
                 " does not exist. Use json, json_timeasstring, hdf5 or txt."))).
Proof.
  apply (write_dataframe_unsupported [] ["data"; "Germany"] "cases" "xml" ∅ ∅).
  by apply (bool_decide_unpack _).
Defined.

(** *** Directories *)

Lemma makedirs_from_spec (rest pre : path) (fs : filesystem) :
  (∀ q c, q `prefix_of` rest → q ≠ [] → fs !! (pre ++ q) ≠ Some (File c)) →
  ∃ fs', makedirs_from pre rest fs = Ok fs'
    ∧ (∀ q, q `prefix_of` rest → q ≠ [] → fs' !! (pre ++ q) = Some Dir)
    ∧ (∀ p, fs !! p = Some Dir → fs' !! p = Some Dir).
Proof.
  revert pre fs. induction rest as [|c rest IH]; intros pre fs Hf; simpl.
  { exists fs. split; [done|]. split; [|done].
    intros q Hq%prefix_nil_inv. done. }
  assert (Hnext : ∀ fs1, (∀ p, fs1 !! p = fs !! p ∨ fs1 !! p = Some Dir) →
            fs1 !! (pre ++ [c]) = Some Dir →
            (∀ p, fs !! p = Some Dir → fs1 !! p = Some Dir) →
            ∃ fs', makedirs_from (pre ++ [c]) rest fs1 = Ok fs'
              ∧ (∀ q, q `prefix_of` c :: rest → q ≠ [] →
                   fs' !! (pre ++ q) = Some Dir)
              ∧ (∀ p, fs !! p = Some Dir → fs' !! p = Some Dir)).
  { intros fs1 H1 Hp Hmono.
    destruct (IH (pre ++ [c]) fs1) as (fs' & Hm & Hd & Hk).
    - intros q c' Hq Hne. rewrite <- app_assoc. simpl.
      destruct (H1 (pre ++ c :: q)) as [-> | ->]; [|done].
      apply Hf; [|done]. by apply prefix_cons.
    - exists fs'. split; [done|]. split; [|by auto].
      intros [|c' q] Hq Hne; [done|].
      pose proof (prefix_cons_inv_1 _ _ _ _ Hq) as ->.
      apply prefix_cons_inv_2 in Hq.
      destruct q as [|c'' q].
      + by apply Hk.
      + specialize (Hd (c'' :: q) Hq). rewrite <- app_assoc in Hd.
        by apply Hd. }
  destruct (fs !! (pre ++ [c])) as [[|c0]|] eqn:E.
  - apply Hnext; auto.
  - exfalso. eapply (Hf [c]); [|done|exact E].
    apply prefix_cons, prefix_nil.
  - apply Hnext.
    + intros p. destruct (decide (p = pre ++ [c])) as [->|Hne].
      * right. apply lookup_insert_eq.
      * left. by apply lookup_insert_ne.
    + apply lookup_insert_eq.
    + intros p Hp. rewrite lookup_insert_ne; [done|]. congruence.
Qed.

(** [check_dir] on a path of which no component is a regular file: the
    directory exists afterwards, and so do its parents when it had to be
    created. *)
Lemma check_dir_spec (directory : path) (fs : filesystem) :
  (∀ q c, q `prefix_of` directory → fs !! q ≠ Some (File c)) →
  ∃ fs', check_dir directory fs = Ok fs'
    ∧ is_dir fs' directory = true
    ∧ (path_exists fs directory = true → fs' = fs)
    ∧ (path_exists fs directory = false →
         ∀ q, q `prefix_of` directory → is_dir fs' q = true).
Proof.
  intros Hf. unfold check_dir.
  destruct (path_exists fs directory) eqn:E; simpl.
  - exists fs. split; [done|]. split; [|by split].
    unfold path_exists in E. unfold is_dir. destruct directory; [done|].
    apply bool_decide_eq_true_1 in E as [[|c] Hx]; rewrite Hx; [done|].
    exfalso. by eapply Hf.
  - unfold makedirs. rewrite E.
    destruct (makedirs_from_spec directory [] fs) as (fs' & Hm & Hd & _).
    { intros q c Hq _. by apply Hf. }
    exists fs'. split; [done|].
    assert (Hall : ∀ q, q `prefix_of` directory → is_dir fs' q = true).
    { intros [|c q] Hq; [done|]. unfold is_dir.
      specialize (Hd _ Hq). simpl in Hd. by rewrite Hd. }
    split; [by apply Hall|]. by split.
Qed.

Lemma write_file_needs_directory (directory : path) (name : string)
    (c : content) (fs : filesystem) :
  is_dir fs directory = false →
  write_file directory name c fs = Raise NoSuchDirectory.
Proof. intros H. unfold write_file. by rewrite H. Qed.

Lemma write_file_in_directory (directory : path) (name : string)
    (c : content) (fs : filesystem) :
  is_dir fs directory = true →
  write_file directory name c fs ≠ Raise NoSuchDirectory.
Proof.
  intros H. unfold write_file. rewrite H. simpl.
  by destruct (fs !! _) as [[|]|].
Qed.

Lemma coerce_date_column_raises (df : dataframe) (e : exn) :
  coerce_date_column df = Raise e →
  e = IndexError ∨ ∃ msg, e = AttributeError msg.
Proof.
  unfold coerce_date_column, coerce_dates, first_is_str, dt_strftime.
  destruct (column EngEng_date df); [|done].
  destruct (column "Date" df) as [col|]; [|intros [= <-]; eauto].
  destruct col as [[|? ?]|[|[] ?]|[|? ?]]; simpl; intros [= <-]; eauto.
Qed.

(** [write_dataframe] creates no directory: without the target directory
    it fails and leaves the file system as it was. *)
Lemma write_dataframe_no_directory (df : dataframe) (directory : path)
    (file_prefix file_type : string) (param_dict : dict) (fs : filesystem) :
  file_type ∈ supported → is_dir fs directory = false →
  let w := write_dataframe df directory file_prefix file_type param_dict fs in
  w_fs w = fs ∧ w_result w ≠ Ok ().
Proof.
  intros Hft Hd. unfold supported in Hft.
  rewrite !elem_of_cons in Hft.
  destruct Hft as [->|[->|[->|[->|Hft]]]]; [| | | |by apply elem_of_nil in Hft];
    unfold write_dataframe; simpl;
    try (destruct (coerce_date_column df); [|done]);
    by rewrite write_file_needs_directory.
Qed.

(** C7, as the code has it: [write_dataframe] does not create the target
    directory; [check_dir], which the callers run first, creates it with
    its missing parents, and a [write_dataframe] after it does not fail
    for lack of the directory. *)
Theorem check_dir_then_write_dataframe (df : dataframe) (directory : path)
    (file_prefix file_type : string) (param_dict : dict) (fs : filesystem) :
  file_type ∈ supported →
  (∀ q c, q `prefix_of` directory → fs !! q ≠ Some (File c)) →
  ∃ fs', check_dir directory fs = Ok fs'
    ∧ is_dir fs' directory = true
    ∧ (path_exists fs directory = false →
         ∀ q, q `prefix_of` directory → is_dir fs' q = true)
    ∧ w_result (write_dataframe df directory file_prefix file_type
                  param_dict fs') ≠ Raise NoSuchDirectory
    ∧ (is_dir fs directory = false →
         let w := write_dataframe df directory file_prefix file_type
                    param_dict fs in
         w_fs w = fs ∧ w_result w ≠ Ok ()).
Proof.
  intros Hft Hf.
  destruct (check_dir_spec directory fs Hf) as (fs' & Hc & Hd & _ & Hp).
  exists fs'. split; [done|]. split; [done|]. split; [done|]. split.
  - unfold supported in Hft. rewrite !elem_of_cons in Hft.
    pose proof (write_file_in_directory directory) as Hw.
    destruct Hft as [->|[->|[->|[->|Hft]]]];
      [| | | |by apply elem_of_nil in Hft];
      unfold write_dataframe; simpl;
      try (destruct (coerce_date_column df) eqn:E;
           [|by apply coerce_date_column_raises in E as [-> | [? ->]]]);
      match goal with
      | |- context [write_file ?d ?n ?c ?f] =>
          specialize (Hw n c f Hd); destruct (write_file d n c f)
      end; simpl; congruence.
  - intros Hno. by apply write_dataframe_no_directory.
Qed.

Lemma check_dir_then_write_dataframe_witness :
  ∃ fs', check_dir ["data"; "Germany"] ∅ = Ok fs'
    ∧ is_dir fs' ["data"; "Germany"] = true
    ∧ (path_exists (∅ : filesystem) ["data"; "Germany"] = false →
         ∀ q, q `prefix_of` ["data"; "Germany"] → is_dir fs' q = true)
    ∧ w_result (write_dataframe [] ["data"; "Germany"] "county_population"
                  "json" ∅ fs') ≠ Raise NoSuchDirectory
    ∧ (is_dir (∅ : filesystem) ["data"; "Germany"] = false →
         let w := write_dataframe [] ["data"; "Germany"] "county_population"
                    "json" ∅ ∅ in
         w_fs w = ∅ ∧ w_result w ≠ Ok ()).
Proof.
  apply (check_dir_then_write_dataframe [] ["data"; "Germany"]
           "county_population" "json" ∅ ∅).
  - by apply (bool_decide_unpack _).
  - intros q c _. by rewrite lookup_empty.
Defined.

(** C7 as stated fails: with the directory missing, [write_dataframe]
    raises and creates nothing. *)
Lemma write_dataframe_creates_no_directory :
  let w := write_dataframe [] ["data"; "Germany"] "county_population"
             "json" ∅ ∅ in
  w_result w = Raise NoSuchDirectory
  ∧ w_fs w = ∅
  ∧ is_dir (w_fs w) ["data"; "Germany"] = false.
Proof. vm_compute. done. Qed.


(** *** The date coercion *)

(** What [strftime] leaves in the place of a Timestamp or of NaT. *)
Definition formatted (o : option datetime) : pyval :=
  match o with
  | Some d => PyStr (strftime_Ymd d)
  | None => PyNaN
  end.

(** The first entry of the column is not a missing Timestamp. *)
Definition first_not_NaT (s : series) : Prop :=
  match s with
  | Datetime64 (None :: _) => False
  | _ => True
  end.

(** Applying the coercion to its own result. *)
Definition coerce_twice (df : dataframe) : result dataframe :=
  do df' <- coerce_date_column df; coerce_date_column df'.

Lemma strftime_Ymd_shape (d : datetime) :
  String.length (strftime_Ymd d) = 10
  ∧ String.get 4 (strftime_Ymd d) = Some "-"%char
  ∧ String.get 7 (strftime_Ymd d) = Some "-"%char.
Proof. done. Qed.

Example strftime_Ymd_sample :
  strftime_Ymd (Datetime 2020 4 24) = "2020-04-24".
Proof. reflexivity. Qed.

Lemma column_set_column (name : string) (s s' : series) (df : dataframe) :
  column name df = Some s → column name (set_column name s' df) = Some s'.
Proof.
  induction df as [|[n s0] df IH]; simpl; [done|].
  destruct (String.eqb n name) eqn:E; simpl; rewrite E; [done|exact IH].
Qed.

Lemma set_column_same (name : string) (s : series) (df : dataframe) :
  column name df = Some s → set_column name s df = df.
Proof.
  induction df as [|[n s0] df IH]; simpl; [done|].
  destruct (String.eqb n name); [by intros [= ->]|].
  intros H. by rewrite IH.
Qed.

Lemma set_column_twice (name : string) (s s' : series) (df : dataframe) :
  set_column name s' (set_column name s df) = set_column name s' df.
Proof.
  induction df as [|[n s0] df IH]; simpl; [done|].
  destruct (String.eqb n name) eqn:E; simpl; rewrite E; [done|].
  by rewrite IH.
Qed.

Lemma coerce_date_column_eq (df : dataframe) (s : series) :
  column "Date" df = Some s →
  coerce_date_column df
  = (do s' <- coerce_dates s; Ok (set_column "Date" s' df)).
Proof. intros H. unfold coerce_date_column, EngEng_date. by rewrite H. Qed.

Lemma coerce_dates_idempotent (s s' : series) :
  first_not_NaT s → coerce_dates s = Ok s' → coerce_dates s' = Ok s'.
Proof.
  unfold coerce_dates, first_is_str, dt_strftime.
  destruct s as [[|[d|] vals]|[|[] vals]|[|z vals]]; simpl;
    try done; intros _ [= <-]; done.
Qed.

(** C8, as the code has it: on a table with a Date column, a
    datetime-typed column that is not empty is replaced by the column of
    the ISO strings of its Timestamps; a column whose first value is a
    string passes through unchanged; and when the first Date value is not
    a missing Timestamp, coercing twice gives what coercing once gives. *)
Theorem coerce_date_column_idempotent (df : dataframe) (s : series) :
  column "Date" df = Some s →
  (∀ vals, s = Datetime64 vals → vals ≠ [] →
     coerce_date_column df
     = Ok (set_column "Date" (Object (formatted <$> vals)) df))
  ∧ (∀ v vals, s = Object (PyStr v :: vals) → coerce_date_column df = Ok df)
  ∧ (first_not_NaT s → coerce_twice df = coerce_date_column df).
Proof.
  intros Hs. split; [|split].
  - intros vals -> Hne. rewrite (coerce_date_column_eq _ _ Hs).
    by destruct vals.
  - intros v vals ->. rewrite (coerce_date_column_eq _ _ Hs). simpl.
    by rewrite set_column_same.
  - intros Hfirst. unfold coerce_twice.
    rewrite (coerce_date_column_eq _ _ Hs).
    destruct (coerce_dates s) as [s'|e] eqn:E; [|done]. simpl.
    rewrite (coerce_date_column_eq _ s') by (by eapply column_set_column).
    rewrite (coerce_dates_idempotent s s') by done. simpl.
    by rewrite set_column_twice.
Qed.

Definition dated_table : dataframe :=
  [("Date", Datetime64 [Some (Datetime 2020 4 24); None;
                        Some (Datetime 2021 12 1)]);
   ("Confirmed", Int64 [5; 7; 11]%Z)].

Lemma coerce_date_column_idempotent_witness :
  (∀ vals,
     Datetime64 [Some (Datetime 2020 4 24); None; Some (Datetime 2021 12 1)]
     = Datetime64 vals → vals ≠ [] →
     coerce_date_column dated_table
     = Ok (set_column "Date" (Object (formatted <$> vals)) dated_table))
  ∧ (∀ v vals,
       Datetime64 [Some (Datetime 2020 4 24); None;
                   Some (Datetime 2021 12 1)]
       = Object (PyStr v :: vals) →
       coerce_date_column dated_table = Ok dated_table)
  ∧ (first_not_NaT
       (Datetime64 [Some (Datetime 2020 4 24); None;
                    Some (Datetime 2021 12 1)]) →
     coerce_twice dated_table = coerce_date_column dated_table).
Proof.
  apply (coerce_date_column_idempotent dated_table).
  reflexivity.
Defined.

Example coerce_dated_table :
  coerce_date_column dated_table
  = Ok [("Date", Object [PyStr "2020-04-24"; PyNaN; PyStr "2021-12-01"]);
        ("Confirmed", Int64 [5; 7; 11]%Z)].
Proof. reflexivity. Qed.

(** A datetime-typed Date column whose first entry is NaT. *)
Definition nat_first_table : dataframe :=
  [("Date", Datetime64 [None; Some (Datetime 2020 4 24)])].

(** C8 as stated fails: the first coercion puts NaN in the first place,
    the second looks for [.dt] on the resulting object column. *)
Lemma coerce_twice_differs :
  coerce_date_column nat_first_table
  = Ok [("Date", Object [PyNaN; PyStr "2020-04-24"])]
  ∧ coerce_twice nat_first_table
    = Raise (AttributeError
               "Can only use .dt accessor with datetimelike values")
  ∧ coerce_twice nat_first_table ≠ coerce_date_column nat_first_table.
Proof. done. Qed.

End WriterFacts.

(** ** Cleanup: the command line *)

Module CleanupFacts.
Import FS Cleanup.

(** The attribute names that [cli] registers. *)
Lemma cli_dests (out_path_default : string) :
  dest <$> cli_arguments out_path_default
  = ["all"; "rki"; "john_hopkins"; "spain"; "population"; "hdf5"; "out_path"].
Proof. reflexivity. Qed.

Lemma initial_namespace_keys (args : list argument) (k : string) :
  is_Some (initial_namespace args !! k) → k ∈ dest <$> args.
Proof.
  unfold initial_namespace.
  assert (H : ∀ ns : dict,
            is_Some (foldl (λ ns a, match ns !! dest a with
                                    | None => <[dest a := default_of a]> ns
                                    | Some _ => ns
                                    end) ns args !! k) →
            is_Some (ns !! k) ∨ k ∈ dest <$> args).
  { induction args as [|a args IH]; intros ns; simpl; [by left|].
    intros [Hk|Hk]%IH; [|right; apply elem_of_cons; by right].
    destruct (ns !! dest a) eqn:E; [by left|].
    destruct (decide (dest a = k)) as [<-|Hne].
    - right. apply elem_of_cons. by left.
    - left. by rewrite lookup_insert_ne in Hk. }
  intros [Hk|Hk]%H; [|done]. rewrite lookup_empty in Hk. by destruct Hk.
Qed.

(** Every attribute of a parsed namespace is the [dest] of an argument. *)
Lemma parse_args_keys (m : matcher) (args : list argument)
    (argv : list string) (ns : dict) (k : string) :
  parse_args m args argv = Ok ns → is_Some (ns !! k) → k ∈ dest <$> args.
Proof.
  unfold parse_args. destruct (m args argv) as [fired|e]; [|done].
  simpl. intros [= <-].
  assert (H : ∀ ns0 : dict,
            is_Some (foldl (λ ns f, match args !! f.1 with
                                    | Some a => <[dest a := f.2]> ns
                                    | None => ns
                                    end) ns0 fired !! k) →
            is_Some (ns0 !! k) ∨ k ∈ dest <$> args).
  { induction fired as [|f fired IH]; intros ns0; simpl; [by left|].
    intros [Hk|Hk]%IH; [|by right].
    destruct (args !! f.1) as [a|] eqn:E; [|by left].
    destruct (decide (dest a = k)) as [<-|Hne].
    - right. apply list_elem_of_fmap_2. by eapply list_elem_of_lookup_2.
    - left. by rewrite lookup_insert_ne in Hk. }
  intros [Hk|Hk]%H; [|done]. by apply initial_namespace_keys.
Qed.

Lemma namespace_has_no_all_data (m : matcher) (out_path_default : string)
    (argv : list string) (ns : dict) :
  parse_args m (cli_arguments out_path_default) argv = Ok ns →
  ns !! "all_data" = None.
Proof.
  intros H. destruct (ns !! "all_data") eqn:E; [|done]. exfalso.
  assert (Hk : "all_data" ∈ dest <$> cli_arguments out_path_default).
  { eapply parse_args_keys; [exact H|]. by rewrite E. }
  rewrite cli_dests in Hk. revert Hk. by apply (bool_decide_unpack _).
Qed.

(** C10: [cli] never returns.  When argparse accepts the command line,
    reading [args.all_data] raises [AttributeError]; otherwise the exit of
    the parser propagates.  [main] therefore ends with an exception and
    the file system as it was: [clean_data] is not reached. *)
Theorem cli_raises_AttributeError (m : matcher) (out_path_default : string)
    (argv : list string) :
  (∀ ns, parse_args m (cli_arguments out_path_default) argv = Ok ns →
     cli m out_path_default argv
     = Raise (AttributeError
                "'Namespace' object has no attribute 'all_data'"))
  ∧ (∀ e, parse_args m (cli_arguments out_path_default) argv = Raise e →
       cli m out_path_default argv = Raise e)
  ∧ (∀ fs, ∃ e, main m out_path_default argv fs = (fs, Raise e)).
Proof.
  assert (H1 : ∀ ns,
            parse_args m (cli_arguments out_path_default) argv = Ok ns →
            cli m out_path_default argv
            = Raise (AttributeError
                       "'Namespace' object has no attribute 'all_data'")).
  { intros ns H. unfold cli. rewrite H. simpl. unfold getattr at 1.
    by rewrite (namespace_has_no_all_data _ _ _ _ H). }
  assert (H2 : ∀ e,
            parse_args m (cli_arguments out_path_default) argv = Raise e →
            cli m out_path_default argv = Raise e).
  { intros e H. unfold cli. by rewrite H. }
  split; [done|]. split; [done|].
  intros fs. unfold main.
  destruct (parse_args m (cli_arguments out_path_default) argv) as [ns|e] eqn:E.
  - rewrite (H1 ns eq_refl). eauto.
  - rewrite (H2 e eq_refl). eauto.
Qed.

Example parse_all_flag :
  parse_args exact_matcher (cli_arguments "data") ["-a"]
  = Ok (<["all" := PyBool true]> (initial_namespace (cli_arguments "data"))).
Proof. reflexivity. Qed.

Example cli_all_flag :
  cli exact_matcher "data" ["--all"; "-o"; "out"]
  = Raise (AttributeError "'Namespace' object has no attribute 'all_data'").
Proof. vm_compute. reflexivity. Qed.

Example cli_unknown_flag :
  cli exact_matcher "data" ["--everything"] = Raise (SystemExit 2).
Proof. vm_compute. reflexivity. Qed.

(** What [clean_data] would do if it were reached: the selection of the
    RKI family removes the matching file only, and the directory stays. *)
Definition sample_tree : filesystem :=
  <[["data"; "Germany"; "123_rki.json"] := File (Json ∅ [])]>
  (<[["data"; "Germany"; "other.json"] := File (Json ∅ [])]>
  (<[["data"; "Germany"] := Dir]> (<[["data"] := Dir]> ∅))).

Example clean_data_rki :
  clean_data (PyBool false) (PyBool true) (PyBool false) (PyBool false)
    (PyBool false) (PyBool false) ["data"] sample_tree
  = (delete ["data"; "Germany"; "123_rki.json"] sample_tree, Ok ()).
Proof. vm_compute. reflexivity. Qed.

End CleanupFacts.

(** ** More on [get_new_counties] *)

Module CountiesMore.
Import Counties CountiesFacts.
















Lemma get_new_counties_ncols (m : ndarray) (out : list row) :
  get_new_counties m = Ok out → ncols m ≠ 0.
Proof.
  intros Hout H0. unfold get_new_counties in Hout.
  by rewrite bool_decide_eq_true_2 in Hout.
Qed.

(** An array without columns has no key column to write to: the call
    raises [IndexError].  Any other array gives at least the seven new
    rows, and every row of the result has the width of the input. *)
Theorem get_new_counties_returns (m : ndarray) :
  wf_ndarray m →
  (ncols m = 0 → get_new_counties m = Raise IndexError)
  ∧ (ncols m ≠ 0 →
       ∃ out, get_new_counties m = Ok out
         ∧ 7 ≤ length out
         ∧ Forall (λ r : row, length r = ncols m) out).
Proof.
  intros Hwf. split.
  - intros H0. unfold get_new_counties. by rewrite bool_decide_eq_true_2.
  - intros Hn.
    destruct (get_new_counties_shape m Hwf Hn) as (out & Hout & _ & Hw).
    destruct (get_new_counties_spec m Hn) as (out' & Hout' & Hperm & _).
    assert (out' = out) as -> by congruence.
    destruct (fold_acc_rows_inv (rows m) (successor_rows (ncols m))) as [HL _].
    exists out. split; [done|]. split; [|done].
    rewrite (Permutation_length Hperm), length_app, HL. simpl. lia.
Qed.

Lemma get_new_counties_returns_witness :
  (3 = 0 →
   get_new_counties (NdArray 3 [[3156; 5; 8]; [1001; 1; 2]]%Z)
   = Raise IndexError)
  ∧ (3 ≠ 0 →
       ∃ out, get_new_counties (NdArray 3 [[3156; 5; 8]; [1001; 1; 2]]%Z)
              = Ok out
         ∧ 7 ≤ length out
         ∧ Forall (λ r : row, length r = 3) out).
Proof.
  apply (get_new_counties_returns (NdArray 3 [[3156; 5; 8]; [1001; 1; 2]]%Z)).
  repeat constructor.
Defined.

(** Which rows the result holds: every input row whose key is no
    predecessor key, a row for each of the seven successor keys, no row
    of a predecessor key, and nothing else. *)
Theorem get_new_counties_rows (m : ndarray) (out : list row) :
  get_new_counties m = Ok out →
  (∀ r, r ∈ rows m → row_key r ∉ predecessor_keys → r ∈ out)
  ∧ (∀ k, k ∈ successor_keys → ∃ r, r ∈ out ∧ row_key r = k)
  ∧ (∀ r, r ∈ out → row_key r ∉ predecessor_keys)
  ∧ (∀ r, r ∈ out → r ∈ rows m ∨ row_key r ∈ successor_keys).
Proof.
  intros Hout. pose proof (get_new_counties_ncols m out Hout) as Hn.
  destruct (get_new_counties_spec m Hn) as (out' & Hout' & Hperm & _).
  assert (out' = out) as -> by congruence.
  destruct (fold_acc_rows_inv (rows m) (successor_rows (ncols m))) as [_ HK].
  rewrite keys_successor_rows in HK.
  split; [|split; [|split]].
  - intros r Hr Hp. rewrite Hperm. apply elem_of_app. left.
    by apply list_elem_of_filter.
  - intros k Hk. rewrite <- HK in Hk.
    apply list_elem_of_fmap in Hk as (r & -> & Hr).
    exists r. split; [|done]. rewrite Hperm. apply elem_of_app. by right.
  - intros r Hr. rewrite Hperm in Hr.
    apply elem_of_app in Hr as [[Hp _]%list_elem_of_filter|Hr]; [done|].
    by apply (proj1 (Forall_forall _ _) (keys_not_pred _ HK)).
  - intros r Hr. rewrite Hperm in Hr.
    apply elem_of_app in Hr as [[_ Hr]%list_elem_of_filter|Hr]; [by left|].
    right. rewrite <- HK. by apply list_elem_of_fmap_2.
Qed.

Lemma get_new_counties_rows_witness :
  let out := [[1001; 1; 2]; [3159; 15; 28]; [13071; 0; 0]; [13072; 0; 0];
              [13073; 0; 0]; [13074; 0; 0]; [13075; 0; 0]; [13076; 0; 0]]%Z in
  let input := [[3156; 5; 8]; [1001; 1; 2]; [3152; 10; 20]]%Z in
  (∀ r, r ∈ input → row_key r ∉ predecessor_keys → r ∈ out)
  ∧ (∀ k, k ∈ successor_keys → ∃ r, r ∈ out ∧ row_key r = k)
  ∧ (∀ r, r ∈ out → row_key r ∉ predecessor_keys)
  ∧ (∀ r, r ∈ out → r ∈ input ∨ row_key r ∈ successor_keys).
Proof.
  apply (get_new_counties_rows
           (NdArray 3 [[3156; 5; 8]; [1001; 1; 2]; [3152; 10; 20]]%Z)).
  vm_compute. reflexivity.
Defined.

(** The function is not idempotent: run on its own result it appends the
    seven rows again, so that the successor keys occur twice. *)
Theorem get_new_counties_twice (m : ndarray) (out : list row) :
  get_new_counties m = Ok out →
  ∃ out2, get_new_counties (NdArray (ncols m) out) = Ok out2
    ∧ length out2 = length out + 7
    ∧ ¬ NoDup (keys out2).
Proof.
  intros Hout. pose proof (get_new_counties_ncols m out Hout) as Hn.
  destruct (get_new_counties_rows m out Hout) as (_ & Hsucc & Hnp & _).
  destruct (get_new_counties_spec (NdArray (ncols m) out) Hn)
    as (out2 & Hout2 & Hperm & _).
  simpl in Hperm.
  rewrite (filter_all (λ r, ¬ is_pred r)) in Hperm
    by (apply Forall_forall; exact Hnp).
  destruct (fold_acc_rows_inv out (successor_rows (ncols m))) as [HL HK].
  rewrite keys_successor_rows in HK.
  exists out2. split; [done|]. split.
  - by rewrite (Permutation_length Hperm), length_app, HL.
  - unfold keys. rewrite Hperm, fmap_app. fold (keys out).
    fold (keys (fold_left acc_rows out (successor_rows (ncols m)))).
    rewrite HK. intros (_ & Hdis & _)%NoDup_app.
    destruct (Hsucc 3159%Z) as (r & Hr & Hk).
    { by apply (bool_decide_unpack _). }
    apply (Hdis 3159%Z).
    + rewrite <- Hk. by apply list_elem_of_fmap_2.
    + by apply (bool_decide_unpack _).
Qed.

Lemma get_new_counties_twice_witness :
  ∃ out2,
    get_new_counties
      (NdArray 2 [[3159; 7]; [13071; 0]; [13072; 0]; [13073; 0];
                  [13074; 0]; [13075; 0]; [13076; 0]]%Z) = Ok out2
    ∧ length out2 = 7 + 7
    ∧ ¬ NoDup (keys out2).
Proof.
  apply (get_new_counties_twice (NdArray 2 [[3152; 7]]%Z)).
  vm_compute. reflexivity.
Defined.

Lemma acc_rows_other (T : list row) (r : row) :
  row_key r ∉ predecessor_keys → acc_rows T r = T.
Proof.
  unfold acc_rows. rewrite pred_in_fusion. generalize fusions. intros fs.
  revert T. induction fs as [|f fs IH]; intros T Hr; simpl; [done|].
  rewrite Exists_cons in Hr.
  rewrite bool_decide_eq_false_2 by tauto. apply IH. tauto.
Qed.

Lemma fold_acc_rows_other (d T : list row) :
  Forall (λ r, row_key r ∉ predecessor_keys) d → fold_left acc_rows d T = T.
Proof.
  induction 1 as [|r d Hr _ IH]; simpl; [done|].
  by rewrite acc_rows_other.
Qed.

(** Without predecessor rows (an empty array included) the result is the
    input and seven rows that hold a successor key and zeros. *)
Theorem get_new_counties_no_predecessor (m : ndarray) :
  ncols m ≠ 0 →
  Forall (λ r, row_key r ∉ predecessor_keys) (rows m) →
  ∃ out, get_new_counties m = Ok out
    ∧ out ≡ₚ rows m
             ++ ((λ k, k :: replicate (ncols m - 1) 0%Z) <$> successor_keys).
Proof.
  intros Hn Hnp.
  destruct (get_new_counties_spec m Hn) as (out & Hout & Hperm & _).
  exists out. split; [done|]. rewrite Hperm.
  rewrite (filter_all (λ r, ¬ is_pred r)) by done.
  by rewrite fold_acc_rows_other.
Qed.

Lemma get_new_counties_no_predecessor_witness :
  ∃ out, get_new_counties (NdArray 2 []) = Ok out
    ∧ out ≡ₚ [] ++ ((λ k, k :: replicate (2 - 1) 0%Z) <$> successor_keys).
Proof.
  apply (get_new_counties_no_predecessor (NdArray 2 [])).
  - simpl. lia.
  - constructor.
Defined.

End CountiesMore.

(** ** More on the rescaling step *)

Module RescaleMore.
Import Counties Rescale RescaleFacts.

(** Of several reference rows with the key of a region the last one
    among the rows read gives the ratio: its population divided by the
    total of the region (column 1). *)
Theorem ratio_last_match (fl : float_ops) (counties : list (county_row fl))
    (r : row) (t : Z) (pre post : list (county_row fl)) (c : county_row fl) :
  take (length counties - 11) counties = pre ++ c :: post →
  key_number c = Some (row_key r) →
  Forall (λ c', key_number c' ≠ Some (row_key r)) post →
  r !! 1 = Some t →
  ratio_of fl counties r = Ok (div fl (population c) (of_int fl t)).
Proof.
  intros Htake Hc Hpost Ht.
  rewrite ratio_of_ok by (apply lookup_lt_Some in Ht; lia).
  unfold ratio_row, ratio_value. rewrite Htake, Ht, fold_left_app. simpl.
  rewrite Hc, bool_decide_eq_true_2 by done.
  f_equal. by apply ratio_fold_unmatched.
Qed.

Definition twelve_rows : list (county_row Q_ops) :=
  [@CountyRow Q_ops (Some 1001%Z) (90 # 1)%Q;
   @CountyRow Q_ops (Some 1001%Z) (120 # 1)%Q;
   @CountyRow Q_ops (Some 1002%Z) (50 # 1)%Q]
  ++ replicate 11 (@CountyRow Q_ops (Some 1003%Z) (70 # 1)%Q).

Lemma ratio_last_match_witness :
  ratio_of Q_ops twelve_rows [1001; 60; 25; 35]%Z
  = Ok (div Q_ops (120 # 1)%Q (of_int Q_ops 60)).
Proof.
  apply (ratio_last_match Q_ops twelve_rows [1001; 60; 25; 35]%Z 60
           [@CountyRow Q_ops (Some 1001%Z) (90 # 1)%Q]
           [@CountyRow Q_ops (Some 1002%Z) (50 # 1)%Q]
           (@CountyRow Q_ops (Some 1001%Z) (120 # 1)%Q)).
  - reflexivity.
  - reflexivity.
  - repeat constructor. discriminate.
  - reflexivity.
Defined.

(** The last eleven rows of the reference table are not read: a region
    whose key occurs only there keeps the ratio 1.0, and so does every
    region when the table has at most eleven rows. *)
Theorem ratio_ignores_last_rows (fl : float_ops)
    (counties : list (county_row fl)) (r : row) :
  2 ≤ length r →
  (∀ i c, counties !! i = Some c → key_number c = Some (row_key r) →
     length counties - 11 ≤ i) →
  ratio_of fl counties r = Ok (one fl).
Proof.
  intros Hr Hlast. rewrite ratio_of_ok by done. f_equal.
  unfold ratio_row, ratio_value. apply ratio_fold_unmatched.
  apply Forall_forall. intros c Hc Hk.
  apply list_elem_of_lookup in Hc as [i Hi].
  apply lookup_take_Some in Hi as [Hi Hlt].
  specialize (Hlast i c Hi Hk). lia.
Qed.

Lemma ratio_ignores_last_rows_witness :
  ratio_of Q_ops twelve_rows [1003; 60; 25; 35]%Z = Ok (one Q_ops).
Proof.
  apply (ratio_ignores_last_rows Q_ops twelve_rows [1003; 60; 25; 35]%Z).
  - simpl. lia.
  - intros i c Hi Hk.
    destruct i as [|[|[|i]]]; simpl in Hi;
      [injection Hi as <-; discriminate Hk ..|].
    simpl. lia.
Defined.

(** The step returns exactly on arrays that are not empty and have the
    thirteen columns of the output tables; on an empty array it raises
    [IndexError]. *)
Theorem rescale_returns_iff (fl : float_ops)
    (counties : list (county_row fl)) (data : list row) :
  ((∃ res, rescale fl counties data = Ok res)
   ↔ data ≠ [] ∧ Forall (λ r : row, length r = 13) data)
  ∧ (data = [] → rescale fl counties data = Raise IndexError).
Proof.
  split; [split|].
  - intros [res Hres]. unfold rescale in Hres.
    destruct (for_each (ratio_of fl counties) data) as [ratio|]; [|done].
    simpl in Hres. case_bool_decide as Hne; [done|]. simpl in Hres.
    split; [done|].
    destruct (for_each _ (zip data ratio)); [|done]. simpl in Hres.
    unfold DataFrame at 1 in Hres. by case_bool_decide.
  - intros [Hne Hw]. eexists. by apply rescale_ok.
  - intros ->. reflexivity.
Qed.

End RescaleMore.

(** ** More on [download_file] and the loaders *)

Module FetchMore.
Import Fetch FetchFacts.

Lemma progress_loop_payload (n file_size : Z) (cs : list bytes)
    (file : bytes) (progress : Z) (calls : list Q) :
  file_size ≠ 0%Z →
  (progress_loop (PyInt n) file_size cs file progress calls).2
  = Ok (file ++ concat cs).
Proof.
  intros Hfs. revert file progress calls.
  induction cs as [|c cs IH]; intros file progress calls.
  { simpl. by rewrite app_nil_r. }
  cbn [progress_loop int_add concat]. unfold true_div.
  rewrite (proj2 (Z.eqb_neq _ _) Hfs), IH. by rewrite <- app_assoc.
Qed.

(** What a successful download returns: the chunks of the body joined in
    order.  Without a progress function the chunk size plays no part and
    nothing is reported; with one and an integer chunk size the buffer is
    the same whatever the lengths of the chunks.  With an encoding the
    joined bytes are decoded. *)
Theorem download_file_payload (w : world) (url : string) (timeout : pyval)
    (req : response) (file_size : Z) :
  requests_get w url timeout = Ok req →
  status_code req = 200%Z →
  content_length req = Length file_size →
  (∀ size, stream_error (body req size) = None) →
  (∀ chunk_size,
     download_file w url PyNone chunk_size timeout false
     = ([EvGet url], Ok (BytesIO (concat (chunks (body req None))))))
  ∧ (∀ n, file_size ≠ 0%Z →
       (download_file w url PyNone (PyInt n) timeout true).2
       = Ok (BytesIO (concat (chunks (body req (Some n))))))
  ∧ (∀ chunk_size c enc,
       (download_file w url (PyStr (String c enc)) chunk_size timeout false).2
       = rbind (decode w (String c enc) (concat (chunks (body req None))))
           (λ s, Ok (StringIO s))).
Proof.
  intros Hget Hst Hcl Herr. split; [|split].
  - intros chunk_size. unfold download_file, end_of_stream.
    rewrite Hget, Hst, Hcl. simpl. by rewrite Herr.
  - intros n Hfs. unfold download_file, end_of_stream.
    rewrite Hget, Hst, Hcl. simpl.
    pose proof (progress_loop_payload n file_size
                  (chunks (body req (Some n))) [] 0 [] Hfs) as H.
    destruct (progress_loop _ _ _ _ _ _) as [calls file]. simpl in H.
    rewrite H. simpl. by rewrite Herr.
  - intros chunk_size c enc. unfold download_file, end_of_stream.
    rewrite Hget, Hst, Hcl. simpl. by rewrite Herr.
Qed.

Lemma download_file_payload_witness :
  (∀ chunk_size,
     download_file ok_world "u" PyNone chunk_size PyNone false
     = ([EvGet "u"], Ok (BytesIO (concat [x_bytes 3]))))
  ∧ (∀ n, 3%Z ≠ 0%Z →
       (download_file ok_world "u" PyNone (PyInt n) PyNone true).2
       = Ok (BytesIO (concat [x_bytes 3])))
  ∧ (∀ chunk_size c enc,
       (download_file ok_world "u" (PyStr (String c enc)) chunk_size
          PyNone false).2
       = rbind (decode ok_world (String c enc) (concat [x_bytes 3]))
           (λ s, Ok (StringIO s))).
Proof.
  apply (download_file_payload ok_world "u" PyNone
           (Response 200 (Length 3) (λ _, Stream [x_bytes 3] None)) 3).
  - reflexivity.
  - reflexivity.
  - reflexivity.
  - reflexivity.
Defined.

(** What [download_file] refuses before it reads the body: a status other
    than 200 raises the [HTTPError] that carries the code; a response
    without content-length raises [TypeError], with or without a progress
    function.  Neither reports progress. *)
Theorem download_file_refuses (w : world) (url : string)
    (encoding chunk_size timeout : pyval) (progress_function : bool)
    (req : response) :
  requests_get w url timeout = Ok req →
  (status_code req ≠ 200%Z →
     download_file w url encoding chunk_size timeout progress_function
     = ([EvGet url],
        Raise (HTTPError ("HTTPError: " +:+ str_of_Z (status_code req)))))
  ∧ (status_code req = 200%Z → content_length req = Missing →
       download_file w url encoding chunk_size timeout progress_function
       = ([EvGet url], Raise TypeError)).
Proof.
  intros Hget. split.
  - intros Hst. by apply download_file_status.
  - intros Hst Hcl. unfold download_file. by rewrite Hget, Hst, Hcl.
Qed.

Lemma download_file_refuses_witness :
  (404%Z ≠ 200%Z →
     download_file missing_world "u" PyNone (PyInt 1024) PyNone false
     = ([EvGet "u"], Raise (HTTPError ("HTTPError: " +:+ str_of_Z 404))))
  ∧ (404%Z = 200%Z → Missing = Missing →
       download_file missing_world "u" PyNone (PyInt 1024) PyNone false
       = ([EvGet "u"], Raise TypeError)).
Proof.
  apply (download_file_refuses missing_world "u" PyNone (PyInt 1024) PyNone
           false (Response 404 Missing (λ _, Stream [] None))).
  reflexivity.
Defined.

(** With a progress function the chunk size must be an integer: [None]
    (which the docstring allows) raises [TypeError] once the first chunk
    has arrived, a string raises it before the body is read; in both
    cases the progress function is never called. *)
Theorem download_file_progress_needs_int (w : world) (url : string)
    (encoding timeout : pyval) (req : response) (file_size : Z) :
  requests_get w url timeout = Ok req →
  status_code req = 200%Z →
  content_length req = Length file_size →
  (chunks (body req None) ≠ [] →
     download_file w url encoding PyNone timeout true
     = ([EvGet url], Raise TypeError))
  ∧ (∀ s, download_file w url encoding (PyStr s) timeout true
          = ([EvGet url], Raise TypeError)).
Proof.
  intros Hget Hst Hcl. split.
  - intros Hne. unfold download_file. rewrite Hget, Hst, Hcl. simpl.
    by destruct (chunks (body req None)).
  - intros s. unfold download_file. by rewrite Hget, Hst, Hcl.
Qed.

Lemma download_file_progress_needs_int_witness :
  ([x_bytes 3] ≠ [] →
     download_file ok_world "u" PyNone PyNone PyNone true
     = ([EvGet "u"], Raise TypeError))
  ∧ (∀ s, download_file ok_world "u" PyNone (PyStr s) PyNone true
          = ([EvGet "u"], Raise TypeError)).
Proof.
  apply (download_file_progress_needs_int ok_world "u" PyNone PyNone
           (Response 200 (Length 3) (λ _, Stream [x_bytes 3] None)) 3).
  - reflexivity.
  - reflexivity.
  - reflexivity.
Defined.

(** *** [loadCsv] *)

(** When the request fails or the status is not 200, [loadCsv] reads the
    URL directly, once, with the same options, and returns what that
    gives; an [OSError] from the direct read becomes the
    [FileNotFoundError] that names the URL. *)
Theorem loadCsv_falls_back (w : world)
    (targetFileName apiUrl extension : string) (encoding : pyval)
    (st : defaults) :
  let url := apiUrl +:+ targetFileName +:+ extension in
  let o := loadCsv w targetFileName apiUrl extension None encoding st in
  let d := csv_kwargs encoding st in
  (∃ e, requests_get w url PyNone = Raise e ∧ is_RequestException e = true)
  ∨ (∃ req, requests_get w url PyNone = Ok req ∧ status_code req ≠ 200%Z) →
  out_events o = [EvGet url; EvReadCsvUrl url d]
  ∧ out_result o = not_found url (read_csv_url w url d)
  ∧ (∀ e, read_csv_url w url d = Raise e → is_OSError e = true →
       out_result o
       = Raise (FileNotFoundError
                  ("ERROR: URL " +:+ url +:+ " could not be opened."))).
Proof.
  intros url o d H.
  assert (Hdl : ∃ e, download_file w url (PyInt 1024) (getitem d "encoding")
                       PyNone true = ([EvGet url], Raise e)
                     ∧ is_RequestException e = true).
  { destruct H as [(e & Hget & He)|(req & Hget & Hst)].
    - exists e. split; [|done]. unfold download_file. by rewrite Hget.
    - eexists. split; [by apply download_file_status|done]. }
  destruct Hdl as (e & Hdl & He).
  destruct (loadCsv_fallback w targetFileName apiUrl extension encoding st
              _ e Hdl He) as [Hev Hres].
  split; [done|]. split; [done|].
  intros e' He' Hos. fold url d o in Hres. rewrite Hres, He'.
  by apply not_found_names_url.
Qed.

Lemma loadCsv_falls_back_witness :
  let url := "https://opendata.arcgis.com/datasets/" +:+ "item" +:+ ".csv" in
  let o := loadCsv missing_world "item"
             "https://opendata.arcgis.com/datasets/" ".csv" None PyNone
             fresh in
  let d := csv_kwargs PyNone fresh in
  out_events o = [EvGet url; EvReadCsvUrl url d]
  ∧ out_result o = not_found url (read_csv_url missing_world url d)
  ∧ (∀ e, read_csv_url missing_world url d = Raise e → is_OSError e = true →
       out_result o
       = Raise (FileNotFoundError
                  ("ERROR: URL " +:+ url +:+ " could not be opened."))).
Proof.
  apply (loadCsv_falls_back missing_world "item"
           "https://opendata.arcgis.com/datasets/" ".csv" PyNone fresh).
  right. eexists. split; [reflexivity|]. simpl. lia.
Defined.


(** *** The option dictionaries *)

Lemma union_insert_present (d m : dict) (k : string) (v : pyval) :
  is_Some (d !! k) → d ∪ <[k := v]> m = d ∪ m.
Proof.
  intros [x Hx]. apply map_eq. intros i. rewrite !lookup_union.
  destruct (decide (i = k)) as [->|Hne].
  - rewrite Hx, lookup_insert_eq. by destruct (m !! k).
  - by rewrite lookup_insert_ne.
Qed.

(** Completing a dictionary is a union in which the entries given win. *)
Lemma fill_defaults_union (l : list (string * pyval)) (d : dict) :
  fill_defaults l d = d ∪ list_to_map l.
Proof.
  unfold fill_defaults. revert d.
  induction l as [|[k v] l IH]; intros d; simpl.
  { by rewrite (right_id_L ∅ (∪)). }
  rewrite IH. destruct (d !! k) as [x|] eqn:E.
  - rewrite union_insert_present; [done|by eexists].
  - by rewrite <- insert_union_l, insert_union_r.
Qed.

(** A dictionary passed to [loadCsv] is completed in place: the entries
    of the caller are kept, the four options get their defaults where
    they are missing, the reader is called with the result, and the
    default-argument dictionaries are not touched. *)
Theorem loadCsv_completes_param_dict (w : world)
    (targetFileName apiUrl extension : string) (param_dict : dict)
    (encoding : pyval) (st : defaults) :
  let o := loadCsv w targetFileName apiUrl extension (Some param_dict)
             encoding st in
  let d := param_dict
           ∪ list_to_map [("sep", PyStr ","); ("header", PyInt 0);
                          ("encoding", encoding); ("dtype", PyNone)] in
  out_defaults o = st
  ∧ out_param_dict o = Some d
  ∧ (∀ k v, param_dict !! k = Some v → d !! k = Some v)
  ∧ (∀ e, e ∈ out_events o →
       match e with
       | EvReadCsvBuffer kwargs | EvReadCsvUrl _ kwargs => kwargs = d
       | _ => True
       end).
Proof.
  intros o d. unfold o, loadCsv.
  change (default (loadCsv_param_dict st) (Some param_dict)) with param_dict.
  rewrite fill_defaults_union. fold d.
  destruct (loadCsv_body w _ d) as [ev r] eqn:E. simpl.
  split; [done|]. split; [done|]. split.
  - intros k v Hk. unfold d. by apply lookup_union_Some_l.
  - unfold loadCsv_body in E.
    destruct (download_file w _ _ _ _ _) as [ev0 file] eqn:Ed.
    assert (Hev0 : ∀ e, e ∈ ev0 →
              match e with
              | EvReadCsvBuffer kwargs | EvReadCsvUrl _ kwargs => kwargs = d
              | _ => True
              end).
    { revert Ed. unfold download_file.
      destruct (requests_get w _ PyNone) as [req|?];
        [|intros [= <- _] x ->%list_elem_of_singleton; done].
      destruct (negb _); [intros [= <- _] x ->%list_elem_of_singleton; done|].
      destruct (int_of_header _);
        [|intros [= <- _] x ->%list_elem_of_singleton; done].
      match goal with
      | |- context [let '(_, _) := ?x in _] => destruct x as [calls f]
      end.
      intros [= <- _] x [->|(q & -> & _)%list_elem_of_fmap]%elem_of_cons;
        done. }
    intros e He.
    assert (Hsplit : ∀ ev' : list event, e ∈ ev' →
              (∀ x, x ∈ ev' → x ∈ ev0 ∨ x = EvReadCsvBuffer d
                               ∨ x = EvReadCsvUrl (apiUrl +:+ targetFileName
                                                   +:+ extension) d) →
              match e with
              | EvReadCsvBuffer kwargs | EvReadCsvUrl _ kwargs => kwargs = d
              | _ => True
              end).
    { intros ev' He' Hin.
      destruct (Hin e He') as [H0|[-> | ->]]; [by apply Hev0|done|done]. }
    apply (Hsplit ev He). clear e He Hsplit. intros x Hx.
    destruct file as [f|e0]; simpl in E.
    + destruct (read_csv_buffer w f d) as [df|e1]; simpl in E.
      * injection E as <- _. rewrite elem_of_app, list_elem_of_singleton in Hx.
        tauto.
      * destruct (is_RequestException e1); injection E as <- _;
          rewrite ?elem_of_app, ?list_elem_of_singleton in Hx; tauto.
    + destruct (is_RequestException e0); injection E as <- _;
        rewrite ?elem_of_app, ?list_elem_of_singleton in Hx; tauto.
Qed.

(** *** [loadExcel] across calls *)

(** The states that calls of the two loaders lead to. *)
Inductive reachable : defaults → Prop :=
| reachable_fresh : reachable fresh
| reachable_csv w t api ext pd enc st :
    reachable st → reachable (out_defaults (loadCsv w t api ext pd enc st))
| reachable_excel w t api ext pd st :
    reachable st → reachable (out_defaults (loadExcel w t api ext pd st)).

Definition excel_defaults : list (string * pyval) :=
  [("sheet_name", PyInt 0); ("header", PyInt 0); ("engine", PyStr "openpyxl")].

Lemma loadCsv_keeps_excel_dict (w : world) (t api ext : string)
    (pd : option dict) (enc : pyval) (st : defaults) :
  loadExcel_param_dict (out_defaults (loadCsv w t api ext pd enc st))
  = loadExcel_param_dict st.
Proof. unfold loadCsv. destruct (loadCsv_body _ _ _). by destruct pd. Qed.

Lemma loadExcel_leaves_dict (w : world) (t api ext : string)
    (pd : option dict) (st : defaults) :
  loadExcel_param_dict (out_defaults (loadExcel w t api ext pd st))
  = match pd with
    | None => fill_defaults excel_defaults (loadExcel_param_dict st)
    | Some _ => loadExcel_param_dict st
    end.
Proof. unfold loadExcel. destruct (loadExcel_body _ _ _ _). by destruct pd. Qed.

Lemma reachable_excel_dict (st : defaults) :
  reachable st →
  fill_defaults excel_defaults (loadExcel_param_dict st)
  = fill_defaults excel_defaults ∅.
Proof.
  induction 1 as [|w t api ext pd enc st _ IH|w t api ext pd st _ IH].
  - done.
  - by rewrite loadCsv_keeps_excel_dict.
  - rewrite loadExcel_leaves_dict. destruct pd; [done|].
    rewrite IH. by vm_compute.
Qed.

(** Whatever calls of the loaders came before, a call of [loadExcel]
    requests and returns what it would in a fresh process: the dictionary
    shared between its calls only ever receives the three constants. *)
Theorem loadExcel_independent_of_history (w : world)
    (targetFileName apiUrl extension : string) (param_dict : option dict)
    (st : defaults) :
  reachable st →
  out_events (loadExcel w targetFileName apiUrl extension param_dict st)
  = out_events (loadExcel w targetFileName apiUrl extension param_dict fresh)
  ∧ out_result (loadExcel w targetFileName apiUrl extension param_dict st)
    = out_result (loadExcel w targetFileName apiUrl extension param_dict fresh)
  ∧ out_param_dict (loadExcel w targetFileName apiUrl extension param_dict st)
    = out_param_dict
        (loadExcel w targetFileName apiUrl extension param_dict fresh).
Proof.
  intros Hst. pose proof (reachable_excel_dict st Hst) as H.
  unfold loadExcel. destruct param_dict as [pd|].
  - simpl. by destruct (loadExcel_body _ _ _ _).
  - change (default (loadExcel_param_dict st) None)
      with (loadExcel_param_dict st).
    change (default (loadExcel_param_dict fresh) None) with (∅ : dict).
    fold excel_defaults. rewrite H.
    by destruct (loadExcel_body _ _ _ _).
Qed.

Lemma loadExcel_independent_of_history_witness :
  let st := out_defaults
              (loadCsv codec_world "a" "h/" ".csv" None (PyStr "latin-1")
                 (out_defaults (loadExcel codec_world "x" "h/" ".xls" None
                                  fresh))) in
  out_events (loadExcel codec_world "b" "h/" ".xls" None st)
  = out_events (loadExcel codec_world "b" "h/" ".xls" None fresh)
  ∧ out_result (loadExcel codec_world "b" "h/" ".xls" None st)
    = out_result (loadExcel codec_world "b" "h/" ".xls" None fresh)
  ∧ out_param_dict (loadExcel codec_world "b" "h/" ".xls" None st)
    = out_param_dict (loadExcel codec_world "b" "h/" ".xls" None fresh).
Proof.
  apply (loadExcel_independent_of_history codec_world "b" "h/" ".xls" None).
  apply reachable_csv, reachable_excel, reachable_fresh.
Defined.

End FetchMore.

(** ** More on [check_dir] and [write_dataframe] *)

Module WriterMore.
Import FS Writer WriterFacts.

Local Arguments write_file : simpl never.
Local Arguments coerce_date_column : simpl never.


Lemma makedirs_from_frame (rest pre : path) (fs fs' : filesystem) :
  makedirs_from pre rest fs = Ok fs' →
  (∀ p x, fs !! p = Some x → fs' !! p = Some x)
  ∧ (∀ p, fs !! p = None → is_Some (fs' !! p) →
       fs' !! p = Some Dir
       ∧ ∃ q, q `prefix_of` rest ∧ q ≠ [] ∧ p = pre ++ q)
  ∧ (∀ q, q `prefix_of` rest → q ≠ [] → fs' !! (pre ++ q) = Some Dir).
Proof.
  revert pre fs. induction rest as [|c rest IH]; intros pre fs; simpl.
  { intros [= <-]. split; [done|]. split.
    - intros p Hp [x Hx]. congruence.
    - intros q Hq%prefix_nil_inv. done. }
  assert (Hstep : ∀ fs1,
            (∀ p x, fs !! p = Some x → fs1 !! p = Some x) →
            (∀ p, fs !! p = None → is_Some (fs1 !! p) → p = pre ++ [c]) →
            fs1 !! (pre ++ [c]) = Some Dir →
            makedirs_from (pre ++ [c]) rest fs1 = Ok fs' →
            (∀ p x, fs !! p = Some x → fs' !! p = Some x)
            ∧ (∀ p, fs !! p = None → is_Some (fs' !! p) →
                 fs' !! p = Some Dir
                 ∧ ∃ q, q `prefix_of` c :: rest ∧ q ≠ [] ∧ p = pre ++ q)
            ∧ (∀ q, q `prefix_of` c :: rest → q ≠ [] →
                 fs' !! (pre ++ q) = Some Dir)).
  { intros fs1 Hkeep Hnew Hp Hm.
    destruct (IH _ _ Hm) as (Hk & Hn & Hd).
    split; [by auto|]. split.
    - intros p Hnone Hsome.
      destruct (fs1 !! p) as [x|] eqn:E1.
      + assert (p = pre ++ [c]) as -> by (apply Hnew; [done|by rewrite E1]).
        split; [by apply Hk|].
        exists [c]. split; [apply prefix_cons, prefix_nil|done].
      + destruct (Hn p E1 Hsome) as (Hdir & q & Hq & Hne & ->).
        split; [done|]. exists (c :: q).
        split; [by apply prefix_cons|]. split; [done|].
        by rewrite <- app_assoc.
    - intros [|c' q] Hq Hne; [done|].
      pose proof (prefix_cons_inv_1 _ _ _ _ Hq) as ->.
      apply prefix_cons_inv_2 in Hq.
      destruct q as [|c'' q]; [by apply Hk|].
      specialize (Hd (c'' :: q) Hq). rewrite <- app_assoc in Hd.
      by apply Hd. }
  destruct (fs !! (pre ++ [c])) as [[|c0]|] eqn:E; [| done |].
  - apply Hstep; [done| |done]. intros p Hnone [x Hx]. congruence.
  - apply Hstep.
    + intros p x Hp. rewrite lookup_insert_ne; [done|]. congruence.
    + intros p Hnone [x Hx].
      destruct (decide (pre ++ [c] = p)) as [<-|Hne]; [done|].
      rewrite lookup_insert_ne in Hx by done. congruence.
    + apply lookup_insert_eq.
Qed.

(** [check_dir] only adds: what existed stays as it was, every new entry
    is a directory on the way to the path, and a second call changes
    nothing. *)
Theorem check_dir_only_adds (directory : path) (fs fs' : filesystem) :
  check_dir directory fs = Ok fs' →
  (∀ p x, fs !! p = Some x → fs' !! p = Some x)
  ∧ (∀ p, fs !! p = None → is_Some (fs' !! p) →
       fs' !! p = Some Dir ∧ p `prefix_of` directory)
  ∧ check_dir directory fs' = Ok fs'.
Proof.
  unfold check_dir. destruct (path_exists fs directory) eqn:E; simpl.
  - intros [= <-]. split; [done|]. split.
    + intros p Hp [x Hx]. congruence.
    + by rewrite E.
  - unfold makedirs. rewrite E. intros Hm.
    destruct (makedirs_from_frame _ _ _ _ Hm) as (Hk & Hn & Hd).
    split; [done|]. split.
    + intros p Hnone Hsome.
      destruct (Hn p Hnone Hsome) as (Hdir & q & Hq & _ & ->). done.
    + assert (Hex : path_exists fs' directory = true).
      { unfold path_exists. destruct directory as [|c d]; [done|].
        apply bool_decide_eq_true_2. exists Dir.
        by apply (Hd (c :: d)). }
      by rewrite Hex.
Qed.

Lemma check_dir_only_adds_witness :
  let fs : filesystem := <[["data"] := Dir]> ∅ in
  let fs' : filesystem := <[["data"; "Germany"] := Dir]> fs in
  (∀ p x, fs !! p = Some x → fs' !! p = Some x)
  ∧ (∀ p, fs !! p = None → is_Some (fs' !! p) →
       fs' !! p = Some Dir ∧ p `prefix_of` ["data"; "Germany"])
  ∧ check_dir ["data"; "Germany"] fs' = Ok fs'.
Proof.
  apply (check_dir_only_adds ["data"; "Germany"] (<[["data"] := Dir]> ∅)).
  vm_compute. reflexivity.
Defined.



(** On a name that is not empty and does not end in a separator, and on
    any name but the empty one when no regular file sits at the path,
    [check_dir] works on the components. *)
Lemma check_dir_str_components (directory : string) (fs : filesystem) :
  directory ≠ "" →
  ends_in_sep directory = false
  ∨ (∀ c, fs !! path_of_string directory ≠ Some (File c)) →
  check_dir_str directory fs = check_dir (path_of_string directory) fs.
Proof.
  intros Hne H. unfold check_dir_str, path_exists_str, makedirs_str, check_dir.
  rewrite (proj2 (String.eqb_neq _ _) Hne).
  destruct (ends_in_sep directory) eqn:E; [|done].
  destruct H as [H|H]; [done|].
  unfold is_dir, path_exists, makedirs, path_exists.
  destruct (path_of_string directory) as [|d ds] eqn:Ep; [done|].
  destruct (fs !! (d :: ds)) as [[|c]|] eqn:El; [done| |done].
  by destruct (H c).
Qed.


(** The case of the callers: [Germany] is a regular file and the name
    ends in a separator. *)
Example check_dir_str_trailing_file :
  check_dir_str "data/Germany/"
    (<[["data"; "Germany"] := File (Json ∅ [])]> (<[["data"] := Dir]> ∅))
  = Raise FileExistsError
  ∧ check_dir_str "" ∅ = Raise (FileNotFoundError "No such file or directory").
Proof. by vm_compute. Qed.

(** *** Writing *)

(** The file ending of a format. *)
Definition ending (file_type : string) : string :=
  if String.eqb file_type "hdf5" then ".h5"
  else if String.eqb file_type "txt" then ".txt"
  else ".json".










End WriterMore.

(** ** More on [clean_data] *)

Module CleanupMore.
Import FS Cleanup.

(** *** The string tests *)

Lemma app_cons (c : ascii) (s1 s2 : string) :
  String c s1 +:+ s2 = String c (s1 +:+ s2).
Proof. reflexivity. Qed.

Lemma length_app_string (s1 s2 : string) :
  String.length (s1 +:+ s2) = String.length s1 + String.length s2.
Proof.
  induction s1 as [|c s1 IH]; [done|]. rewrite app_cons. simpl. by rewrite IH.
Qed.

Lemma app_assoc_string (s1 s2 s3 : string) :
  (s1 +:+ s2) +:+ s3 = s1 +:+ s2 +:+ s3.
Proof.
  induction s1 as [|c s1 IH]; [done|]. rewrite !app_cons. by rewrite IH.
Qed.

Lemma substring_all (s : string) : substring 0 (String.length s) s = s.
Proof. induction s as [|c s IH]; [done|]. simpl. by rewrite IH. Qed.

Lemma substring_skip (pre suf : string) (m : nat) :
  substring (String.length pre) m (pre +:+ suf) = substring 0 m suf.
Proof. induction pre as [|c pre IH]; [done|]. rewrite app_cons. exact IH. Qed.

Lemma substring_split (s : string) (k : nat) :
  k ≤ String.length s →
  s = substring 0 k s +:+ substring k (String.length s - k) s.
Proof.
  revert k. induction s as [|c s IH]; intros [|k] Hk; simpl in *; try lia.
  - done.
  - by rewrite substring_all.
  - rewrite app_cons. f_equal. apply IH. lia.
Qed.

(** [s.endswith(suf)] holds exactly when [s] is some text and then [suf]. *)
Lemma endswith_spec (s suf : string) :
  endswith s suf = true ↔ ∃ pre, s = pre +:+ suf.
Proof.
  unfold endswith. split.
  - remember (String.length suf) as m eqn:Hm.
    intros [Hle Heq]%andb_true_iff.
    apply Nat.leb_le in Hle. apply String.eqb_eq in Heq.
    exists (substring 0 (String.length s - m) s).
    rewrite <- Heq.
    pose proof (substring_split s (String.length s - m) ltac:(lia)) as H.
    by replace (String.length s - (String.length s - m)) with m in H by lia.
  - intros [pre ->]. rewrite length_app_string. apply andb_true_iff. split.
    + apply Nat.leb_le. lia.
    + apply String.eqb_eq.
      replace (String.length pre + String.length suf - String.length suf)
        with (String.length pre) by lia.
      by rewrite substring_skip, substring_all.
Qed.

Lemma endswith_shorter (s a b : string) :
  endswith s (a +:+ b) = true → endswith s b = true.
Proof.
  rewrite !endswith_spec. intros [pre ->]. exists (pre +:+ a).
  by rewrite app_assoc_string.
Qed.


(** *** Listing a directory *)

Lemma child_name_spec (d p : path) (n : string) :
  child_name d p = Some n ↔ p = d ++ [n].
Proof.
  unfold child_name. split.
  - destruct (reverse p) as [|n' rd] eqn:E; [done|].
    case_bool_decide as Hd; [|done]. intros [= ->].
    rewrite <- Hd, <- reverse_cons, <- E. by rewrite reverse_involutive.
  - intros ->. rewrite reverse_app. simpl.
    by rewrite bool_decide_eq_true_2 by apply reverse_involutive.
Qed.

Lemma elem_of_children (fs : filesystem) (d : path) (n : string) :
  n ∈ children fs d ↔ is_Some (fs !! (d ++ [n])).
Proof.
  unfold children. rewrite list_elem_of_omap. split.
  - intros (p & Hp & ->%child_name_spec).
    apply list_elem_of_fmap in Hp as ([p' x] & -> & Hx).
    apply elem_of_map_to_list in Hx. simpl. eauto.
  - intros [x Hx]. exists (d ++ [n]). split; [|by apply child_name_spec].
    apply list_elem_of_fmap. exists (d ++ [n], x).
    split; [done|]. by apply elem_of_map_to_list.
Qed.

Lemma NoDup_children (fs : filesystem) (d : path) : NoDup (children fs d).
Proof.
  unfold children. pose proof (NoDup_fst_map_to_list fs) as H.
  induction H as [|p l Hp _ IH]; simpl; [constructor|].
  destruct (child_name d p) as [n|] eqn:E; [|done].
  constructor; [|done]. intros (p' & Hp' & E')%list_elem_of_omap.
  apply child_name_spec in E, E'. congruence.
Qed.

Lemma children_nil (fs : filesystem) (d : path) :
  children fs d = [] ↔ ∀ n, fs !! (d ++ [n]) = None.
Proof.
  split.
  - intros H n. destruct (fs !! (d ++ [n])) eqn:E; [|done].
    assert (Hn : n ∈ children fs d) by (apply elem_of_children; eauto).
    rewrite H in Hn. by apply elem_of_nil in Hn.
  - intros H. destruct (children fs d) as [|n l] eqn:E; [done|].
    assert (Hn : n ∈ children fs d) by (rewrite E; apply elem_of_cons; by left).
    apply elem_of_children in Hn as [x Hx]. by rewrite H in Hx.
Qed.

(** *** Removing the selected files of a directory *)

Lemma child_ne (d : path) (n n' : string) : n ≠ n' → d ++ [n] ≠ d ++ [n'].
Proof. intros Hne H. apply app_inv_head in H. congruence. Qed.

Lemma child_ne_dir (d : path) (n : string) : d ++ [n] ≠ d.
Proof.
  intros H. apply (f_equal length) in H. rewrite length_app in H.
  simpl in H. lia.
Qed.

Lemma remove_selected_ok (selected : string → bool) (d : path)
    (files : list string) (fs : filesystem) :
  NoDup files →
  (∀ n, n ∈ files → selected n = true →
     ∃ c, fs !! (d ++ [n]) = Some (File c)) →
  ∃ fs', remove_selected selected d files fs = (fs', Ok ())
    ∧ (∀ n, n ∈ files → selected n = true → fs' !! (d ++ [n]) = None)
    ∧ (∀ p, (∀ n, n ∈ files → selected n = true → p ≠ d ++ [n]) →
         fs' !! p = fs !! p).
Proof.
  intros Hnd. revert fs.
  induction Hnd as [|n files Hn _ IH]; intros fs Hfiles; simpl.
  { exists fs. split; [done|]. split; [|done].
    by intros n ?%elem_of_nil. }
  destruct (selected n) eqn:Hsel.
  - destruct (Hfiles n ltac:(apply elem_of_cons; by left) Hsel) as [c Hc].
    unfold remove. rewrite Hc.
    destruct (IH (delete (d ++ [n]) fs)) as (fs' & Hrun & Hgone & Hkeep).
    { intros n' Hn' Hs'.
      destruct (Hfiles n' ltac:(apply elem_of_cons; by right) Hs')
        as [c' Hc'].
      exists c'. rewrite lookup_delete_ne; [done|].
      apply child_ne. intros ->. done. }
    exists fs'. split; [done|]. split.
    + intros n' [->|Hn']%elem_of_cons Hs'; [|by apply Hgone].
      rewrite Hkeep; [apply lookup_delete_eq|].
      intros n'' Hn'' _. apply child_ne. intros ->. done.
    + intros p Hp. rewrite Hkeep.
      * apply lookup_delete_ne. intros <-.
        apply (Hp n); [apply elem_of_cons; by left|done|done].
      * intros n' Hn' Hs'. apply Hp; [apply elem_of_cons; by right|done].
  - destruct (IH fs) as (fs' & Hrun & Hgone & Hkeep).
    { intros n' Hn' Hs'. apply Hfiles; [apply elem_of_cons; by right|done]. }
    exists fs'. split; [done|]. split.
    + intros n' [->|Hn']%elem_of_cons Hs'; [congruence|by apply Hgone].
    + intros p Hp. apply Hkeep. intros n' Hn' Hs'.
      apply Hp; [apply elem_of_cons; by right|done].
Qed.

(** Cleaning one directory in which every selected entry is a regular
    file: the selected files are gone, every other entry of the directory
    and everything outside it stays, and the directory itself is removed
    exactly when nothing is left in it. *)
Lemma clean_directory_spec (selected : string → bool) (d : path)
    (fs : filesystem) :
  fs !! d = Some Dir → d ≠ [] →
  (∀ n x, fs !! (d ++ [n]) = Some x → selected n = true →
     ∃ c, x = File c) →
  ∃ fs', clean_directory selected d fs = (fs', Ok ())
    ∧ (∀ n, selected n = true → fs' !! (d ++ [n]) = None)
    ∧ (∀ n, selected n = false → fs' !! (d ++ [n]) = fs !! (d ++ [n]))
    ∧ (∀ p, p ≠ d → (∀ n, p ≠ d ++ [n]) → fs' !! p = fs !! p)
    ∧ ((∀ n, is_Some (fs !! (d ++ [n])) → selected n = true) →
         fs' !! d = None)
    ∧ (∀ n, is_Some (fs !! (d ++ [n])) → selected n = false →
         fs' !! d = Some Dir).
Proof.
  intros Hd Hne Hfiles.
  assert (Hisdir : is_dir fs d = true).
  { unfold is_dir. destruct d; [done|]. by rewrite Hd. }
  destruct (remove_selected_ok selected d (children fs d) fs)
    as (fs1 & Hrun & Hgone & Hkeep).
  { apply NoDup_children. }
  { intros n [x Hx]%elem_of_children Hs.
    destruct (Hfiles n x Hx Hs) as [c ->]. eauto. }
  assert (Hsel : ∀ n, selected n = true → fs1 !! (d ++ [n]) = None).
  { intros n Hs. destruct (fs !! (d ++ [n])) as [x|] eqn:E.
    - apply Hgone; [|done]. apply elem_of_children. eauto.
    - rewrite Hkeep; [done|]. intros n' [x Hx]%elem_of_children _ H.
      congruence. }
  assert (Hoth : ∀ p, (∀ n, selected n = true → p ≠ d ++ [n]) →
            fs1 !! p = fs !! p).
  { intros p Hp. apply Hkeep. intros n _ Hs. by apply Hp. }
  assert (Hd1 : fs1 !! d = Some Dir).
  { rewrite Hoth; [done|]. intros n _ H. symmetry in H.
    by apply child_ne_dir in H. }
  unfold clean_directory, run, clean_files, list_or_nothing, listdir.
  rewrite Hisdir, Hrun. unfold rmdir_if_empty, rmdir. rewrite Hd1.
  destruct (children fs1 d) as [|n0 l] eqn:Ech.
  - exists (delete d fs1). split; [done|].
    split; [|split; [|split; [|split]]].
    + intros n Hs. rewrite lookup_delete_ne by (symmetry; apply child_ne_dir).
      by apply Hsel.
    + intros n Hs. rewrite lookup_delete_ne by (symmetry; apply child_ne_dir).
      apply Hoth. intros n' Hs' H. apply app_inv_head in H. congruence.
    + intros p Hp Hpn. rewrite lookup_delete_ne by done.
      apply Hoth. intros n _. apply Hpn.
    + intros _. apply lookup_delete_eq.
    + intros n [x Hx] Hs. exfalso.
      apply children_nil with (n := n) in Ech.
      rewrite Hoth in Ech; [congruence|].
      intros n' Hs' H. apply app_inv_head in H. congruence.
  - exists fs1. split; [done|].
    split; [done|]. split; [|split; [|split]].
    + intros n Hs. apply Hoth. intros n' Hs' H.
      apply app_inv_head in H. congruence.
    + intros p Hp Hpn. apply Hoth. intros n _. apply Hpn.
    + intros Hall. exfalso.
      assert (Hn0 : n0 ∈ children fs1 d)
        by (rewrite Ech; apply elem_of_cons; by left).
      apply elem_of_children in Hn0 as [x Hx].
      destruct (selected n0) eqn:Hs0.
      * by rewrite Hsel in Hx.
      * rewrite Hoth in Hx.
        -- rewrite Hall in Hs0; [done|eauto].
        -- intros n' Hs' H. apply app_inv_head in H. congruence.
    + done.
Qed.


(** The selection of the RKI family. *)
Definition rki_selected (hdf5 : pyval) (item : string) : bool :=
  endswith item (if truthy hdf5 then "h5" else "json")
  && (contains "_rki" item || contains "RKI" item).

(** Cleanup of the RKI family alone, on a tree whose [Germany] directory
    holds the selected names as regular files: exactly the files whose
    name has the ending and contains [_rki] or [RKI] are deleted, and the
    directory is removed only if that leaves it empty. *)
Theorem clean_data_rki_only
    (all_data rki john_hopkins spain population hdf5 : pyval)
    (out_path : path) (fs : filesystem) :
  truthy all_data = false → truthy rki = true →
  truthy john_hopkins = false → truthy spain = false →
  truthy population = false →
  let germany := out_path ++ ["Germany"] in
  fs !! germany = Some Dir →
  (∀ n x, fs !! (germany ++ [n]) = Some x → rki_selected hdf5 n = true →
     ∃ c, x = File c) →
  ∃ fs', clean_data all_data rki john_hopkins spain population hdf5
           out_path fs = (fs', Ok ())
    ∧ (∀ n, rki_selected hdf5 n = true → fs' !! (germany ++ [n]) = None)
    ∧ (∀ n, rki_selected hdf5 n = false →
         fs' !! (germany ++ [n]) = fs !! (germany ++ [n]))
    ∧ (∀ p, p ≠ germany → (∀ n, p ≠ germany ++ [n]) → fs' !! p = fs !! p)
    ∧ ((∀ n, is_Some (fs !! (germany ++ [n])) → rki_selected hdf5 n = true) →
         fs' !! germany = None)
    ∧ (∀ n, is_Some (fs !! (germany ++ [n])) → rki_selected hdf5 n = false →
         fs' !! germany = Some Dir).
Proof.
  intros Ha Hr Hj Hs Hp germany Hd Hfiles.
  destruct (clean_directory_spec (rki_selected hdf5) germany fs Hd)
    as (fs' & Hrun & H).
  { unfold germany. by destruct out_path. }
  { done. }
  exists fs'. split; [|done].
  unfold clean_data. rewrite Ha, Hr, Hj, Hs, Hp. simpl.
  fold germany. unfold rki_selected in Hrun.
  destruct (truthy hdf5); simpl in *; by rewrite Hrun.
Qed.

Definition rki_tree : filesystem :=
  <[["data"; "Germany"; "cases_all_county_rki.json"] := File (Json ∅ [])]>
  (<[["data"; "Germany"; "county_population.json"] := File (Json ∅ [])]>
  (<[["data"; "Germany"] := Dir]> (<[["data"] := Dir]> ∅))).

Lemma clean_data_rki_only_witness :
  let germany := ["data"] ++ ["Germany"] in
  ∃ fs', clean_data (PyBool false) (PyBool true) (PyBool false)
           (PyBool false) (PyBool false) (PyBool false) ["data"] rki_tree
         = (fs', Ok ())
    ∧ (∀ n, rki_selected (PyBool false) n = true →
         fs' !! (germany ++ [n]) = None)
    ∧ (∀ n, rki_selected (PyBool false) n = false →
         fs' !! (germany ++ [n]) = rki_tree !! (germany ++ [n]))
    ∧ (∀ p, p ≠ germany → (∀ n, p ≠ germany ++ [n]) →
         fs' !! p = rki_tree !! p)
    ∧ ((∀ n, is_Some (rki_tree !! (germany ++ [n])) →
          rki_selected (PyBool false) n = true) →
         fs' !! germany = None)
    ∧ (∀ n, is_Some (rki_tree !! (germany ++ [n])) →
         rki_selected (PyBool false) n = false →
         fs' !! germany = Some Dir).
Proof.
  apply (clean_data_rki_only (PyBool false) (PyBool true) (PyBool false)
           (PyBool false) (PyBool false) (PyBool false) ["data"] rki_tree);
    try reflexivity.
  intros n x Hx _. unfold rki_tree in Hx. simpl in Hx.
  repeat (apply lookup_insert_Some in Hx as [[Hk <-]|[_ Hx]];
          [by eauto || discriminate Hk|]).
  by rewrite lookup_empty in Hx.
Defined.

(** *** What [clean_data] can delete *)

(** A step that changes the file system by deletions only, each of an
    entry for which [A] holds. *)
Definition deletes_only (A : path → node → Prop) (s : step) : Prop :=
  ∀ fs p, (s fs).1 !! p = fs !! p
          ∨ ((s fs).1 !! p = None ∧ ∃ x, fs !! p = Some x ∧ A p x).

Lemma deletes_only_skip (A : path → node → Prop) :
  deletes_only A (λ fs, (fs, Ok ())).
Proof. intros fs p. by left. Qed.

Lemma deletes_only_run (A : path → node → Prop) (steps : list step) :
  Forall (deletes_only A) steps → deletes_only A (run steps).
Proof.
  induction 1 as [|s steps Hs _ IH]; intros fs p; simpl; [by left|].
  specialize (Hs fs p). destruct (s fs) as [fs1 [u|e]]; simpl in *; [|done].
  specialize (IH fs1 p).
  destruct IH as [IH|(Hn & x & Hx & HA)], Hs as [Hs|(Hn' & x' & Hx' & HA')].
  - left. congruence.
  - right. split; [congruence|eauto].
  - right. split; [done|]. exists x. split; [congruence|done].
  - congruence.
Qed.

Lemma deletes_only_remove_selected (A : path → node → Prop)
    (selected : string → bool) (d : path) (files : list string) :
  (∀ n c, selected n = true → A (d ++ [n]) (File c)) →
  deletes_only A (remove_selected selected d files).
Proof.
  intros HA. induction files as [|n files IH]; intros fs p; simpl; [by left|].
  destruct (selected n) eqn:Hs; [|apply IH].
  unfold remove. destruct (fs !! (d ++ [n])) as [[|c]|] eqn:E;
    [by left| |by left].
  specialize (IH (delete (d ++ [n]) fs) p).
  destruct (decide (p = d ++ [n])) as [->|Hne].
  - right. destruct IH as [IH|[IH _]].
    + rewrite IH, lookup_delete_eq. eauto.
    + eauto.
  - rewrite lookup_delete_ne in IH by done. exact IH.
Qed.

Lemma deletes_only_clean_files (A : path → node → Prop)
    (selected : string → bool) (d : path) :
  (∀ n c, selected n = true → A (d ++ [n]) (File c)) →
  deletes_only A (clean_files selected d).
Proof.
  intros HA fs p. unfold clean_files.
  destruct (list_or_nothing d fs) as [files|e]; [|by left].
  by apply deletes_only_remove_selected.
Qed.

Lemma deletes_only_rmdir (A : path → node → Prop) (d : path) :
  A d Dir → deletes_only A (rmdir_if_empty d).
Proof.
  intros HA fs p. unfold rmdir_if_empty, rmdir.
  destruct (fs !! d) as [[|c]|] eqn:E; [|by left..].
  destruct (children fs d); [|by left]. simpl.
  destruct (decide (p = d)) as [->|Hne].
  - right. rewrite lookup_delete_eq. eauto.
  - left. by apply lookup_delete_ne.
Qed.

Lemma deletes_only_clean_directory (A : path → node → Prop)
    (selected : string → bool) (d : path) :
  (∀ n c, selected n = true → A (d ++ [n]) (File c)) → A d Dir →
  deletes_only A (clean_directory selected d).
Proof.
  intros HA Hd.
  apply (deletes_only_run A [clean_files selected d; rmdir_if_empty d]).
  constructor; [by apply deletes_only_clean_files|].
  constructor; [by apply deletes_only_rmdir|]. constructor.
Qed.

(** What [clean_data] may delete below [out_path]: a country directory,
    or a file in [out_path] or in a country directory whose name ends in
    [json] or [h5]. *)
Definition deletable (out_path : path) (p : path) (x : node) : Prop :=
  match x with
  | Dir => ∃ cdir, cdir ∈ directories ∧ p = out_path ++ [cdir]
  | File _ =>
      ∃ d n, p = d ++ [n]
        ∧ (d = out_path ∨ ∃ cdir, cdir ∈ directories ∧ d = out_path ++ [cdir])
        ∧ (endswith n "json" = true ∨ endswith n "h5" = true)
  end.

(** Whatever is selected and whether it ends normally or in an
    exception, [clean_data] creates nothing and modifies nothing; what it
    deletes is a country directory of [out_path] or a file directly in
    [out_path] or in a country directory whose name ends in [json] or
    [h5]. *)
Theorem clean_data_only_deletes
    (all_data rki john_hopkins spain population hdf5 : pyval)
    (out_path : path) (fs : filesystem) (p : path) :
  let fs' := (clean_data all_data rki john_hopkins spain population hdf5
                out_path fs).1 in
  fs' !! p = fs !! p
  ∨ (fs' !! p = None ∧ ∃ x, fs !! p = Some x ∧ deletable out_path p x).
Proof.
  revert fs p. change (deletes_only (deletable out_path)
    (clean_data all_data rki john_hopkins spain population hdf5 out_path)).
  assert (Hdir : ∀ cdir, cdir ∈ directories →
            deletable out_path (out_path ++ [cdir]) Dir).
  { intros cdir Hc. exists cdir. done. }
  assert (Hfile : ∀ d n c,
            (d = out_path ∨ ∃ cdir, cdir ∈ directories ∧ d = out_path ++ [cdir]) →
            endswith n "json" = true ∨ endswith n "h5" = true →
            deletable out_path (d ++ [n]) (File c)).
  { intros d n c Hd Hn. exists d, n. done. }
  assert (Hall : ∀ n, endswith n ".json" || endswith n ".h5" = true →
            endswith n "json" = true ∨ endswith n "h5" = true).
  { intros n [H|H]%orb_true_iff; [left|right];
      by apply (endswith_shorter n "."). }
  assert (Hend : ∀ n (b : bool),
            endswith n (if truthy hdf5 then "h5" else "json") && b = true →
            endswith n "json" = true ∨ endswith n "h5" = true).
  { intros n b [H _]%andb_true_iff. destruct (truthy hdf5); auto. }
  assert (Hg : "Germany" ∈ directories) by (by apply (bool_decide_unpack _)).
  assert (Hsp : "Spain" ∈ directories) by (by apply (bool_decide_unpack _)).
  unfold clean_data.
  destruct (truthy all_data).
  { apply deletes_only_run, Forall_app. split.
    - apply Forall_fmap, Forall_forall. intros cdir Hc. simpl.
      apply deletes_only_clean_directory; [|by apply Hdir].
      intros n c Hn. apply Hfile; [right; eauto|by apply Hall].
    - constructor; [|constructor]. apply deletes_only_clean_files.
      intros n c Hn. apply Hfile; [by left|by apply Hall]. }
  destruct (truthy rki || truthy john_hopkins || truthy spain
            || truthy population); [|apply deletes_only_skip].
  apply deletes_only_run.
  constructor; [|constructor; [|constructor; [|constructor; [|constructor]]]].
  - destruct (truthy rki); [|apply deletes_only_skip].
    apply deletes_only_clean_directory; [|by apply Hdir].
    intros n c Hn. apply Hfile; [right; eauto|by eapply Hend].
  - destruct (truthy population); [|apply deletes_only_skip].
    apply deletes_only_clean_directory; [|by apply Hdir].
    intros n c Hn. apply Hfile; [right; eauto|by eapply Hend].
  - destruct (truthy spain); [|apply deletes_only_skip].
    apply deletes_only_clean_directory; [|by apply Hdir].
    intros n c Hn. apply Hfile; [right; eauto|by eapply Hend].
  - destruct (truthy john_hopkins); [|apply deletes_only_skip].
    apply deletes_only_run, Forall_app. split.
    + apply Forall_fmap, Forall_forall. intros cdir Hc. simpl.
      apply deletes_only_clean_directory; [|by apply Hdir].
      intros n c Hn. apply Hfile; [right; eauto|by eapply Hend].
    + constructor; [|constructor]. apply deletes_only_clean_files.
      intros n c Hn. apply Hfile; [by left|by eapply Hend].
Qed.

End CleanupMore.

(** ** File names *)

Module NamesFacts.
Import Fetch Names CleanupMore.

Lemma app_not_longer (s t : string) : s +:+ t = s → t = "".
Proof.
  intros H. apply (f_equal String.length) in H.
  rewrite length_app_string in H. destruct t; [done|]. simpl in H. lia.
Qed.

(** Two calls with the same base name give the same file name exactly
    when they agree on the window of the moving average, if one of them
    has a positive window, and else on the truth value of [impute_dates]:
    the names of different options never collide, and with a moving
    average [impute_dates] leaves no trace in the name. *)
Theorem append_filename_same (filename : string) (i i' : pyval)
    (m m' : Z) :
  append_filename filename i m = append_filename filename i' m'
  ↔ (0 < m ∧ m' = m)%Z
    ∨ (m ≤ 0 ∧ m' ≤ 0 ∧ truthy i = truthy i')%Z.
Proof.
  unfold append_filename, str_of_Z.
  destruct (Z.ltb_spec 0 m) as [Hm|Hm], (Z.ltb_spec 0 m') as [Hm'|Hm'].
  - split.
    + rewrite !app_assoc_string. intros H. do 2 apply String.app_inj in H.
      apply (inj pretty) in H. left. by split.
    + intros [[_ ->]|[? _]]; [done|lia].
  - split; [|intros [[? ->]|[? _]]; lia].
    rewrite app_assoc_string. intros H. exfalso.
    destruct (truthy i').
    + apply String.app_inj in H. discriminate H.
    + apply app_not_longer in H. discriminate H.
  - split; [|intros [[? ->]|[_ [? _]]]; lia].
    rewrite app_assoc_string. intros H. exfalso. symmetry in H.
    destruct (truthy i).
    + apply String.app_inj in H. discriminate H.
    + apply app_not_longer in H. discriminate H.
  - split.
    + intros H. right. split; [done|]. split; [done|].
      destruct (truthy i), (truthy i'); try done; exfalso.
      * by apply app_not_longer in H.
      * symmetry in H. by apply app_not_longer in H.
    + intros [[? _]|(_ & _ & ->)]; [lia|done].
Qed.

End NamesFacts.

(** ** The command line of the download packages *)

Module CliFacts.
Import FS Writer Cleanup CleanupFacts Cli.

Lemma initial_namespace_dom (args : list argument) (k : string) :
  k ∈ dest <$> args → is_Some (initial_namespace args !! k).
Proof.
  unfold initial_namespace.
  assert (H : ∀ ns : dict,
            is_Some (ns !! k) ∨ k ∈ dest <$> args →
            is_Some (foldl (λ ns a, match ns !! dest a with
                                    | None => <[dest a := default_of a]> ns
                                    | Some _ => ns
                                    end) ns args !! k)).
  { induction args as [|a args IH]; intros ns; simpl.
    - intros [Hk|Hk]; [done|]. by apply elem_of_nil in Hk.
    - intros [Hk|Hk]; apply IH.
      + left. destruct (ns !! dest a) eqn:E; [done|].
        destruct (decide (dest a = k)) as [<-|Hne].
        * by rewrite lookup_insert_eq.
        * by rewrite lookup_insert_ne.
      + apply elem_of_cons in Hk as [->|Hk]; [|by right]. left.
        destruct (ns !! dest a) eqn:E; [by rewrite E|].
        by rewrite lookup_insert_eq. }
  intros Hk. apply H. by right.
Qed.

(** Every [dest] of an argument is an attribute of a parsed namespace. *)
Lemma parse_args_dom (m : matcher) (args : list argument)
    (argv : list string) (ns : dict) (k : string) :
  parse_args m args argv = Ok ns → k ∈ dest <$> args → is_Some (ns !! k).
Proof.
  unfold parse_args. destruct (m args argv) as [fired|e]; [|done].
  simpl. intros [= <-] Hk. apply initial_namespace_dom in Hk.
  revert Hk. generalize (initial_namespace args).
  induction fired as [|f fired IH]; intros ns0 Hk; simpl; [done|].
  apply IH. destruct (args !! f.1) as [a|]; [|done].
  destruct (decide (dest a = k)) as [<-|Hne].
  - by rewrite lookup_insert_eq.
  - by rewrite lookup_insert_ne.
Qed.

(** The attribute names registered for a package: the four common ones,
    then the names its entry of [cli_dict] lists after the message. *)
Lemma cli_dict_dests (dd : default_dict) (what : string)
    (what_list : list string) :
  assoc what cli_dict = Some what_list →
  dest <$> cli_arguments dd what_list
  = ["read_data"; "file_format"; "out_folder"; "no_raw"] ++ tail what_list.
Proof.
  intros H. unfold cli_dict in H. cbn [assoc] in H.
  repeat match type of H with
         | context [String.eqb ?a what] =>
             destruct (String.eqb a what);
             [injection H as <-; reflexivity|]
         end.
  discriminate H.
Qed.

(** [cli(what)] raises [ValueError], leaving the file system alone, when
    [what] is no key of [cli_dict]; else the dictionary it returns has
    exactly the keys [read_data], [file_format], [out_folder], [no_raw]
    and the names that the entry of [what] lists, whatever the command
    line was. *)
Theorem cli_keys (m : matcher) (dd : default_dict) (what : string)
    (argv : list string) (fs : filesystem) :
  match assoc what cli_dict with
  | None => cli m dd what argv fs
            = (fs, Raise (ValueError "Wrong key or cli_dict."))
  | Some what_list =>
      ∀ ns, (cli m dd what argv fs).2 = Ok ns →
        ∀ k, is_Some (ns !! k)
             ↔ k ∈ ["read_data"; "file_format"; "out_folder"; "no_raw"]
                   ++ tail what_list
  end.
Proof.
  unfold cli. destruct (assoc what cli_dict) as [what_list|] eqn:E; [|done].
  intros ns H k. rewrite <- (cli_dict_dests dd what what_list E).
  destruct (check_dir_str (out_folder dd) fs); [|done].
  simpl in H. split.
  - by apply (CleanupFacts.parse_args_keys m _ argv).
  - by apply (parse_args_dom m _ argv).
Qed.

(** What [cli] does to the file system depends neither on the command
    line nor on how argparse reads it: the folder made is the default
    one, also when [-o] names another. *)
Lemma cli_file_system (m m' : matcher) (dd : default_dict)
    (what : string) (argv argv' : list string) (fs : filesystem) :
  (cli m dd what argv fs).1 = (cli m' dd what argv' fs).1
  ∧ ((cli m dd what argv fs).1 = fs
     ∨ check_dir_str (out_folder dd) fs = Ok (cli m dd what argv fs).1).
Proof.
  unfold cli. destruct (assoc what cli_dict); [|by split; [|left]].
  destruct (check_dir_str (out_folder dd) fs); simpl; split; auto.
Qed.

End CliFacts.

(** ** The census array *)

Module CensusFacts.
Import Counties CountiesFacts Census.

(** The test of the two nested [if]s of the key loop. *)
Definition matches (z : zensus_row) (r : reg_row) : bool :=
  String.eqb (z_name z) (reg_name r) && (z_ewz z =? reg_ewz r)%Z.

(** The row of [data] built from the census row [z] under the key [k]. *)
Definition census_row (k : Z) (z : zensus_row) : row :=
  k :: z_ewz z :: zip_with Z.add (z_male z) (z_female z).

Lemma key_fold_unmatched (reg : list reg_row) (z : zensus_row) (k : Z) :
  Forall (λ r, matches z r = false) reg →
  fold_left (λ k r, if matches z r then reg_ags r else k) reg k = k.
Proof.
  intros H. revert k. induction H as [|r reg Hr _ IH]; intros k; [done|].
  simpl. by rewrite Hr.
Qed.

Lemma key_of_unmatched (reg : list reg_row) (z : zensus_row) :
  Forall (λ r, matches z r = false) reg → key_of reg z = 0%Z.
Proof. apply key_fold_unmatched. Qed.

(** The key of a census row is the [AGS] of the last row of [reg_key]
    with its name and its population: an earlier match is overwritten. *)
Theorem key_of_last_match (reg reg' : list reg_row) (r : reg_row)
    (z : zensus_row) :
  matches z r = true →
  Forall (λ r', matches z r' = false) reg' →
  key_of (reg ++ r :: reg') z = reg_ags r.
Proof.
  intros Hr Hreg'. unfold key_of. rewrite fold_left_app. simpl.
  fold (matches z r). rewrite Hr. by apply key_fold_unmatched.
Qed.

Lemma key_of_last_match_witness :
  key_of [RegRow "Kiel" 235 1002; RegRow "Kiel" 235 1099;
          RegRow "Kiel" 240 1003]
         (ZensusRow "Kiel" 235 [] []) = 1099%Z.
Proof.
  apply (key_of_last_match [RegRow "Kiel" 235 1002] [RegRow "Kiel" 240 1003]
           (RegRow "Kiel" 235 1099) (ZensusRow "Kiel" 235 [] [])).
  - reflexivity.
  - constructor; [reflexivity|constructor].
Defined.

Lemma first_index_spec (k : Z) (key : list Z) :
  k ∈ key →
  key !! first_index k key = Some k
  ∧ ∀ j, j < first_index k key → key !! j ≠ Some k.
Proof.
  intros Hk. unfold first_index.
  destruct (list_find_elem_of (λ x, x = k) key k Hk eq_refl) as [[i x] Hf].
  rewrite Hf. simpl. apply list_find_Some in Hf as (Hi & -> & Hlt).
  split; [done|]. intros j Hj Hjk. by apply (Hlt j k).
Qed.

Lemma first_index_first (k : Z) (key : list Z) (i : nat) :
  key !! i = Some k → (∀ j, j < i → key !! j ≠ Some k) →
  first_index k key = i.
Proof.
  intros Hi Hlt.
  destruct (first_index_spec k key) as [Hf Hflt].
  { by eapply list_elem_of_lookup_2. }
  destruct (Nat.lt_trichotomy (first_index k key) i) as [H|[H|H]]; [|done|].
  - by destruct (Hlt _ H).
  - by destruct (Hflt _ H).
Qed.

Lemma unique_elem_of (key : list Z) (k : Z) :
  k ∈ (np_unique key).1 ↔ k ∈ key.
Proof.
  unfold np_unique. simpl.
  by rewrite merge_sort_Permutation, elem_of_remove_dups.
Qed.

Lemma unique_NoDup (key : list Z) : NoDup (np_unique key).1.
Proof.
  unfold np_unique. simpl. rewrite merge_sort_Permutation.
  apply NoDup_remove_dups.
Qed.

Lemma unique_sorted (key : list Z) : StronglySorted Z.le (np_unique key).1.
Proof. unfold np_unique. simpl. apply StronglySorted_merge_sort; apply _. Qed.

Lemma strictly_sorted (l : list Z) :
  StronglySorted Z.le l → NoDup l → StronglySorted Z.lt l.
Proof.
  induction 1 as [|x l Hl IH Hx]; intros Hnd; [constructor|].
  apply NoDup_cons in Hnd as [Hx' Hnd]. constructor; [by apply IH|].
  apply Forall_forall. intros y Hy.
  pose proof (proj1 (Forall_forall _ _) Hx y Hy) as Hle.
  assert (x ≠ y) by (by intros ->). lia.
Qed.

Lemma data_row_first (reg : list reg_row) (zensus : list zensus_row)
    (k : Z) :
  k ∈ key_of reg <$> zensus →
  ∃ z, zensus !! first_index k (key_of reg <$> zensus) = Some z
       ∧ key_of reg z = k
       ∧ data_row (key_of reg <$> zensus) zensus
           (first_index k (key_of reg <$> zensus))
         = census_row k z.
Proof.
  intros Hk. destruct (first_index_spec _ _ Hk) as [Hf _].
  pose proof Hf as Hf'.
  apply list_lookup_fmap_Some in Hf' as (z & Hkz & Hz).
  exists z. split; [done|]. split; [done|].
  unfold data_row. by rewrite Hf, Hz, Hkz.
Qed.

Lemma assemble_rows (reg : list reg_row) (zensus : list zensus_row) :
  rows (assemble reg zensus)
  = (λ k, data_row (key_of reg <$> zensus) zensus
            (first_index k (key_of reg <$> zensus)))
    <$> (np_unique (key_of reg <$> zensus)).1.
Proof. unfold assemble, np_unique. simpl. by rewrite <- list_fmap_compose. Qed.

Lemma assemble_keys (reg : list reg_row) (zensus : list zensus_row) :
  keys (rows (assemble reg zensus)) = (np_unique (key_of reg <$> zensus)).1.
Proof.
  rewrite assemble_rows. unfold keys. rewrite <- list_fmap_compose.
  transitivity (id <$> (np_unique (key_of reg <$> zensus)).1);
    [|apply list_fmap_id].
  apply Forall_fmap_ext_1, Forall_forall. intros k Hk.
  apply (proj1 (unique_elem_of _ _)) in Hk.
  destruct (data_row_first reg zensus k Hk) as (z & _ & _ & Hrow).
  simpl. by rewrite Hrow.
Qed.

(** The key column of [data] is strictly ascending and holds exactly the
    keys found for the census rows: one row per key, however many census
    rows share it. *)
Theorem assemble_keys_ascending (reg : list reg_row)
    (zensus : list zensus_row) :
  StronglySorted Z.lt (keys (rows (assemble reg zensus)))
  ∧ (∀ k, k ∈ keys (rows (assemble reg zensus))
          ↔ ∃ z, z ∈ zensus ∧ key_of reg z = k)
  ∧ length (rows (assemble reg zensus))
    = length (remove_dups (key_of reg <$> zensus)).
Proof.
  rewrite assemble_keys. split; [|split].
  - apply strictly_sorted; [apply unique_sorted|apply unique_NoDup].
  - intros k. rewrite unique_elem_of, list_elem_of_fmap.
    split; intros (z & H1 & H2); exists z; by split.
  - rewrite <- (length_fmap row_key). fold (keys (rows (assemble reg zensus))).
    rewrite assemble_keys. unfold np_unique. simpl.
    by rewrite merge_sort_Permutation.
Qed.

Lemma filter_key_unique (g : Z → row) (u : list Z) (k : Z) :
  NoDup u → k ∈ u → (∀ k', k' ∈ u → row_key (g k') = k') →
  filter (λ r, row_key r = k) (g <$> u) = [g k].
Proof.
  induction 1 as [|x u Hx Hnd IH]; intros Hk Hg.
  { by apply elem_of_nil in Hk. }
  assert (Hgx : row_key (g x) = x) by (apply Hg, elem_of_cons; by left).
  assert (Hgu : ∀ k', k' ∈ u → row_key (g k') = k').
  { intros k' Hk'. apply Hg, elem_of_cons. by right. }
  rewrite fmap_cons, filter_cons.
  apply elem_of_cons in Hk as [->|Hk].
  - rewrite decide_True by done. f_equal.
    apply filter_none, Forall_fmap, Forall_forall. intros k' Hk'. simpl.
    rewrite Hgu by done. by intros ->.
  - rewrite decide_False; [by apply IH|].
    rewrite Hgx. by intros ->.
Qed.

Lemma assemble_filter (reg : list reg_row) (zensus : list zensus_row)
    (i : nat) (z : zensus_row) :
  zensus !! i = Some z →
  (∀ j z', j < i → zensus !! j = Some z' → key_of reg z' ≠ key_of reg z) →
  filter (λ r, row_key r = key_of reg z) (rows (assemble reg zensus))
  = [census_row (key_of reg z) z].
Proof.
  intros Hz Hfirst. rewrite assemble_rows.
  assert (Hk : key_of reg z ∈ key_of reg <$> zensus).
  { apply list_elem_of_fmap_2. by eapply list_elem_of_lookup_2. }
  rewrite (filter_key_unique
             (λ k, data_row (key_of reg <$> zensus) zensus
                     (first_index k (key_of reg <$> zensus)))).
  - assert (Hi : first_index (key_of reg z) (key_of reg <$> zensus) = i).
    { apply first_index_first.
      - by rewrite list_lookup_fmap, Hz.
      - intros j Hj Hjk. apply list_lookup_fmap_Some in Hjk as (z' & E & Hz').
        by apply (Hfirst j z'). }
    rewrite Hi. unfold data_row. by rewrite list_lookup_fmap, Hz.
  - apply unique_NoDup.
  - by apply unique_elem_of.
  - intros k' Hk'. apply (proj1 (unique_elem_of _ _)) in Hk'.
    destruct (data_row_first reg zensus k' Hk') as (z' & _ & _ & Hrow).
    by rewrite Hrow.
Qed.

(** Of the census rows that share a key, the first one alone makes the
    row of [data]: the figures of the later ones are not added, they are
    left out. *)
Theorem assemble_first_row (reg : list reg_row) (zensus : list zensus_row)
    (i : nat) (z : zensus_row) :
  zensus !! i = Some z →
  (∀ j z', j < i → zensus !! j = Some z' → key_of reg z' ≠ key_of reg z) →
  filter (λ r, row_key r = key_of reg z) (rows (assemble reg zensus))
  = [census_row (key_of reg z) z].
Proof. apply assemble_filter. Qed.

Definition sample_reg : list reg_row :=
  [RegRow "Kiel" 235 1002; RegRow "Bonn" 305 5314].

Definition sample_zensus : list zensus_row :=
  [ZensusRow "Bonn" 305 [1; 2]%Z [3; 4]%Z;
   ZensusRow "Kiel, Stadt" 235 [5; 6]%Z [7; 8]%Z;
   ZensusRow "Bonn" 305 [10; 20]%Z [30; 40]%Z;
   ZensusRow "Ulm" 117 [9; 9]%Z [9; 9]%Z].

Lemma assemble_first_row_witness :
  filter (λ r, row_key r = 5314%Z) (rows (assemble sample_reg sample_zensus))
  = [[5314; 305; 4; 6]%Z].
Proof.
  apply (assemble_first_row sample_reg sample_zensus 0
           (ZensusRow "Bonn" 305 [1; 2]%Z [3; 4]%Z)).
  - reflexivity.
  - intros j z' Hj. lia.
Defined.

Lemma filter_filter_comm {A} (P Q : A → Prop) `{∀ x, Decision (P x)}
    `{∀ x, Decision (Q x)} (l : list A) :
  filter P (filter Q l) = filter Q (filter P l).
Proof.
  induction l as [|x l IH]; [done|].
  rewrite !filter_cons.
  destruct (decide (P x)), (decide (Q x)); rewrite ?filter_cons;
    rewrite ?decide_True by done; rewrite ?decide_False by done;
    by rewrite IH.
Qed.

(** Census rows without a row of [reg_key] of their name and population
    keep the key zero.  They are not dropped: the first of them makes a
    row of key 0 that passes [get_new_counties] unchanged, and the later
    ones are lost. *)
Theorem census_unmatched_row (reg : list reg_row)
    (zensus : list zensus_row) (i : nat) (z : zensus_row) :
  zensus !! i = Some z →
  Forall (λ r, matches z r = false) reg →
  (∀ j z', j < i → zensus !! j = Some z' → key_of reg z' ≠ 0%Z) →
  ∃ out, get_new_counties (assemble reg zensus) = Ok out
    ∧ filter (λ r, row_key r = 0%Z) out = [census_row 0 z].
Proof.
  intros Hz Hun Hfirst.
  pose proof (key_of_unmatched reg z Hun) as Hk.
  pose proof (assemble_filter reg zensus i z Hz) as Hf. rewrite Hk in Hf.
  specialize (Hf Hfirst).
  destruct (get_new_counties_spec (assemble reg zensus))
    as (out & Hout & Hperm & _); [done|].
  exists out. split; [done|].
  apply Permutation_singleton_r. rewrite Hperm, filter_app.
  destruct (fold_acc_rows_inv (rows (assemble reg zensus))
              (successor_rows (ncols (assemble reg zensus)))) as [_ HK].
  rewrite keys_successor_rows in HK.
  rewrite (filter_none _ (fold_left _ _ _)), app_nil_r.
  - rewrite filter_filter_comm, Hf. rewrite filter_cons_True; [done|].
    unfold is_pred. simpl. by apply (bool_decide_unpack _).
  - assert (H0 : Forall (λ k : Z, k ≠ 0%Z) successor_keys)
      by (by apply (bool_decide_unpack _)).
    rewrite <- HK in H0. unfold keys in H0. by rewrite Forall_fmap in H0.
Qed.

Lemma census_unmatched_row_witness :
  ∃ out, get_new_counties (assemble sample_reg sample_zensus) = Ok out
    ∧ filter (λ r, row_key r = 0%Z) out = [[0; 235; 12; 14]%Z].
Proof.
  apply (census_unmatched_row sample_reg sample_zensus 1
           (ZensusRow "Kiel, Stadt" 235 [5; 6]%Z [7; 8]%Z)).
  - reflexivity.
  - constructor; [reflexivity|constructor; [reflexivity|constructor]].
  - intros j z' Hj Hz'. assert (j = 0) as -> by lia.
    injection Hz' as <-. by vm_compute.
Defined.

Lemma census_row_length (k : Z) (z : zensus_row) :
  length (z_male z) = 11 → length (z_female z) = 11 →
  length (census_row k z) = 13.
Proof.
  intros Hm Hf. unfold census_row. simpl.
  rewrite length_zip_with, Hm, Hf. done.
Qed.

Lemma assemble_wf (reg : list reg_row) (zensus : list zensus_row) :
  Forall (λ z, length (z_male z) = 11 ∧ length (z_female z) = 11) zensus →
  wf_ndarray (assemble reg zensus).
Proof.
  intros H11. unfold wf_ndarray. rewrite assemble_rows.
  apply Forall_fmap, Forall_forall. intros k Hk.
  apply (proj1 (unique_elem_of _ _)) in Hk. simpl.
  destruct (data_row_first reg zensus k Hk) as (z & Hz & _ & ->).
  apply list_elem_of_lookup_2 in Hz.
  destruct (proj1 (Forall_forall _ _) H11 z Hz).
  by apply census_row_length.
Qed.

(** From the tables to the array of the counties of today: when every
    census row has its eleven male and eleven female columns,
    [get_new_counties] accepts the assembled array and returns rows of
    thirteen columns in ascending order of the key; the keys are distinct
    unless [reg_key] already assigns the key of a new county. *)
Theorem census_to_counties (reg : list reg_row)
    (zensus : list zensus_row) :
  Forall (λ z, length (z_male z) = 11 ∧ length (z_female z) = 11) zensus →
  ∃ out, get_new_counties (assemble reg zensus) = Ok out
    ∧ Forall (λ r : row, length r = 13) out
    ∧ Sorted Z.le (keys out)
    ∧ ((∀ z, z ∈ zensus → key_of reg z ∉ successor_keys) →
       NoDup (keys out)).
Proof.
  intros H11. pose proof (assemble_wf reg zensus H11) as Hwf.
  destruct (get_new_counties_spec (assemble reg zensus))
    as (out & Hout & Hperm & Hsorted); [done|].
  destruct (get_new_counties_shape (assemble reg zensus) Hwf)
    as (out' & Hout' & _ & Hw); [done|].
  assert (out' = out) as -> by congruence.
  destruct (fold_acc_rows_inv (rows (assemble reg zensus))
              (successor_rows (ncols (assemble reg zensus)))) as [_ HK].
  exists out. split; [done|]. split; [done|]. split; [done|].
  intros Hs. unfold keys at 1. rewrite Hperm, fmap_app.
  fold (keys (filter (λ r, ¬ is_pred r) (rows (assemble reg zensus)))).
  fold (keys (fold_left acc_rows (rows (assemble reg zensus))
                (successor_rows (ncols (assemble reg zensus))))).
  rewrite HK, keys_filter, assemble_keys. apply NoDup_app. split; [|split].
  - apply NoDup_filter, unique_NoDup.
  - intros k [_ Hk]%list_elem_of_filter.
    apply unique_elem_of, list_elem_of_fmap in Hk as (z & -> & Hz).
    by apply Hs.
  - by apply (bool_decide_unpack _).
Qed.

Definition eleven (n : Z) : list Z := replicate 11 n.

Lemma census_to_counties_witness :
  ∃ out, get_new_counties
           (assemble sample_reg
              [ZensusRow "Bonn" 305 (eleven 1) (eleven 2);
               ZensusRow "Kiel" 235 (eleven 3) (eleven 4)]) = Ok out
    ∧ Forall (λ r : row, length r = 13) out
    ∧ Sorted Z.le (keys out)
    ∧ ((∀ z, z ∈ [ZensusRow "Bonn" 305 (eleven 1) (eleven 2);
                  ZensusRow "Kiel" 235 (eleven 3) (eleven 4)] →
          key_of sample_reg z ∉ successor_keys) →
       NoDup (keys out)).
Proof.
  apply (census_to_counties sample_reg).
  constructor; [by split|constructor; [by split|constructor]].
Defined.

End CensusFacts.

(** ** Population data of the states *)

Module PopulationFacts.
Import FS Writer Population.

Local Arguments select : simpl never.

Lemma ends_in_sep_app (a b : string) :
  b ≠ "" → ends_in_sep (a +:+ b) = ends_in_sep b.
Proof.
  intros Hb. induction a as [|c a IH]; [done|].
  change (String c a +:+ b) with (String c (a +:+ b)).
  cbn [ends_in_sep]. destruct (a +:+ b) as [|c0 s0] eqn:E; [|exact IH].
  exfalso. destruct a as [|c' a'].
  - change ("" +:+ b) with b in E. done.
  - change (String c' a' +:+ b) with (String c' (a' +:+ b)) in E. done.
Qed.

(** The directory of the output ends in a separator, whatever the folder:
    the names of the files are appended to it as they are. *)
Lemma directory_join (out_folder name : string) :
  String.prefix "/" name = false →
  path_join (path_join out_folder "Germany/") name
  = path_join out_folder "Germany/" +:+ name.
Proof.
  intros Hn. unfold path_join at 1. rewrite Hn.
  assert (H : ends_in_sep (path_join out_folder "Germany/") = true).
  { unfold path_join. simpl.
    destruct (String.eqb out_folder "" || ends_in_sep out_folder).
    - by rewrite ends_in_sep_app.
    - by rewrite !ends_in_sep_app. }
  rewrite H. by rewrite orb_true_r.
Qed.

Lemma select_raises (columns : list string) (df : dataframe) :
  (∃ c, c ∈ columns ∧ column c df = None) →
  select columns df = Raise LookupError.
Proof.
  intros (c & Hc & Hn). unfold select.
  induction columns as [|c' columns IH]; [by apply elem_of_nil in Hc|].
  simpl. destruct (column c' df) as [s0|] eqn:E; [|done]. simpl.
  apply elem_of_cons in Hc as [->|Hc]; [congruence|].
  by rewrite IH.
Qed.

Lemma data_sets_one {S} (E : env S) (read_data : pyval)
    (out_form directory : string) (d : Data) (s : S) :
  data_sets E read_data out_form directory [d] s
  = get_one_data_set E read_data out_form directory d s.
Proof.
  cbn [data_sets].
  by destruct (get_one_data_set E read_data out_form directory d s)
    as [s' [[]|e]].
Qed.

(** The same surroundings with another [loadCsv]. *)
Definition with_loadCsv {S} (load : string → S → S * result dataframe)
    (E : env S) : env S :=
  Env S (Gd S load (gd_check_dir (gd E)) (gd_write_dataframe (gd E)))
      (read_json E) (GerEng E).

(** With [read_data] set, [get_population_data] does not call
    [gd.loadCsv]: the run is the same with any other loader.  Once
    [gd.check_dir] has returned, a [ValueError] of [read_json] on
    [FullDataB.json] in the directory ends the run with exit status 1 in
    the state that [check_dir] left: the writer is not called. *)
Theorem read_mode_stays_offline {S} (E : env S) (read_data : pyval)
    (out_form out_folder : string) (s : S) :
  truthy read_data = true →
  (∀ load, get_population_data (with_loadCsv load E) read_data out_form
             out_folder s
           = get_population_data E read_data out_form out_folder s)
  ∧ (∀ s1 msg,
       gd_check_dir (gd E) (path_join out_folder "Germany/") s
       = (s1, Ok ()) →
       read_json E (path_join out_folder "Germany/" +:+ "FullDataB.json") s1
       = Raise (ValueError msg) →
       get_population_data E read_data out_form out_folder s
       = (s1, Raise (SystemExit 1))).
Proof.
  intros Hr. split.
  - intros load. unfold get_population_data.
    change (gd_check_dir (gd (with_loadCsv load E)))
      with (gd_check_dir (gd E)).
    destruct (gd_check_dir (gd E) _ s) as [s1 [[]|e]]; [|done].
    rewrite !data_sets_one. unfold get_one_data_set. rewrite Hr. done.
  - intros s1 msg Hc Hj. unfold get_population_data. rewrite Hc.
    rewrite data_sets_one. unfold get_one_data_set. rewrite Hr.
    rewrite directory_join by done.
    change (filename d1 +:+ ".json") with "FullDataB.json".
    by rewrite Hj.
Qed.

(** Surroundings that keep a journal of the calls made to [gd]: the
    state is the list of the calls so far. *)
Definition journal_gd (table : dataframe) : gd_module (list string) :=
  Gd (list string)
     (λ item s, (s ++ ["loadCsv " +:+ item], Ok table))
     (λ directory s, (s ++ ["check_dir " +:+ directory], Ok ()))
     (λ df directory file_prefix file_type s,
        Wrote (s ++ ["write_dataframe " +:+ directory +:+ file_prefix
                     +:+ " " +:+ file_type]) df (Ok ())).

Definition journal_env (table : dataframe) : env (list string) :=
  Env (list string) (journal_gd table)
      (λ _ _, Raise (ValueError "Expected object or value"))
      [("LAN_ew_GEN", "State"); ("LAN_ew_RS", "ID_State");
       ("LAN_ew_EWZ", "Population")].

Definition states_table : dataframe :=
  [("LAN_ew_RS", Int64 [1%Z]);
   ("LAN_ew_GEN", Object [PyStr "Schleswig-Holstein"]);
   ("LAN_ew_EWZ", Int64 [2896712%Z]); ("OBJECTID", Int64 [1%Z])].

Lemma read_mode_stays_offline_witness :
  (∀ load, get_population_data (with_loadCsv load (journal_env states_table))
             (PyBool true) "json" "data" []
           = get_population_data (journal_env states_table) (PyBool true)
               "json" "data" [])
  ∧ (∀ s1 msg,
       gd_check_dir (gd (journal_env states_table))
         (path_join "data" "Germany/") []
       = (s1, Ok ()) →
       read_json (journal_env states_table)
         (path_join "data" "Germany/" +:+ "FullDataB.json") s1
       = Raise (ValueError msg) →
       get_population_data (journal_env states_table) (PyBool true) "json"
         "data" []
       = (s1, Raise (SystemExit 1))).
Proof.
  apply (read_mode_stays_offline (journal_env states_table) (PyBool true)
           "json" "data" []).
  reflexivity.
Defined.

(** Without [read_data], once [gd.check_dir] has returned and
    [gd.loadCsv] has delivered a table, the table is handed to
    [gd.write_dataframe] as [FullDataB], format [json], before anything
    about it is checked.  When that call returns, a wanted column that is
    missing ends the run with the [KeyError] in the state the raw write
    left; otherwise the run is the second call of the writer, with the
    three columns renamed, the prefix [PopulStates] and [out_form], in
    that state. *)
Theorem download_keeps_raw_file {S} (E : env S) (read_data : pyval)
    (out_form out_folder : string) (s s1 s2 s3 : S) (df df' : dataframe) :
  let directory := path_join out_folder "Germany/" in
  truthy read_data = false →
  gd_check_dir (gd E) directory s = (s1, Ok ()) →
  gd_loadCsv (gd E) "5dc2fc92850241c3be3d704aa0945d9c_2" s1 = (s2, Ok df) →
  gd_write_dataframe (gd E) df directory "FullDataB" "json" s2
  = Wrote s3 df' (Ok ()) →
  ((∃ c, c ∈ ["LAN_ew_RS"; "LAN_ew_GEN"; "LAN_ew_EWZ"]
         ∧ column c df' = None) →
     get_population_data E read_data out_form out_folder s
     = (s3, Raise LookupError))
  ∧ (∀ rs gen ewz,
       column "LAN_ew_RS" df' = Some rs →
       column "LAN_ew_GEN" df' = Some gen →
       column "LAN_ew_EWZ" df' = Some ewz →
       get_population_data E read_data out_form out_folder s
       = let w := gd_write_dataframe (gd E)
                    (rename (GerEng E)
                       [("LAN_ew_RS", rs); ("LAN_ew_GEN", gen);
                        ("LAN_ew_EWZ", ewz)])
                    directory "PopulStates" out_form s3 in
         (wr_state w, wr_result w)).
Proof.
  intros directory Hr Hc Hl Hw.
  assert (Hrun : get_population_data E read_data out_form out_folder s
                 = match select (columns_wanted d1) df' with
                   | Raise e => (s3, Raise e)
                   | Ok dfo =>
                       let w := gd_write_dataframe (gd E)
                                  (rename (GerEng E) dfo) directory
                                  "PopulStates" out_form s3 in
                       (wr_state w, wr_result w)
                   end).
  { unfold get_population_data. fold directory. rewrite Hc.
    rewrite data_sets_one. unfold get_one_data_set. rewrite Hr.
    change (item d1) with "5dc2fc92850241c3be3d704aa0945d9c_2".
    rewrite Hl. change (filename d1) with "FullDataB". rewrite Hw.
    cbn [wr_state wr_df wr_result]. done. }
  rewrite Hrun.
  change (columns_wanted d1) with ["LAN_ew_RS"; "LAN_ew_GEN"; "LAN_ew_EWZ"].
  split.
  - intros Hm. by rewrite (select_raises _ _ Hm).
  - intros rs gen ewz H1 H2 H3. unfold select. simpl.
    by rewrite H1, H2, H3.
Qed.

Lemma download_keeps_raw_file_witness :
  get_population_data (journal_env (take 2 states_table)) (PyBool false)
    "xml" "data" []
  = (["check_dir data/Germany/";
      "loadCsv 5dc2fc92850241c3be3d704aa0945d9c_2";
      "write_dataframe data/Germany/FullDataB json"],
     Raise LookupError).
Proof.
  apply (download_keeps_raw_file (journal_env (take 2 states_table))
           (PyBool false) "xml" "data" []
           ["check_dir data/Germany/"]
           ["check_dir data/Germany/";
            "loadCsv 5dc2fc92850241c3be3d704aa0945d9c_2"]
           ["check_dir data/Germany/";
            "loadCsv 5dc2fc92850241c3be3d704aa0945d9c_2";
            "write_dataframe data/Germany/FullDataB json"]
           (take 2 states_table) (take 2 states_table));
    try reflexivity.
  exists "LAN_ew_EWZ". split; [|reflexivity].
  apply elem_of_cons. right. apply elem_of_cons. right.
  apply elem_of_cons. by left.
Defined.

End PopulationFacts.

(** ** GeoJSON loader *)

Module GeoFacts.
Import Fetch Geo.

Section facts.

Context {J : Type}.
Variable json_loads : string → result J.
Variable json_normalize_features : J → result dataframe.

(** Once the document is fetched, parsed and normalized to the table [t],
    [loadGeojson] returns only if [t] has the columns [type] and
    [geometry], and raises [LookupError] (the [KeyError] of [drop])
    otherwise.  The table returned has the other columns of [t]; a field
    [properties.x] of the features comes out under the name [x]. *)
Theorem loadGeojson_properties (w : world)
    (targetFileName apiUrl extension : string) (b : bytes) (s : string)
    (data : J) (t : dataframe) :
  urlopen_read w (apiUrl +:+ targetFileName +:+ "." +:+ extension) = Ok b →
  decode w "utf-8" b = Ok s →
  json_loads s = Ok data →
  json_normalize_features data = Ok t →
  if bool_decide ("type" ∈ t.*1 ∧ "geometry" ∈ t.*1)
  then ∃ df,
    loadGeojson json_loads json_normalize_features w targetFileName apiUrl
      extension = Ok df
    ∧ (∀ x v, ("properties." +:+ x, v) ∈ t → (x, v) ∈ df)
    ∧ (∀ c, c ∈ df → ∃ n, (n, c.2) ∈ t ∧ n ≠ "type" ∧ n ≠ "geometry"
                          ∧ c.1 = string_drop 11 n)
  else loadGeojson json_loads json_normalize_features w targetFileName
         apiUrl extension = Raise LookupError.
Proof.
  intros Hu Hd Hl Hn. unfold loadGeojson. rewrite Hu. simpl.
  rewrite Hd. simpl. rewrite Hl, Hn. simpl. unfold drop_columns.
  case_bool_decide as Hc.
  - rewrite bool_decide_eq_true_2.
    2:{ destruct Hc. constructor; [done|]. constructor; [done|constructor]. }
    simpl. eexists. split; [done|]. split.
    + intros x v Hx. unfold rename_columns.
      apply list_elem_of_fmap. exists ("properties." +:+ x, v).
      split; [done|]. apply list_elem_of_filter. split; [|done].
      simpl. rewrite !not_elem_of_cons. split; [done|]. split; [done|].
      apply not_elem_of_nil.
    + intros c Hin. unfold rename_columns in Hin.
      apply list_elem_of_fmap in Hin as ([n v] & -> & Hin).
      apply list_elem_of_filter in Hin as [Hn' Hin]. simpl in *.
      rewrite !not_elem_of_cons in Hn'. destruct Hn' as (H1 & H2 & _).
      exists n. done.
  - rewrite bool_decide_eq_false_2; [done|].
    intros HF. apply Hc.
    apply Forall_cons in HF as [H1 HF]. apply Forall_cons in HF as [H2 _].
    done.
Qed.

End facts.

Definition features_table : dataframe :=
  [("type", Object [PyStr "Feature"]); ("id", Int64 [1%Z]);
   ("geometry", Object [PyNone]); ("properties.GEN", Object [PyStr "Kiel"])].

Definition geo_world : world :=
  {| requests_get := λ _ _, Raise ConnectionError;
     decode := λ _ _, Ok "{}";
     read_csv_buffer := λ _ _, Raise ParserError;
     read_csv_url := λ _ _, Raise ParserError;
     urlopen_read := λ _, Ok [];
     zip_first_member := λ _, Raise IndexError;
     zip_open := λ _ _, Raise URLError;
     read_excel_buffer := λ _ _, Raise ParserError;
     read_excel_url := λ _ _, Raise ParserError |}.

Lemma loadGeojson_properties_witness :
  ∃ df,
    loadGeojson (λ _, Ok ()) (λ _, Ok features_table) geo_world "item"
      "https://opendata.arcgis.com/datasets/" "geojson" = Ok df
    ∧ (∀ x v, ("properties." +:+ x, v) ∈ features_table → (x, v) ∈ df)
    ∧ (∀ c, c ∈ df → ∃ n, (n, c.2) ∈ features_table ∧ n ≠ "type"
                          ∧ n ≠ "geometry" ∧ c.1 = string_drop 11 n).
Proof.
  apply (loadGeojson_properties (λ _, Ok ()) (λ _, Ok features_table)
           geo_world "item" "https://opendata.arcgis.com/datasets/"
           "geojson" [] "{}" () features_table); reflexivity.
Defined.

End GeoFacts.
